(** * Spock: subscription synchronisation state and its SQL entry points

    A shallow embedding of the parts of [spock_functions.c], [spock_sync.h],
    [spock_conflict.h] and [spock_relcache.h] that create, reset, diff and
    wait on the per-subscription and per-table synchronisation records,
    together with the row filter used by the filtered table scan.

    The local catalogs are lists of rows, every C function that can
    [ereport(ERROR)] is a computation in a state-and-error monad, and every
    write to a catalog or to the outside world is also appended to a log so
    that the order of effects inside one call can be stated. *)

From Stdlib Require Import String Ascii List ZArith Bool Lia.
Import ListNotations.

Local Open Scope string_scope.
Local Open Scope Z_scope.

(** ** Basic PostgreSQL types *)

(** [Oid] is an unsigned 32 bit integer; no arithmetic is done on it here. *)
Definition Oid := Z.
Definition InvalidOid : Oid := 0.

(** [XLogRecPtr] is an unsigned 64 bit log position. *)
Definition XLogRecPtr := Z.
Definition InvalidXLogRecPtr : XLogRecPtr := 0.

(** PostgreSQL's [NAMEDATALEN]: a [NameData] is an array of that many
    bytes, the last of which ends the name. *)
Definition NAMEDATALEN : nat := 64.

(** [NameData] holds an identifier of at most [NAMEDATALEN - 1] bytes. *)
Definition NameData := string.

(** The first [n] characters of a string. *)
Fixpoint string_prefix (n : nat) (s : string) : string :=
  match n, s with
  | S n', String c rest => String c (string_prefix n' rest)
  | _, _ => EmptyString
  end.

(** [namestrcpy(name, str)] copies [str] with [strncpy] over [NAMEDATALEN]
    bytes and ends the name at its last byte: the name is [str] when [str]
    fits, and its first [NAMEDATALEN - 1] bytes when it does not. *)
Definition namestrcpy (src : string) : NameData :=
  string_prefix (NAMEDATALEN - 1) src.

(** [namestrcmp(name, str)] compares the name, which ends within its
    [NAMEDATALEN] bytes, with the first [NAMEDATALEN] bytes of [str]: it
    returns [0] exactly when [str] is the name, as [strcmp] does. Only the
    comparison with [0] is used by the callers. *)
Definition namestrcmp (name : NameData) (str : string) : Z :=
  if String.eqb name str then 0 else 1.

Definition strcmp (a b : string) : Z :=
  if String.eqb a b then 0 else 1.

(** ** spock_sync.h *)

Module Sync.

Record SpockSyncStatus := mkSync {
  kind : ascii;
  subid : Oid;
  nspname : NameData;
  relname : NameData;
  status : ascii;
  statuslsn : XLogRecPtr
}.

Definition SYNC_KIND_INIT : ascii := "i".
Definition SYNC_KIND_FULL : ascii := "f".
Definition SYNC_KIND_FULL_REL : ascii := "l".
Definition SYNC_KIND_STRUCTURE : ascii := "s".
Definition SYNC_KIND_STRUCTURE_REL : ascii := "r".
Definition SYNC_KIND_DATA : ascii := "d".



Definition SyncKindStructureRelations (k : ascii) : bool :=
  Ascii.eqb k SYNC_KIND_FULL_REL || Ascii.eqb k SYNC_KIND_STRUCTURE_REL.

Definition SyncStructureAll (sync_structure : string) : bool :=
  strcmp sync_structure "all" =? 0.

Definition SyncStructureRelOnly (sync_structure : string) : bool :=
  strcmp sync_structure "relations_only" =? 0.

Definition SyncStructureNone (sync_structure : string) : bool :=
  strcmp sync_structure "none" =? 0.

Definition SYNC_STATUS_NONE : ascii := Ascii.zero.
Definition SYNC_STATUS_INIT : ascii := "i".
Definition SYNC_STATUS_STRUCTURE : ascii := "s".
Definition SYNC_STATUS_DATA : ascii := "d".
Definition SYNC_STATUS_CONSTAINTS : ascii := "c".
Definition SYNC_STATUS_SYNCWAIT : ascii := "w".
Definition SYNC_STATUS_CATCHUP : ascii := "u".
Definition SYNC_STATUS_SYNCDONE : ascii := "y".
Definition SYNC_STATUS_READY : ascii := "r".

(** [memset(&sync, 0, sizeof(SpockSyncStatus))]. *)
Definition zero_sync : SpockSyncStatus :=
  mkSync Ascii.zero 0 EmptyString EmptyString Ascii.zero 0.

End Sync.
Export Sync.

(** ** spock_conflict.h *)

Inductive SpockConflictResolution :=
| SpockResolution_ApplyRemote
| SpockResolution_KeepLocal
| SpockResolution_Skip.

Inductive SpockResolveOption :=
| SPOCK_RESOLVE_ERROR
| SPOCK_RESOLVE_APPLY_REMOTE
| SPOCK_RESOLVE_KEEP_LOCAL
| SPOCK_RESOLVE_LAST_UPDATE_WINS
| SPOCK_RESOLVE_FIRST_UPDATE_WINS.

Inductive SpockConflictType :=
| CONFLICT_INSERT_INSERT
| CONFLICT_UPDATE_UPDATE
| CONFLICT_UPDATE_DELETE
| CONFLICT_DELETE_DELETE.

(** ** spock_relcache.h *)

Record SpockRemoteRel := mkRemoteRel {
  rr_relid : Z;
  rr_nspname : string;
  rr_relname : string;
  rr_attnames : list string;
  rr_hasRowFilter : bool;
  rr_nsptarget : string;
  rr_reltarget : string
}.

(** ** Catalog rows: nodes, interfaces, subscriptions, relations

    The structs of [spock_node.h] with the fields that [spock_functions.c]
    reads and writes. *)

Record SpockNode := mkNode {
  node_id : Oid;
  node_name : string
}.

Record SpockInterface := mkInterface {
  if_id : Oid;
  if_name : string;
  if_nodeid : Oid;
  if_dsn : string
}.

Record SpockLocalNode := mkLocalNode {
  node : SpockNode;
  node_if : SpockInterface
}.

Record SpockSubscription := mkSubscription {
  sub_id : Oid;
  sub_name : string;
  origin_if : SpockInterface;
  target_if : SpockInterface;
  replication_sets : list string;
  forward_origins : list string;
  enabled : bool;
  slot_name : string;
  apply_delay : Z;
  force_text_transfer : bool
}.

(** A relation of the local database, as [table_open], [get_rel_name] and
    [get_namespace_name] see it. *)
Record RelationData := mkRelation {
  rd_id : Oid;
  rd_nspname : string;
  rd_relname : string
}.

(** ** The local database and the log of effects *)

Inductive Effect :=
| EffCreateNode (n : SpockNode)
| EffCreateNodeInterface (i : SpockInterface)
| EffCreateSubscription (s : SpockSubscription)
| EffCreateLocalSyncStatus (r : SpockSyncStatus)
| EffSetTableSyncStatus (sub : Oid) (nsp rel : string) (st : ascii)
                        (lsn : XLogRecPtr)
| EffDropTableSyncStatusForSub (sub : Oid) (nsp rel : string)
| EffTruncateTable (nsp rel : string)
| EffSubscriptionChanged (sub : Oid) (kill : bool).

Record Database := mkDatabase {
  dbname : string;
  local_node : option SpockLocalNode;
  nodes : list SpockNode;
  node_interfaces : list SpockInterface;
  subscriptions : list SpockSubscription;
  local_sync_status : list SpockSyncStatus;
  pg_class : list RelationData;
  effects : list Effect
}.

Definition set_nodes (l : list SpockNode) (db : Database) : Database :=
  mkDatabase (dbname db) (local_node db) l (node_interfaces db)
             (subscriptions db) (local_sync_status db) (pg_class db)
             (effects db).

Definition set_node_interfaces (l : list SpockInterface) (db : Database)
  : Database :=
  mkDatabase (dbname db) (local_node db) (nodes db) l
             (subscriptions db) (local_sync_status db) (pg_class db)
             (effects db).

Definition set_subscriptions (l : list SpockSubscription) (db : Database)
  : Database :=
  mkDatabase (dbname db) (local_node db) (nodes db) (node_interfaces db)
             l (local_sync_status db) (pg_class db) (effects db).

Definition set_local_sync_status (l : list SpockSyncStatus) (db : Database)
  : Database :=
  mkDatabase (dbname db) (local_node db) (nodes db) (node_interfaces db)
             (subscriptions db) l (pg_class db) (effects db).

Definition log_effect (e : Effect) (db : Database) : Database :=
  mkDatabase (dbname db) (local_node db) (nodes db) (node_interfaces db)
             (subscriptions db) (local_sync_status db) (pg_class db)
             (effects db ++ [e]).

(** ** Errors and the state-and-error monad

    [ereport(ERROR, ...)] and [elog(ERROR, ...)] leave the function at once.
    The error keeps the database as it was at that moment, before the
    transaction is rolled back. *)

Inductive SpockError :=
| ErrNotANode
    (* current database is not configured as spock node *)
| ErrConnect (dsn : string)
    (* could not connect to the postgresql server *)
| ErrInterfaceNotFound (nodeid : Oid) (name : string)
| ErrDsnMismatch (provider_dsn origin_name existing_dsn : string)
    (* dsn points to existing node with different dsn *)
| ErrOverlappingRepset (esub_name origin_name newset : string)
    (* existing subscription to node already subscribes to replication set *)
| ErrSubscriptionNotFound (name : string)
| ErrRelationNotFound (reloid : Oid)
| ErrTableSyncStatusNotFound (sub : Oid) (nsp rel : string)
| ErrAlreadySynchronizing (nsp rel : string)
    (* table is already being synchronized *)
| ErrWaitIsolation
    (* cannot wait for sync in REPEATABLE READ or SERIALIZABLE isolation *)
| ErrQueryCanceled.
    (* raised by CHECK_FOR_INTERRUPTS *)

Inductive result (A : Type) :=
| Ok (a : A) (db : Database)
| Raise (e : SpockError) (db : Database).

Arguments Ok {A} a db.
Arguments Raise {A} e db.

Definition M (A : Type) := Database -> result A.

Definition ret {A} (a : A) : M A := fun db => Ok a db.

Definition bind {A B} (c : M A) (k : A -> M B) : M B :=
  fun db => match c db with
            | Ok a db' => k a db'
            | Raise e db' => Raise e db'
            end.

Definition ereport {A} (e : SpockError) : M A := fun db => Raise e db.

Definition gets {A} (f : Database -> A) : M A := fun db => Ok (f db) db.

Definition modify (f : Database -> Database) : M unit :=
  fun db => Ok tt (f db).

Declare Scope spock_scope.
Delimit Scope spock_scope with spock.

Notation "x <- c1 ;; c2" := (bind c1 (fun x => c2))
  (at level 61, c1 at next level, right associativity) : spock_scope.
Notation "c1 ;;; c2" := (bind c1 (fun _ => c2))
  (at level 61, right associativity) : spock_scope.

Local Open Scope spock_scope.

(** [foreach (lc, l) body]. *)
Fixpoint foreach {A} (l : list A) (body : A -> M unit) : M unit :=
  match l with
  | [] => ret tt
  | x :: rest => body x ;;; foreach rest body
  end.

(** Did the call fail? *)
Definition failed {A} (r : result A) : bool :=
  match r with Ok _ _ => false | Raise _ _ => true end.

(** ** PostgreSQL relation lookups *)

Definition find_relation (reloid : Oid) (db : Database) : option RelationData :=
  find (fun r => rd_id r =? reloid) (pg_class db).

(** [table_open(reloid, lockmode)] raises when the relation does not exist. *)
Definition table_open (reloid : Oid) : M RelationData :=
  fun db => match find_relation reloid db with
            | Some r => Ok r db
            | None => Raise (ErrRelationNotFound reloid) db
            end.

(** [get_rel_name(relid)]: [NULL] when there is no such relation. *)
Definition get_rel_name (relid : Oid) (db : Database) : option string :=
  option_map rd_relname (find_relation relid db).

(** [get_namespace_name(get_rel_namespace(relid))]: [get_rel_namespace]
    gives [InvalidOid] for a missing relation and [get_namespace_name] then
    returns [NULL]. *)
Definition get_rel_namespace_name (relid : Oid) (db : Database)
  : option string :=
  option_map rd_nspname (find_relation relid db).

(** ** The catalog store *)

Section CatalogStore.

(** The identifiers that the catalog store assigns to a row handed over
    with [InvalidOid]. *)
Variable gen_node_id : string -> Oid.
Variable gen_interface_id : Oid -> string -> Oid.
Variable gen_subscription_id : string -> Oid.

(** Modelled from the spec: [get_local_node] (spock_node.c is not among the
    sources), as called here with [missing_ok = false]: the local node of
    the catalog store; a database that is not a node is an error. *)
Definition get_local_node : M SpockLocalNode :=
  fun db => match local_node db with
            | Some n => Ok n db
            | None => Raise ErrNotANode db
            end.

(** Modelled from the spec: [get_node_by_name] (spock_node.c), as called
    here with [missing_ok = true]: a key lookup of a node by name. *)
Definition get_node_by_name (name : string) : M (option SpockNode) :=
  gets (fun db => find (fun n => String.eqb (node_name n) name) (nodes db)).

(** Modelled from the spec: [create_node] (spock_node.c) stores the node;
    a node given with [InvalidOid] receives its identifier from the store. *)
Definition create_node (n : SpockNode) : M SpockNode :=
  let n' := if node_id n =? InvalidOid
            then mkNode (gen_node_id (node_name n)) (node_name n) else n in
  modify (fun db => log_effect (EffCreateNode n')
                      (set_nodes (nodes db ++ [n']) db)) ;;;
  ret n'.

(** Modelled from the spec: [create_node_interface] (spock_node.c) stores
    the interface, assigning its identifier when it comes with
    [InvalidOid]. *)
Definition create_node_interface (i : SpockInterface) : M SpockInterface :=
  let i' := if if_id i =? InvalidOid
            then mkInterface (gen_interface_id (if_nodeid i) (if_name i))
                             (if_name i) (if_nodeid i) (if_dsn i)
            else i in
  modify (fun db => log_effect (EffCreateNodeInterface i')
                      (set_node_interfaces (node_interfaces db ++ [i']) db)) ;;;
  ret i'.

Definition interface_matches (nodeid : Oid) (name : string)
           (i : SpockInterface) : bool :=
  (if_nodeid i =? nodeid) && String.eqb (if_name i) name.

(** Modelled from the spec: [get_node_interface_by_name] (spock_node.c), as
    called here with [missing_ok = false]: a key lookup by node identifier
    and interface name; a missing interface is an error. *)
Definition get_node_interface_by_name (nodeid : Oid) (name : string)
  : M SpockInterface :=
  fun db => match find (interface_matches nodeid name) (node_interfaces db) with
            | Some i => Ok i db
            | None => Raise (ErrInterfaceNotFound nodeid name) db
            end.

(** Modelled from the spec: [get_node_subscriptions] (spock_node.c): the
    subscriptions whose origin node ([origin = true]) or target node is
    [nodeid]. *)
Definition get_node_subscriptions (nodeid : Oid) (origin : bool)
  : M (list SpockSubscription) :=
  gets (fun db =>
          filter (fun s => if origin then if_nodeid (origin_if s) =? nodeid
                           else if_nodeid (target_if s) =? nodeid)
                 (subscriptions db)).

Definition with_sub_id (id : Oid) (s : SpockSubscription) : SpockSubscription :=
  mkSubscription id (sub_name s) (origin_if s) (target_if s)
                 (replication_sets s) (forward_origins s) (enabled s)
                 (slot_name s) (apply_delay s) (force_text_transfer s).

(** Modelled from the spec: [create_subscription] (spock_node.c) stores the
    subscription, assigning its identifier when it comes with
    [InvalidOid]. *)
Definition create_subscription (s : SpockSubscription) : M SpockSubscription :=
  let s' := if sub_id s =? InvalidOid
            then with_sub_id (gen_subscription_id (sub_name s)) s else s in
  modify (fun db => log_effect (EffCreateSubscription s')
                      (set_subscriptions (subscriptions db ++ [s']) db)) ;;;
  ret s'.

Definition find_subscription (name : string) (db : Database)
  : option SpockSubscription :=
  find (fun s => String.eqb (sub_name s) name) (subscriptions db).

(** Modelled from the spec: [get_subscription_by_name] (spock_node.c), as
    called here with [missing_ok = false]: a key lookup; a missing
    subscription is an error. *)
Definition get_subscription_by_name (name : string) : M SpockSubscription :=
  fun db => match find_subscription name db with
            | Some s => Ok s db
            | None => Raise (ErrSubscriptionNotFound name) db
            end.

(** *** Sync status rows (spock_sync.c)

    A row whose schema and table name are empty is the subscription-level
    row: the catalog stores both names as absent. *)

Definition is_table_row (r : SpockSyncStatus) : bool :=
  negb (String.eqb (nspname r) EmptyString)
  && negb (String.eqb (relname r) EmptyString).

Definition is_subscription_row (r : SpockSyncStatus) : bool :=
  String.eqb (nspname r) EmptyString && String.eqb (relname r) EmptyString.

Definition table_row_matches (sub : Oid) (nsp rel : string)
           (r : SpockSyncStatus) : bool :=
  (subid r =? sub) && is_table_row r
  && (namestrcmp (nspname r) nsp =? 0) && (namestrcmp (relname r) rel =? 0).

(** Modelled from the spec: [create_local_sync_status] (spock_sync.c) adds
    the record to the catalog. *)
Definition create_local_sync_status (sync : SpockSyncStatus) : M unit :=
  modify (fun db => log_effect (EffCreateLocalSyncStatus sync)
                      (set_local_sync_status (local_sync_status db ++ [sync])
                                             db)).

(** Modelled from the spec: [get_subscription_sync_status] (spock_sync.c),
    as called here with [missing_ok = true]: the subscription-level record
    of the subscription, if any. *)
Definition get_subscription_sync_status (sub : Oid) (db : Database)
  : option SpockSyncStatus :=
  find (fun r => (subid r =? sub) && is_subscription_row r)
       (local_sync_status db).

Definition find_table_sync_status (sub : Oid) (nsp rel : string)
           (db : Database) : option SpockSyncStatus :=
  find (table_row_matches sub nsp rel) (local_sync_status db).

(** Modelled from the spec: [get_table_sync_status] (spock_sync.c), the
    record of one table of a subscription; a missing record is an error
    unless [missing_ok]. *)
Definition get_table_sync_status (sub : Oid) (nsp rel : string)
           (missing_ok : bool) : M (option SpockSyncStatus) :=
  fun db => match find_table_sync_status sub nsp rel db with
            | Some r => Ok (Some r) db
            | None => if missing_ok then Ok None db
                      else Raise (ErrTableSyncStatusNotFound sub nsp rel) db
            end.

Fixpoint update_first (p : SpockSyncStatus -> bool)
         (f : SpockSyncStatus -> SpockSyncStatus)
         (l : list SpockSyncStatus) : list SpockSyncStatus :=
  match l with
  | [] => []
  | r :: rest => if p r then f r :: rest else r :: update_first p f rest
  end.

Definition with_status (st : ascii) (lsn : XLogRecPtr) (r : SpockSyncStatus)
  : SpockSyncStatus :=
  mkSync (kind r) (subid r) (nspname r) (relname r) st lsn.

(** Modelled from the spec: [set_table_sync_status] (spock_sync.c) rewrites
    status and log position of the record of the table, which has to
    exist. *)
Definition set_table_sync_status (sub : Oid) (nsp rel : string)
           (st : ascii) (lsn : XLogRecPtr) : M unit :=
  fun db => match find_table_sync_status sub nsp rel db with
            | Some _ =>
                Ok tt (log_effect (EffSetTableSyncStatus sub nsp rel st lsn)
                         (set_local_sync_status
                            (update_first (table_row_matches sub nsp rel)
                                          (with_status st lsn)
                                          (local_sync_status db)) db))
            | None => Raise (ErrTableSyncStatusNotFound sub nsp rel) db
            end.

(** Modelled from the spec: [drop_table_sync_status_for_sub] (spock_sync.c)
    deletes the records of the table in the subscription. *)
Definition drop_table_sync_status_for_sub (sub : Oid) (nsp rel : string)
  : M unit :=
  modify (fun db =>
            log_effect (EffDropTableSyncStatusForSub sub nsp rel)
              (set_local_sync_status
                 (filter (fun r => negb (table_row_matches sub nsp rel r))
                         (local_sync_status db)) db)).

(** Modelled from the spec: [get_subscription_tables] (spock_sync.c), the
    per-table records of the subscription. *)
Definition get_subscription_tables (sub : Oid) : M (list SpockSyncStatus) :=
  gets (fun db => filter (fun r => (subid r =? sub) && is_table_row r)
                         (local_sync_status db)).

(** Modelled from the spec: [get_unsynced_tables] (spock_sync.c), the
    per-table records of the subscription that are not yet [Ready]. *)
Definition get_unsynced_tables (sub : Oid) (db : Database)
  : list SpockSyncStatus :=
  filter (fun r => (subid r =? sub) && is_table_row r
                   && negb (Ascii.eqb (status r) SYNC_STATUS_READY))
         (local_sync_status db).

(** Modelled from the spec: [truncate_table] (spock_sync.c) removes the
    local rows of the table; it is kept as an effect. *)
Definition truncate_table (nsp rel : string) : M unit :=
  modify (log_effect (EffTruncateTable nsp rel)).

(** Modelled from the spec: [spock_subscription_changed] (spock_worker.c)
    signals the apply worker to reload its view of the sync state. *)
Definition spock_subscription_changed (sub : Oid) (kill : bool) : M unit :=
  modify (log_effect (EffSubscriptionChanged sub kill)).

End CatalogStore.

(** ** The provider, as the subscriber reaches it over libpq *)

Record Network := mkNetwork {
  connect_ok : string -> bool;
  connect_replica_ok : string -> bool;
  remote_node_info : string -> SpockNode;
  remote_repset_tables : string -> list string -> list SpockRemoteRel
}.

(** Modelled from the spec: [spock_connect] and [spock_connect_replica]
    (spock.c is not among the sources) fail loudly when the peer is
    unreachable. *)
Definition spock_connect (net : Network) (dsn : string) : M unit :=
  if connect_ok net dsn then ret tt else ereport (ErrConnect dsn).

Definition spock_connect_replica (net : Network) (dsn : string) : M unit :=
  if connect_replica_ok net dsn then ret tt else ereport (ErrConnect dsn).

(** ** spock_functions.c: subscription management *)

Section SubscriptionManagement.

Variable gen_node_id : string -> Oid.
Variable gen_interface_id : Oid -> string -> Oid.
Variable gen_subscription_id : string -> Oid.

(** The static [gen_slot_name] builds the slot name from hashes of its
    three arguments; the name plays no part in the sync records. *)
Variable gen_slot_name : string -> string -> string -> string.

Variable net : Network.

(** The identifier of the origin node as [spock_create_subscription] has
    it when it looks for the other subscriptions: the one the provider
    reports, or, for a provider not yet known by name that reports
    [InvalidOid], the one [create_node] assigns. *)
Definition origin_node_id (provider_dsn : string) (db : Database) : Oid :=
  let origin := remote_node_info net provider_dsn in
  match find (fun n => String.eqb (node_name n) (node_name origin))
             (nodes db) with
  | Some _ => node_id origin
  | None => if node_id origin =? InvalidOid
            then gen_node_id (node_name origin) else node_id origin
  end.

(** The [if]/[else if] chain of [spock_create_subscription] that chooses
    [sync.kind]. *)
Definition create_subscription_sync_kind (sync_structure : string)
           (sync_data : bool) : ascii :=
  if SyncStructureAll sync_structure && sync_data then SYNC_KIND_FULL
  else if SyncStructureRelOnly sync_structure && sync_data
       then SYNC_KIND_FULL_REL
  else if SyncStructureAll sync_structure then SYNC_KIND_STRUCTURE
  else if SyncStructureRelOnly sync_structure then SYNC_KIND_STRUCTURE_REL
  else if sync_data then SYNC_KIND_DATA
  else SYNC_KIND_INIT.

(** The three nested [foreach] loops that look for overlapping replication
    sets. *)
Definition check_overlapping_repsets (origin_name : string)
           (new_sets : list string)
           (other_subs : list SpockSubscription) : M unit :=
  foreach other_subs (fun esub =>
    foreach (replication_sets esub) (fun existingset =>
      foreach new_sets (fun newset =>
        if strcmp newset existingset =? 0
        then ereport (ErrOverlappingRepset (sub_name esub) origin_name newset)
        else ret tt))).

(** The local representation of the remote node and its interface: looked
    up and checked when the node is known by name, created when not. *)
Definition local_origin_interface (provider_dsn : string) (origin : SpockNode)
  : M SpockInterface :=
  existing_origin <- get_node_by_name (node_name origin) ;;
  match existing_origin with
  | None =>
      origin' <- create_node gen_node_id origin ;;
      create_node_interface gen_interface_id
        (mkInterface InvalidOid (node_name origin') (node_id origin')
                     provider_dsn)
  | Some _ =>
      existingif <- get_node_interface_by_name (node_id origin)
                                               (node_name origin) ;;
      if negb (strcmp (if_dsn existingif) provider_dsn =? 0)
      then ereport (ErrDsnMismatch provider_dsn (node_name origin)
                                   (if_dsn existingif))
      else ret existingif
  end.

Definition spock_create_subscription
           (sub_name provider_dsn : string) (rep_set_names : list string)
           (sync_structure : string) (sync_data : bool)
           (forward_origin_names : list string) (apply_delay : Z)
           (force_text_transfer : bool) : M Oid :=
  (* Check that this is actually a node. *)
  localnode <- get_local_node ;;
  (* Now, fetch info about remote node. *)
  spock_connect net provider_dsn ;;;
  let origin := remote_node_info net provider_dsn in
  (* Check that we can connect remotely also in replication mode. *)
  spock_connect_replica net provider_dsn ;;;
  (* Check that local connection works. *)
  spock_connect net (if_dsn (node_if localnode)) ;;;
  originif <- local_origin_interface provider_dsn origin ;;
  (* Check for overlapping replication sets. *)
  other_subs <- get_node_subscriptions (if_nodeid originif) true ;;
  check_overlapping_repsets (node_name origin) rep_set_names other_subs ;;;
  (* Create the subscription. *)
  let targetif := mkInterface (if_id (node_if localnode)) EmptyString
                              (node_id (node localnode)) EmptyString in
  database_name <- gets dbname ;;
  let sub := mkSubscription InvalidOid sub_name originif targetif
               rep_set_names forward_origin_names true
               (gen_slot_name database_name (node_name origin) sub_name)
               apply_delay force_text_transfer in
  sub' <- create_subscription gen_subscription_id sub ;;
  (* Create synchronization status for the subscription. *)
  let sync := mkSync (create_subscription_sync_kind sync_structure sync_data)
                     (sub_id sub') EmptyString EmptyString
                     SYNC_STATUS_INIT InvalidXLogRecPtr in
  create_local_sync_status sync ;;;
  ret (sub_id sub').

(** The test of the inner loop of [spock_alter_subscription_synchronize]:
    the local record has the target names of the remote table. *)
Definition same_target (nsptarget reltarget : string)
           (tablesync : SpockSyncStatus) : bool :=
  (namestrcmp (nspname tablesync) nsptarget =? 0)
  && (namestrcmp (relname tablesync) reltarget =? 0).

(** The inner [for] loop of [spock_alter_subscription_synchronize]: the
    first local record with the target names of the remote table, and the
    list with that cell deleted. *)
Fixpoint take_local_table (nsptarget reltarget : string)
         (local_tables : list SpockSyncStatus)
  : option SpockSyncStatus * list SpockSyncStatus :=
  match local_tables with
  | [] => (None, [])
  | tablesync :: next =>
      if same_target nsptarget reltarget tablesync
      then (Some tablesync, next)
      else let (oldsync, rest) := take_local_table nsptarget reltarget next in
           (oldsync, tablesync :: rest)
  end.

Definition new_table_sync (sub : Oid) (nsp rel : string) : SpockSyncStatus :=
  mkSync SYNC_KIND_DATA sub (namestrcpy nsp) (namestrcpy rel)
         SYNC_STATUS_INIT InvalidXLogRecPtr.

(** The outer loop: compare with sync status on subscription and add the
    missing ones; returns the local tables left over. *)
Fixpoint add_missing_tables (sub : Oid) (truncate : bool)
         (remote_tables : list SpockRemoteRel)
         (local_tables : list SpockSyncStatus) : M (list SpockSyncStatus) :=
  match remote_tables with
  | [] => ret local_tables
  | remoterel :: rest =>
      let (oldsync, local_tables') :=
        take_local_table (rr_nsptarget remoterel) (rr_reltarget remoterel)
                         local_tables in
      match oldsync with
      | Some _ => ret tt
      | None =>
          create_local_sync_status
            (new_table_sync sub (rr_nsptarget remoterel)
                            (rr_reltarget remoterel)) ;;;
          if truncate
          then truncate_table (rr_nsptarget remoterel) (rr_reltarget remoterel)
          else ret tt
      end ;;;
      add_missing_tables sub truncate rest local_tables'
  end.

Definition spock_alter_subscription_synchronize (sub_name : string)
           (truncate : bool) : M bool :=
  sub <- get_subscription_by_name sub_name ;;
  (* Read table list from provider. *)
  spock_connect net (if_dsn (origin_if sub)) ;;;
  let remote_tables :=
    remote_repset_tables net (if_dsn (origin_if sub))
                         (replication_sets sub) in
  local_tables <- get_subscription_tables (sub_id sub) ;;
  leftover <- add_missing_tables (sub_id sub) truncate remote_tables
                                 local_tables ;;
  (* Any leftover local tables should not be replicated. *)
  foreach leftover (fun tablesync =>
    drop_table_sync_status_for_sub (subid tablesync) (nspname tablesync)
                                   (relname tablesync)) ;;;
  (* Tell apply to re-read sync statuses. *)
  spock_subscription_changed (sub_id sub) false ;;;
  ret true.

Definition spock_alter_subscription_resynchronize_table (sub_name : string)
           (reloid : Oid) (truncate : bool) : M bool :=
  sub <- get_subscription_by_name sub_name ;;
  rel <- table_open reloid ;;
  let nspname := rd_nspname rel in
  let relname := rd_relname rel in
  (* Reset sync status of the table. *)
  oldsync <- get_table_sync_status (sub_id sub) nspname relname true ;;
  match oldsync with
  | Some oldsync =>
      (if negb (Ascii.eqb (status oldsync) SYNC_STATUS_READY)
          && negb (Ascii.eqb (status oldsync) SYNC_STATUS_SYNCDONE)
          && negb (Ascii.eqb (status oldsync) SYNC_STATUS_NONE)
       then ereport (ErrAlreadySynchronizing nspname relname)
       else ret tt) ;;;
      set_table_sync_status (sub_id sub) nspname relname SYNC_STATUS_INIT
                            InvalidXLogRecPtr
  | None =>
      create_local_sync_status (new_table_sync (sub_id sub) nspname relname)
  end ;;;
  (if truncate then truncate_table nspname relname else ret tt) ;;;
  (* Tell apply to re-read sync statuses. *)
  spock_subscription_changed (sub_id sub) false ;;;
  ret true.

End SubscriptionManagement.

(** The guard of [spock_alter_subscription_resynchronize_table] on the
    record it finds, and the database it leaves when the guard lets the
    call through. *)
Definition resync_blocked (oldsync : SpockSyncStatus) : bool :=
  negb (Ascii.eqb (status oldsync) SYNC_STATUS_READY)
  && negb (Ascii.eqb (status oldsync) SYNC_STATUS_SYNCDONE)
  && negb (Ascii.eqb (status oldsync) SYNC_STATUS_NONE).

Definition after_resync (truncate : bool) (sub : Oid) (nsp rel : string)
           (db : Database) : Database :=
  let db1 := log_effect (EffSetTableSyncStatus sub nsp rel SYNC_STATUS_INIT
                                               InvalidXLogRecPtr)
               (set_local_sync_status
                  (update_first (table_row_matches sub nsp rel)
                                (with_status SYNC_STATUS_INIT InvalidXLogRecPtr)
                                (local_sync_status db)) db) in
  let db2 := if truncate then log_effect (EffTruncateTable nsp rel) db1
             else db1 in
  log_effect (EffSubscriptionChanged sub false) db2.

(** The record that [spock_alter_subscription_synchronize] adds for a
    remote table without local record. *)
Definition new_remote_sync (sub : Oid) (rr : SpockRemoteRel) : SpockSyncStatus :=
  new_table_sync sub (rr_nsptarget rr) (rr_reltarget rr).

(** ** spock_functions.c: the row filter of the filtered table scan *)

Definition Datum := Z.

(** [DatumGetBool(X)] is [X != 0]. *)
Definition DatumGetBool (d : Datum) : bool := negb (d =? 0).

Section RowFilter.

Variable HeapTuple : Type.
Variable ExprState : Type.

(** [ExecEvalExpr(exprstate, econtext, &isnull, NULL)] on the tuple stored
    in the scan slot of the expression context: the datum and the null
    flag, or [None] when the evaluation raises an error. *)
Variable ExecEvalExpr : ExprState -> HeapTuple -> option (Datum * bool).

(** Decide if to return tuple or not; [None] when an evaluation raised. *)
Fixpoint filter_tuple (htup : HeapTuple) (row_filter_list : list ExprState)
  : option bool :=
  match row_filter_list with
  | [] => Some true
  | exprstate :: rest =>
      match ExecEvalExpr exprstate htup with
      | None => None
      | Some (res, isnull) =>
          (* NULL is same as false for our use. *)
          if isnull then Some false
          else if negb (DatumGetBool res) then Some false
          else filter_tuple htup rest
      end
  end.

(** The filter evaluates to a value that is not null and is true. *)
Definition evaluates_true (htup : HeapTuple) (exprstate : ExprState) : Prop :=
  exists res, ExecEvalExpr exprstate htup = Some (res, false)
              /\ DatumGetBool res = true.

(** The filter evaluates to null. *)
Definition evaluates_null (htup : HeapTuple) (exprstate : ExprState) : Prop :=
  exists res, ExecEvalExpr exprstate htup = Some (res, true).

(** The filter evaluates to a value that is not null and is false. *)
Definition evaluates_false (htup : HeapTuple) (exprstate : ExprState) : Prop :=
  exists res, ExecEvalExpr exprstate htup = Some (res, false)
              /\ DatumGetBool res = false.

(** The evaluation of the filter does not raise. *)
Definition evaluates (htup : HeapTuple) (exprstate : ExprState) : Prop :=
  ExecEvalExpr exprstate htup <> None.

End RowFilter.

Arguments filter_tuple {HeapTuple ExprState}.
Arguments evaluates_true {HeapTuple ExprState}.
Arguments evaluates_null {HeapTuple ExprState}.
Arguments evaluates_false {HeapTuple ExprState}.
Arguments evaluates {HeapTuple ExprState}.

(** ** spock_functions.c: waiting for the sync to complete *)

(** PostgreSQL's transaction isolation levels ([access/xact.h]). *)
Definition XACT_READ_UNCOMMITTED : Z := 0.
Definition XACT_READ_COMMITTED : Z := 1.
Definition XACT_REPEATABLE_READ : Z := 2.
Definition XACT_SERIALIZABLE : Z := 3.

(** [IsolationUsesXactSnapshot()] is [XactIsoLevel >= XACT_REPEATABLE_READ]. *)
Definition IsolationUsesXactSnapshot (XactIsoLevel : Z) : bool :=
  XactIsoLevel >=? XACT_REPEATABLE_READ.

(** What one turn of the wait loop meets: the database as the latest
    snapshot shows it, whether an interrupt is pending when
    [CHECK_FOR_INTERRUPTS] runs, and whether [WaitLatch] reports the death
    of the postmaster. *)
Record Tick := mkTick {
  latest : Database;
  interrupt_pending : bool;
  postmaster_death : bool
}.

Inductive WaitEffect :=
| WPushActiveSnapshot
| WPopActiveSnapshot
| WWaitLatch
| WResetLatch.

Inductive WaitEnd :=
| WaitReturned
| WaitRaised (e : SpockError)
| WaitProcExit
    (* proc_exit(1) on postmaster death *)
| WaitFreedNull
    (* free_sync_status, that is pfree, called on a null pointer *)
| WaitStillWaiting.
    (* the loop goes on beyond the ticks given *)

Definition is_ready (o : option SpockSyncStatus) : bool :=
  match o with
  | Some s => Ascii.eqb (status s) SYNC_STATUS_READY
  | None => false
  end.

(** A null [char *] names no schema: no record matches it. *)
Definition cstring (o : option string) : string :=
  match o with Some s => s | None => EmptyString end.

(** The body of the [do ... while (1)] loop up to [PopActiveSnapshot]:
    [inl] the value of [isdone], [inr] the way the turn ended early. *)
Definition check_sync_complete (sub : SpockSubscription)
           (relnamespace relname : option string) (db : Database)
  : bool + WaitEnd :=
  match get_subscription_sync_status (sub_id sub) db with
  | None => inr WaitFreedNull
  | Some subsync =>
      if Ascii.eqb (status subsync) SYNC_STATUS_READY
      then
        (* Subscription itself is synced, but what about separately
           synced tables? *)
        match relname with
        | Some relname =>
            match get_table_sync_status (sub_id sub) (cstring relnamespace)
                                        relname false db with
            | Ok table _ => inl (is_ready table)
            | Raise e _ => inr (WaitRaised e)
            end
        | None =>
            inl (match get_unsynced_tables (sub_id sub) db with
                 | [] => true
                 | _ :: _ => false
                 end)
        end
      else inl false
  end.

Fixpoint wait_loop (sub : SpockSubscription)
         (relnamespace relname : option string) (world : list Tick)
  : WaitEnd * list WaitEffect :=
  match world with
  | [] => (WaitStillWaiting, [])
  | t :: later =>
      match check_sync_complete sub relnamespace relname (latest t) with
      | inr stop => (stop, [WPushActiveSnapshot])
      | inl true => (WaitReturned, [WPushActiveSnapshot; WPopActiveSnapshot])
      | inl false =>
          if interrupt_pending t
          then (WaitRaised ErrQueryCanceled,
                [WPushActiveSnapshot; WPopActiveSnapshot])
          else if postmaster_death t
          then (WaitProcExit,
                [WPushActiveSnapshot; WPopActiveSnapshot; WWaitLatch])
          else
            let (stop, effs) := wait_loop sub relnamespace relname later in
            (stop, WPushActiveSnapshot :: WPopActiveSnapshot :: WWaitLatch
                   :: WResetLatch :: effs)
      end
  end.

(** [db] is the database at the time of the call, [world] what the turns
    of the loop meet, one after the other. *)
Definition spock_wait_for_sync_complete (XactIsoLevel : Z) (db : Database)
           (world : list Tick) (subscription_name : string)
           (relnamespace relname : option string)
  : WaitEnd * list WaitEffect :=
  if IsolationUsesXactSnapshot XactIsoLevel
  then (WaitRaised ErrWaitIsolation, [])
  else match get_subscription_by_name subscription_name db with
       | Raise e _ => (WaitRaised e, [])
       | Ok sub _ => wait_loop sub relnamespace relname world
       end.

Definition spock_wait_for_subscription_sync_complete (XactIsoLevel : Z)
           (db : Database) (world : list Tick) (subscription_name : string)
  : WaitEnd * list WaitEffect :=
  spock_wait_for_sync_complete XactIsoLevel db world subscription_name
                               None None.

Definition spock_wait_for_table_sync_complete (XactIsoLevel : Z)
           (db : Database) (world : list Tick) (subscription_name : string)
           (relid : Oid) : WaitEnd * list WaitEffect :=
  let relname := get_rel_name relid db in
  let relnamespace := get_rel_namespace_name relid db in
  spock_wait_for_sync_complete XactIsoLevel db world subscription_name
                               relnamespace relname.

(** The call came back to its caller and never waited on the latch. *)
Definition returned_without_waiting (r : WaitEnd * list WaitEffect) : Prop :=
  fst r = WaitReturned /\ ~ In WWaitLatch (snd r).

(** The effect [a] is logged, and [b] is logged later. *)
Definition happens_before (a b : Effect) (log : list Effect) : Prop :=
  exists pre mid post, log = (pre ++ a :: mid ++ b :: post)%list.

(** ** The conflict resolver *)

Section ConflictResolver.

Variable RowImage : Type.

Record OriginInfo := mkOrigin {
  origin_id : Z;
  source_xid : Z;
  commit_ts : Z
}.

Inductive ResolveError := ConflictError.

(** Does the remote side come out ahead of the local one? [last] chooses
    between last-update-wins and first-update-wins. A side without origin
    is the earliest possible; on equal timestamps the smaller origin
    identifier wins; where the spec names no winner the local row is
    kept. *)
Definition remote_wins (last : bool) (local_origin remote_origin : option OriginInfo)
  : bool :=
  match local_origin, remote_origin with
  | Some l, Some r =>
      if commit_ts r =? commit_ts l then origin_id r <? origin_id l
      else if last then commit_ts l <? commit_ts r
           else commit_ts r <? commit_ts l
  | None, Some _ => last
  | Some _, None => negb last
  | None, None => false
  end.

Definition by_timestamp (last : bool) (local_row remote_row : option RowImage)
           (local_origin remote_origin : option OriginInfo)
  : SpockConflictResolution * option RowImage :=
  if remote_wins last local_origin remote_origin
  then (SpockResolution_ApplyRemote, remote_row)
  else (SpockResolution_KeepLocal, local_row).

(** Modelled from the spec: the resolver [try_resolve_conflict] is declared
    in spock_conflict.h, but spock_conflict.c and the apply code that call
    and define it are not among the sources. This is the decision table of
    the spec, row by row: the resolution and the row image to apply, or a
    conflict error. *)
Definition resolve (conflict_type : SpockConflictType)
           (local_row : option RowImage) (local_origin : option OriginInfo)
           (remote_row : option RowImage) (remote_origin : option OriginInfo)
           (policy : SpockResolveOption)
  : ResolveError + SpockConflictResolution * option RowImage :=
  match policy with
  | SPOCK_RESOLVE_ERROR =>
      match conflict_type with
      | CONFLICT_DELETE_DELETE => inr (SpockResolution_Skip, None)
      | _ => inl ConflictError
      end
  | SPOCK_RESOLVE_APPLY_REMOTE =>
      match conflict_type with
      | CONFLICT_DELETE_DELETE => inr (SpockResolution_Skip, None)
      | _ => inr (SpockResolution_ApplyRemote, remote_row)
      end
  | SPOCK_RESOLVE_KEEP_LOCAL =>
      match conflict_type with
      | CONFLICT_DELETE_DELETE => inr (SpockResolution_Skip, None)
      | _ => inr (SpockResolution_KeepLocal, local_row)
      end
  | SPOCK_RESOLVE_LAST_UPDATE_WINS =>
      match conflict_type with
      | CONFLICT_DELETE_DELETE => inr (SpockResolution_Skip, None)
      | _ => inr (by_timestamp true local_row remote_row
                               local_origin remote_origin)
      end
  | SPOCK_RESOLVE_FIRST_UPDATE_WINS =>
      match conflict_type with
      | CONFLICT_DELETE_DELETE => inr (SpockResolution_Skip, None)
      | _ => inr (by_timestamp false local_row remote_row
                               local_origin remote_origin)
      end
  end.

End ConflictResolver.

Arguments resolve {RowImage}.
Arguments by_timestamp {RowImage}.

(** ** The per-table sync state machine *)













(** ** A subscriber database to run the functions on

    The node [subscriber] subscribes to [provider] with subscription [sub1]
    on the replication set [default]. The subscription is [Ready]; of its
    tables [public.t1] is [Ready] and [public.t2] is in the data phase. The
    provider now publishes [public.t1] and [public.t3]. *)

Module Sample.

Definition provider : SpockNode := mkNode 2 "provider".
Definition provider_if : SpockInterface :=
  mkInterface 20 "provider" 2 "host=provider".
Definition subscriber : SpockLocalNode :=
  mkLocalNode (mkNode 1 "subscriber")
              (mkInterface 10 "subscriber" 1 "host=subscriber").

Definition sub1 : SpockSubscription :=
  mkSubscription 30 "sub1" provider_if
                 (mkInterface 10 EmptyString 1 EmptyString)
                 ["default"] [] true "spk_app_provider_sub1" 0 false.

Definition sub1_sync : SpockSyncStatus :=
  mkSync SYNC_KIND_FULL 30 EmptyString EmptyString SYNC_STATUS_READY 0.
Definition t1_sync : SpockSyncStatus :=
  mkSync SYNC_KIND_DATA 30 "public" "t1" SYNC_STATUS_READY 5.
Definition t2_sync : SpockSyncStatus :=
  mkSync SYNC_KIND_DATA 30 "public" "t2" SYNC_STATUS_DATA 0.
Definition t3_sync : SpockSyncStatus :=
  mkSync SYNC_KIND_DATA 30 "public" "t3" SYNC_STATUS_INIT 0.

Definition t1 : RelationData := mkRelation 100 "public" "t1".
Definition t2 : RelationData := mkRelation 101 "public" "t2".
Definition t3 : RelationData := mkRelation 102 "public" "t3".

Definition db : Database :=
  mkDatabase "app" (Some subscriber)
             [node subscriber; provider]
             [node_if subscriber; provider_if]
             [sub1]
             [sub1_sync; t1_sync; t2_sync]
             [t1; t2; t3]
             [].

(** The same database once [public.t2] is [Ready] too. *)
Definition db_synced : Database :=
  set_local_sync_status
    [sub1_sync; t1_sync; with_status SYNC_STATUS_READY 7 t2_sync] db.

Definition remote_t1 : SpockRemoteRel :=
  mkRemoteRel 500 "public" "t1" ["id"] false "public" "t1".
Definition remote_t3 : SpockRemoteRel :=
  mkRemoteRel 502 "public" "t3" ["id"] false "public" "t3".

Definition net : Network :=
  mkNetwork (fun _ => true) (fun _ => true) (fun _ => provider)
            (fun _ _ => [remote_t1; remote_t3]).

Definition gen_node_id (name : string) : Oid := 3.
Definition gen_interface_id (nodeid : Oid) (name : string) : Oid := 21.
Definition gen_subscription_id (name : string) : Oid := 31.
Definition gen_slot_name (dbname provider_name sub_name : string) : string :=
  "spk_slot".

Definition create (sub_name : string) (rep_set_names : list string)
           (sync_structure : string) (sync_data : bool) : result Oid :=
  spock_create_subscription gen_node_id gen_interface_id gen_subscription_id
    gen_slot_name net sub_name "host=provider" rep_set_names sync_structure
    sync_data [] 0 false db.

(** Two turns of the wait loop: [public.t2] still in its data phase, then
    [Ready]. *)
Definition world : list Tick :=
  [mkTick db false false; mkTick db_synced false false].

(** A tuple is a list of integer columns; a filter tests one column for
    being positive, is null on a missing column and raises on a negative
    column number. *)
Definition eval_column (col : Z) (htup : list Z) : option (Datum * bool) :=
  if col <? 0 then None
  else match nth_error htup (Z.to_nat col) with
       | Some v => Some (if 0 <? v then 1 else 0, false)
       | None => Some (0, true)
       end.

End Sample.

(** * Further functions of spock_functions.c *)

(** ** Slot names *)

(** What [snprintf(buf, size, ...)] leaves in the buffer: the first
    [size - 1] characters of the formatted text. *)
Fixpoint snprintf (room : nat) (text : string) : string :=
  match room, text with
  | S room', String c rest => String c (snprintf room' rest)
  | _, _ => EmptyString
  end.

(** The test of the loop of [gen_slot_name]: a lower case letter, a digit
    or an underscore. *)
Definition valid_slot_char (c : ascii) : bool :=
  (("a" <=? c)%char && (c <=? "z")%char)
  || (("0" <=? c)%char && (c <=? "9")%char)
  || Ascii.eqb c "_".

Fixpoint replace_invalid_chars (s : string) : string :=
  match s with
  | EmptyString => EmptyString
  | String c rest =>
      String (if valid_slot_char c then c else "_"%char)
             (replace_invalid_chars rest)
  end.

Fixpoint string_forallb (p : ascii -> bool) (s : string) : bool :=
  match s with
  | EmptyString => true
  | String c rest => p c && string_forallb p rest
  end.

Section SlotName.

(** [shorten_hash(str, maxlen)] of spock.c, which is not among the
    sources. *)
Variable shorten_hash : string -> nat -> string.

(** Generate slot name (used also for origin identifier). *)
Definition gen_slot_name (dbname provider_node subscription_name : string)
  : NameData :=
  replace_invalid_chars
    (snprintf (NAMEDATALEN - 1)
       ("spk_" ++ shorten_hash dbname 16
        ++ "_" ++ shorten_hash provider_node 16
        ++ "_" ++ shorten_hash subscription_name 16)).

Definition spock_gen_slot_name (dbname provider_node_name subscription_name
                                : string) : NameData :=
  gen_slot_name dbname provider_node_name subscription_name.

End SlotName.

(** ** Showing the sync status of a table *)

Definition sync_status_to_string (status : ascii) : string :=
  if Ascii.eqb status SYNC_STATUS_INIT then "sync_init"
  else if Ascii.eqb status SYNC_STATUS_STRUCTURE then "sync_structure"
  else if Ascii.eqb status SYNC_STATUS_DATA then "sync_data"
  else if Ascii.eqb status SYNC_STATUS_CONSTAINTS then "sync_constraints"
  else if Ascii.eqb status SYNC_STATUS_SYNCWAIT then "sync_waiting"
  else if Ascii.eqb status SYNC_STATUS_CATCHUP then "catchup"
  else if Ascii.eqb status SYNC_STATUS_SYNCDONE then "synchronized"
  else if Ascii.eqb status SYNC_STATUS_READY then "replicating"
  else "unknown".

(** ** Replication sets and interface of a subscription *)

Definition with_replication_sets (sets : list string) (s : SpockSubscription)
  : SpockSubscription :=
  mkSubscription (sub_id s) (sub_name s) (origin_if s) (target_if s)
                 sets (forward_origins s) (enabled s)
                 (slot_name s) (apply_delay s) (force_text_transfer s).

Definition with_origin_if (i : SpockInterface) (s : SpockSubscription)
  : SpockSubscription :=
  mkSubscription (sub_id s) (sub_name s) i (target_if s)
                 (replication_sets s) (forward_origins s) (enabled s)
                 (slot_name s) (apply_delay s) (force_text_transfer s).

Definition with_enabled (b : bool) (s : SpockSubscription)
  : SpockSubscription :=
  mkSubscription (sub_id s) (sub_name s) (origin_if s) (target_if s)
                 (replication_sets s) (forward_origins s) b
                 (slot_name s) (apply_delay s) (force_text_transfer s).

Fixpoint replace_subscription (sub : SpockSubscription)
         (l : list SpockSubscription) : list SpockSubscription :=
  match l with
  | [] => []
  | s :: rest => if sub_id s =? sub_id sub then sub :: rest
                 else s :: replace_subscription sub rest
  end.

(** Modelled from the spec: [alter_subscription] (spock_node.c is not among
    the sources) rewrites the row of the subscription, found by its
    identifier. *)
Definition alter_subscription (sub : SpockSubscription) : M unit :=
  modify (fun db => set_subscriptions
                      (replace_subscription sub (subscriptions db)) db).

(** Add replication set to subscription. *)
Definition spock_alter_subscription_add_replication_set
           (sub_name repset_name : string) : M bool :=
  sub <- get_subscription_by_name sub_name ;;
  if existsb (fun rs => strcmp rs repset_name =? 0) (replication_sets sub)
  then ret false
  else
    alter_subscription
      (with_replication_sets (replication_sets sub ++ [repset_name]) sub) ;;;
    ret true.

(** The loop of [spock_alter_subscription_remove_replication_set]: the list
    without the first cell that holds the name, if there is one. *)
Fixpoint delete_first_cell (repset_name : string) (sets : list string)
  : option (list string) :=
  match sets with
  | [] => None
  | rs :: next =>
      if strcmp rs repset_name =? 0 then Some next
      else option_map (cons rs) (delete_first_cell repset_name next)
  end.

(** Remove replication set to subscription. *)
Definition spock_alter_subscription_remove_replication_set
           (sub_name repset_name : string) : M bool :=
  sub <- get_subscription_by_name sub_name ;;
  match delete_first_cell repset_name (replication_sets sub) with
  | Some sets => alter_subscription (with_replication_sets sets sub) ;;;
                 ret true
  | None => ret false
  end.

(** Switch interface the subscription is using. The origin node of a
    subscription is the node of its origin interface. *)
Definition spock_alter_subscription_interface (sub_name if_name : string)
  : M bool :=
  sub <- get_subscription_by_name sub_name ;;
  (* XXX: Only used for locking purposes. *)
  get_local_node ;;;
  new_if <- get_node_interface_by_name (if_nodeid (origin_if sub)) if_name ;;
  if if_id new_if =? if_id (origin_if sub) then ret false
  else alter_subscription (with_origin_if new_if sub) ;;; ret true.

(** ** The backend around the catalogs

    The functions below also reach replication sets, replication origins,
    the apply workers and the replication slots. Their errors and effects
    are kept apart from those above. *)

Record SpockRepSet := mkRepSet {
  rs_id : Oid;
  rs_nodeid : Oid;
  rs_name : string;
  replicate_insert : bool;
  replicate_update : bool;
  replicate_delete : bool;
  replicate_truncate : bool
}.

(** The kinds of message that the functions here put on the replication
    queue. *)
Inductive QueueCommandType :=
| QUEUE_COMMAND_TYPE_SQL
| QUEUE_COMMAND_TYPE_TRUNCATE
| QUEUE_COMMAND_TYPE_TABLESYNC
| QUEUE_COMMAND_TYPE_SEQUENCE.

(** PostgreSQL's [DropBehavior]. *)
Inductive DropBehavior :=
| DROP_RESTRICT
| DROP_CASCADE.

Inductive BackendEffect :=
| EffKillApply (sub : Oid)
    (* spock_worker_kill(spock_apply_find(MyDatabaseId, sub)) *)
| EffDropLocalSlots
    (* pg_drop_replication_slot on the spock slots of the database *)
| EffDropRemoteSlot (dsn slot : string)
| EffWarningSlotNotDropped (slot : string)
    (* could not drop slot on provider, you will probably have to drop it
       manually *)
| EffQueueMessage (sets : list string) (role : Oid)
                  (message_type : QueueCommandType) (message : string)
    (* queue_message(replication_sets, roleoid, message_type, message) *)
| EffCheckDependency (classId objectId : Oid) (subId : Z)
                     (behavior : DropBehavior).
    (* spock_checkDependency(&object, behavior) *)

(** The catalogs, the replication sets and origins, and the variables of
    spock_executor.c and spock_functions.c that outlive a call:
    [spock_truncated_tables], [spock_lastDropBehavior],
    [dropping_spock_obj] and [in_spock_replicate_ddl_command]; the
    [search_path] setting stands for the settings of the session. *)
Record Backend := mkBackend {
  catalog : Database;
  replication_set : list SpockRepSet;
  replication_origin : list string;
  backend_effects : list BackendEffect;
  spock_truncated_tables : list Oid;
  spock_lastDropBehavior : DropBehavior;
  dropping_spock_obj : bool;
  in_spock_replicate_ddl_command : bool;
  search_path : string
}.

Definition set_catalog (db : Database) (b : Backend) : Backend :=
  mkBackend db (replication_set b) (replication_origin b) (backend_effects b)
            (spock_truncated_tables b) (spock_lastDropBehavior b)
            (dropping_spock_obj b) (in_spock_replicate_ddl_command b)
            (search_path b).

Definition set_replication_set (l : list SpockRepSet) (b : Backend) : Backend :=
  mkBackend (catalog b) l (replication_origin b) (backend_effects b)
            (spock_truncated_tables b) (spock_lastDropBehavior b)
            (dropping_spock_obj b) (in_spock_replicate_ddl_command b)
            (search_path b).

Definition set_replication_origin (l : list string) (b : Backend) : Backend :=
  mkBackend (catalog b) (replication_set b) l (backend_effects b)
            (spock_truncated_tables b) (spock_lastDropBehavior b)
            (dropping_spock_obj b) (in_spock_replicate_ddl_command b)
            (search_path b).

Definition note_effect (e : BackendEffect) (b : Backend) : Backend :=
  mkBackend (catalog b) (replication_set b) (replication_origin b)
            (backend_effects b ++ [e])
            (spock_truncated_tables b) (spock_lastDropBehavior b)
            (dropping_spock_obj b) (in_spock_replicate_ddl_command b)
            (search_path b).

Definition set_spock_truncated_tables (l : list Oid) (b : Backend) : Backend :=
  mkBackend (catalog b) (replication_set b) (replication_origin b)
            (backend_effects b) l (spock_lastDropBehavior b)
            (dropping_spock_obj b) (in_spock_replicate_ddl_command b)
            (search_path b).

Definition set_spock_lastDropBehavior (behavior : DropBehavior) (b : Backend)
  : Backend :=
  mkBackend (catalog b) (replication_set b) (replication_origin b)
            (backend_effects b) (spock_truncated_tables b) behavior
            (dropping_spock_obj b) (in_spock_replicate_ddl_command b)
            (search_path b).

Definition set_dropping_spock_obj (flag : bool) (b : Backend) : Backend :=
  mkBackend (catalog b) (replication_set b) (replication_origin b)
            (backend_effects b) (spock_truncated_tables b)
            (spock_lastDropBehavior b) flag
            (in_spock_replicate_ddl_command b) (search_path b).

Definition set_in_spock_replicate_ddl_command (flag : bool) (b : Backend)
  : Backend :=
  mkBackend (catalog b) (replication_set b) (replication_origin b)
            (backend_effects b) (spock_truncated_tables b)
            (spock_lastDropBehavior b) (dropping_spock_obj b) flag
            (search_path b).

Definition set_search_path (path : string) (b : Backend) : Backend :=
  mkBackend (catalog b) (replication_set b) (replication_origin b)
            (backend_effects b) (spock_truncated_tables b)
            (spock_lastDropBehavior b) (dropping_spock_obj b)
            (in_spock_replicate_ddl_command b) path.

Definition set_local_node (n : option SpockLocalNode) (db : Database)
  : Database :=
  mkDatabase (dbname db) n (nodes db) (node_interfaces db)
             (subscriptions db) (local_sync_status db) (pg_class db)
             (effects db).

Inductive BackendError :=
| ErrSpock (e : SpockError)
| ErrNodeNotFound (name : string)
    (* node not found *)
| ErrNodeHasSubscriptions (name : string)
    (* cannot drop node because it still has subscriptions associated
       with it *)
| ErrSlotsStillActive (name : string)
    (* cannot drop node because one or more replication slots for the node
       are still active *)
| ErrSPIQueryFailed (res : Z)
| ErrInterfaceExists (node_name if_name : string)
    (* node already has interface named so *)
| ErrInterfaceMissing (if_name node_name : string)
    (* interface for node not found *)
| ErrInterfaceInUse (if_name node_name sub_name : string)
    (* cannot drop interface because subscription is using it *)
| ErrInTransactionBlock (function : string)
    (* cannot be run inside a transaction block *)
| ErrNotConfiguredAsNode
    (* current database is not configured as spock node *)
| ErrSetValuedContext
    (* set-valued function called in context that cannot accept a set *)
| ErrMaterializeRequired
    (* materialize mode required, but it is not allowed in this context *)
| ErrReturnTypeNotRow
    (* return type must be a row type *)
| ErrTextFromNull
    (* no error of the code: CStringGetTextDatum is handed the NULL that
       get_rel_name returns for a relation that does not exist *)
| ErrRelationNull
    (* relation cannot be NULL *)
| ErrRepsetsNull
    (* repsets cannot be NULL *)
| ErrFirstArgNotRowType (function : string)
    (* first argument of the function must be a row type *)
| ErrRecordContext
    (* function returning record called in context that cannot accept type
       record *)
| ErrReturnTypeMismatch (function : string)
    (* return type of the function must be same as row type of the
       relation *)
| ErrCannotCastRowFilter
    (* cannot cast the row_filter to boolean *)
| ErrRowFilterRaised
    (* the error that the evaluation of a row filter raised *)
| ErrReplicationSetNotFound (name : string)
    (* replication set not found *)
| ErrSetNameNull
    (* set_name cannot be NULL *)
| ErrNotCalledByTrigger (function : string)
    (* function was not called by trigger manager *)
| ErrMustBeFiredAfterTruncate (function : string)
    (* function must be fired AFTER TRUNCATE *)
| ErrCommand (message : string).
    (* the error that the command raised *)

Inductive bresult (A : Type) :=
| Done (a : A) (b : Backend)
| Failed (e : BackendError) (b : Backend).

Arguments Done {A} a b.
Arguments Failed {A} e b.

Definition B (A : Type) := Backend -> bresult A.

Definition bret {A} (a : A) : B A := fun b => Done a b.

Definition bbind {A C} (c : B A) (k : A -> B C) : B C :=
  fun b => match c b with
           | Done a b' => k a b'
           | Failed e b' => Failed e b'
           end.

Definition bereport {A} (e : BackendError) : B A := fun b => Failed e b.

Definition bmodify (f : Backend -> Backend) : B unit :=
  fun b => Done tt (f b).

Definition bgets {A} (f : Backend -> A) : B A := fun b => Done (f b) b.

(** A computation on the catalogs, run in the backend. *)
Definition lift {A} (c : M A) : B A :=
  fun b => match c (catalog b) with
           | Ok a db => Done a (set_catalog db b)
           | Raise e db => Failed (ErrSpock e) (set_catalog db b)
           end.

Declare Scope backend_scope.
Delimit Scope backend_scope with backend.

Notation "x <- c1 ;; c2" := (bbind c1 (fun x => c2))
  (at level 61, c1 at next level, right associativity) : backend_scope.
Notation "c1 ;;; c2" := (bbind c1 (fun _ => c2))
  (at level 61, right associativity) : backend_scope.

Local Open Scope backend_scope.

Fixpoint bforeach {A} (l : list A) (body : A -> B unit) : B unit :=
  match l with
  | [] => bret tt
  | x :: rest => body x ;;; bforeach rest body
  end.

(** *** Catalog functions of spock_node.c used below *)

Definition find_node (name : string) (db : Database) : option SpockNode :=
  find (fun n => String.eqb (node_name n) name) (nodes db).

(** Modelled from the spec: [get_node_by_name] (spock_node.c) with its
    [missing_ok] argument: a key lookup by name; a missing node is an error
    unless [missing_ok]. *)
Definition get_node_by_name_or (name : string) (missing_ok : bool)
  : B (option SpockNode) :=
  fun b => match find_node name (catalog b) with
           | Some n => Done (Some n) b
           | None => if missing_ok then Done None b
                     else Failed (ErrNodeNotFound name) b
           end.

(** Modelled from the spec: [get_subscription_by_name] (spock_node.c) with
    its [missing_ok] argument. *)
Definition get_subscription_by_name_or (name : string) (missing_ok : bool)
  : B (option SpockSubscription) :=
  fun b => match find_subscription name (catalog b) with
           | Some s => Done (Some s) b
           | None => if missing_ok then Done None b
                     else Failed (ErrSpock (ErrSubscriptionNotFound name)) b
           end.

(** Modelled from the spec: [get_node_interface_by_name] (spock_node.c), as
    called with [missing_ok = true]. *)
Definition find_node_interface (nodeid : Oid) (name : string) (db : Database)
  : option SpockInterface :=
  find (interface_matches nodeid name) (node_interfaces db).

(** Modelled from the spec: [drop_node_interface], [drop_node_interfaces],
    [drop_node] and [drop_local_node] (spock_node.c) delete the interface
    with the identifier, the interfaces of the node, the node, and the
    record that makes the database a node. *)
Definition drop_node_interface (ifid : Oid) : B unit :=
  bmodify (fun b =>
    set_catalog (set_node_interfaces
                   (filter (fun i => negb (if_id i =? ifid))
                           (node_interfaces (catalog b))) (catalog b)) b).

Definition drop_node_interfaces (nodeid : Oid) : B unit :=
  bmodify (fun b =>
    set_catalog (set_node_interfaces
                   (filter (fun i => negb (if_nodeid i =? nodeid))
                           (node_interfaces (catalog b))) (catalog b)) b).

Definition drop_node (nodeid : Oid) : B unit :=
  bmodify (fun b =>
    set_catalog (set_nodes (filter (fun n => negb (node_id n =? nodeid))
                                   (nodes (catalog b))) (catalog b)) b).

Definition drop_local_node : B unit :=
  bmodify (fun b => set_catalog (set_local_node None (catalog b)) b).

(** Modelled from the spec: [drop_node_replication_sets] (spock_repset.c)
    deletes the replication sets of the node. *)
Definition drop_node_replication_sets (nodeid : Oid) : B unit :=
  bmodify (fun b =>
    set_replication_set (filter (fun r => negb (rs_nodeid r =? nodeid))
                                (replication_set b)) b).

(** Modelled from the spec: [drop_subscription] (spock_node.c) deletes the
    subscription; [drop_subscription_sync_status] (spock_sync.c) deletes
    every sync-status record of the subscription. *)
Definition drop_subscription (subid : Oid) : B unit :=
  bmodify (fun b =>
    set_catalog (set_subscriptions
                   (filter (fun s => negb (sub_id s =? subid))
                           (subscriptions (catalog b))) (catalog b)) b).

Definition drop_subscription_sync_status (sub : Oid) : B unit :=
  bmodify (fun b =>
    set_catalog (set_local_sync_status
                   (filter (fun r => negb (subid r =? sub))
                           (local_sync_status (catalog b))) (catalog b)) b).

(** [spock_apply_find] and [spock_worker_kill] under the lock of the
    shared worker state. *)
Definition kill_apply (sub : Oid) : B unit :=
  bmodify (note_effect (EffKillApply sub)).

(** ** spock_functions.c: enabling and disabling a subscription *)

Section Transaction.

(** [IsTransactionBlock() || IsSubTransaction()] at the time of the call. *)
Variable in_transaction_block : bool.

(** Disable subscription. *)
Definition spock_alter_subscription_disable (sub_name : string)
           (immediate : bool) : B bool :=
  sub <- lift (get_subscription_by_name sub_name) ;;
  (* XXX: Only used for locking purposes. *)
  lift get_local_node ;;;
  lift (alter_subscription (with_enabled false sub)) ;;;
  (if immediate
   then
     (if in_transaction_block
      then bereport (ErrInTransactionBlock "alter_subscription_disable")
      else bret tt) ;;;
     kill_apply (sub_id sub)
   else bret tt) ;;;
  bret true.

(** Enable subscription. *)
Definition spock_alter_subscription_enable (sub_name : string)
           (immediate : bool) : B bool :=
  sub <- lift (get_subscription_by_name sub_name) ;;
  (* XXX: Only used for locking purposes. *)
  lift get_local_node ;;;
  lift (alter_subscription (with_enabled true sub)) ;;;
  (if immediate && in_transaction_block
   then bereport (ErrInTransactionBlock "alter_subscription_enable")
   else bret tt) ;;;
  bret true.

End Transaction.

(** The backend once [alter_subscription] has written the row. *)
Definition after_alter (sub' : SpockSubscription) (b : Backend) : Backend :=
  set_catalog (set_subscriptions
                 (replace_subscription sub' (subscriptions (catalog b)))
                 (catalog b)) b.

(** Did the call fail? *)
Definition bfailed {A} (r : bresult A) : bool :=
  match r with Done _ _ => false | Failed _ _ => true end.

(** ** spock_functions.c: nodes and their interfaces *)

(** How the [SPI_execute] of [spock_drop_node] ends: it raises, or it
    returns a result code. *)
Inductive SpiOutcome :=
| SpiRaised
| SpiResult (res : Z).

(** PostgreSQL's [SPI_OK_SELECT]. *)
Definition SPI_OK_SELECT : Z := 5.

(** [local_node->node], [oldif->name] and [node->name], where a variable
    of the function has the name of the field. *)
Definition node_of (l : SpockLocalNode) : SpockNode := node l.
Definition name_of_interface (i : SpockInterface) : string := if_name i.
Definition name_of_node (n : SpockNode) : string := node_name n.

Section NodeManagement.

Variable gen_interface_id : Oid -> string -> Oid.
Variable drop_slots : SpiOutcome.

(** Drop the named node. *)
Definition spock_drop_node (node_name : string) (ifexists : bool) : B bool :=
  node <- get_node_by_name_or node_name ifexists ;;
  match node with
  | Some node =>
      osubs <- lift (get_node_subscriptions (node_id node) true) ;;
      tsubs <- lift (get_node_subscriptions (node_id node) false) ;;
      (if negb (Nat.eqb (List.length osubs) 0)
          || negb (Nat.eqb (List.length tsubs) 0)
       then bereport (ErrNodeHasSubscriptions node_name)
       else bret tt) ;;;
      (* If the node is local node, drop the record as well. *)
      (fun b =>
         match local_node (catalog b) with
         | Some local =>
             if node_id (node_of local) =? node_id node
             then
               (* Also drop all the slots associated with the node. *)
               ((match drop_slots with
                 | SpiRaised => bereport (ErrSlotsStillActive node_name)
                 | SpiResult res =>
                     if negb (res =? SPI_OK_SELECT)
                     then bereport (ErrSPIQueryFailed res)
                     else bmodify (note_effect EffDropLocalSlots)
                 end) ;;;
                (* And drop the local node association as well. *)
                drop_local_node) b
             else Done tt b
         | None => Done tt b
         end) ;;;
      (* Drop all the interfaces. *)
      drop_node_interfaces (node_id node) ;;;
      (* Drop replication sets associated with the node. *)
      drop_node_replication_sets (node_id node) ;;;
      (* Drop the node itself. *)
      drop_node (node_id node) ;;;
      bret true
  | None => bret false
  end.

(** Add interface to a node. *)
Definition spock_alter_node_add_interface (node_name if_name if_dsn : string)
  : B Oid :=
  node <- get_node_by_name_or node_name false ;;
  match node with
  | None => bereport (ErrNodeNotFound node_name)
  | Some node =>
      oldif <- bgets (fun b => find_node_interface (node_id node) if_name
                                                   (catalog b)) ;;
      match oldif with
      | Some _ => bereport (ErrInterfaceExists node_name if_name)
      | None =>
          newif <- lift (create_node_interface gen_interface_id
                           (mkInterface InvalidOid if_name (node_id node)
                                        if_dsn)) ;;
          bret (if_id newif)
      end
  end.

(** Drop interface from a node. *)
Definition spock_alter_node_drop_interface (node_name if_name : string)
  : B bool :=
  node <- get_node_by_name_or node_name false ;;
  match node with
  | None => bereport (ErrNodeNotFound node_name)
  | Some node =>
      oldif <- bgets (fun b => find_node_interface (node_id node) if_name
                                                   (catalog b)) ;;
      match oldif with
      | None => bereport (ErrInterfaceMissing if_name node_name)
      | Some oldif =>
          other_subs <- lift (get_node_subscriptions (node_id node) true) ;;
          bforeach other_subs (fun sub =>
            if if_id oldif =? if_id (origin_if sub)
            then bereport (ErrInterfaceInUse (name_of_interface oldif)
                                             (name_of_node node)
                                             (sub_name sub))
            else bret tt) ;;;
          drop_node_interface (if_id oldif) ;;;
          bret true
      end
  end.

End NodeManagement.

(** What names an interface in the catalog: its node and its name. *)
Definition interface_key (i : SpockInterface) : Oid * string :=
  (if_nodeid i, if_name i).

(** The guard of [spock_drop_node]: some subscription has the node as its
    origin or as its target. *)
Definition node_has_subscriptions (nodeid : Oid) (db : Database) : bool :=
  existsb (fun s => (if_nodeid (origin_if s) =? nodeid)
                    || (if_nodeid (target_if s) =? nodeid))
          (subscriptions db).

(** Is the node the local node of the database? *)
Definition is_local_node (nodeid : Oid) (db : Database) : bool :=
  match local_node db with
  | Some local => node_id (node_of local) =? nodeid
  | None => false
  end.

(** The backend once [spock_drop_node] has dropped the interfaces, the
    replication sets and the node. *)
Definition without_node (nodeid : Oid) (b : Backend) : Backend :=
  set_catalog
    (set_nodes (filter (fun n => negb (node_id n =? nodeid))
                       (nodes (catalog b)))
       (set_node_interfaces
          (filter (fun i => negb (if_nodeid i =? nodeid))
                  (node_interfaces (catalog b))) (catalog b)))
    (set_replication_set (filter (fun r => negb (rs_nodeid r =? nodeid))
                                 (replication_set b)) b).

(** ** spock_functions.c: dropping a subscription *)

(** What one turn of the loop that waits for the apply worker to die
    meets. *)
Record WorkerTick := mkWorkerTick {
  apply_running : bool;
  worker_interrupt_pending : bool;
  worker_postmaster_death : bool
}.

(** How a call that waits in a loop ends. *)
Inductive ended (A : Type) :=
| Returned (a : A)
| Raised (e : BackendError)
| ProcExit
    (* proc_exit(1) on postmaster death *)
| StillWaiting.
    (* the loop goes on beyond the ticks given *)

Arguments Returned {A} a.
Arguments Raised {A} e.
Arguments ProcExit {A}.
Arguments StillWaiting {A}.

(** Wait for the apply to die. *)
Fixpoint wait_for_apply_to_die (world : list WorkerTick) : ended unit :=
  match world with
  | [] => StillWaiting
  | t :: later =>
      if negb (apply_running t) then Returned tt
      else if worker_interrupt_pending t
           then Raised (ErrSpock ErrQueryCanceled)
      else if worker_postmaster_death t then ProcExit
      else wait_for_apply_to_die later
  end.

Section DropSubscription.

Variable net : Network.

(** Whether [spock_drop_remote_slot] gets the slot dropped on the provider
    with this connection string. *)
Variable remote_slot_dropped : string -> string -> bool.

(** The first part of [spock_drop_subscription], up to the loop: [true]
    when the function returns from there because the subscription is one of
    the local node as provider. *)
Definition drop_subscription_records (sub : SpockSubscription) : B bool :=
  node <- lift get_local_node ;;
  (* First drop the status. *)
  drop_subscription_sync_status (sub_id sub) ;;;
  (* Drop the actual subscription. *)
  drop_subscription (sub_id sub) ;;;
  if if_nodeid (origin_if sub) =? node_id (node_of node) then bret true
  else
    (* If the provider node record existed only for the dropped
       subscription, it should be dropped as well. *)
    other_subs <- lift (get_node_subscriptions (if_nodeid (origin_if sub))
                                               true) ;;
    (if Nat.eqb (List.length other_subs) 0
     then drop_node_interfaces (if_nodeid (origin_if sub)) ;;;
          drop_node (if_nodeid (origin_if sub))
     else bret tt) ;;;
    (* Kill the apply to unlock the resources. *)
    kill_apply (sub_id sub) ;;;
    bret false.

(** The last part, after the loop: the slot on the provider, dropped or
    warned about, and the replication origin of the subscription. *)
Definition drop_subscription_slot_and_origin (sub : SpockSubscription)
  : B unit :=
  (if connect_ok net (if_dsn (origin_if sub))
      && remote_slot_dropped (if_dsn (origin_if sub)) (slot_name sub)
   then bmodify (note_effect (EffDropRemoteSlot (if_dsn (origin_if sub))
                                                (slot_name sub)))
   else bmodify (note_effect (EffWarningSlotNotDropped (slot_name sub)))) ;;;
  (* Drop the origin tracking locally. *)
  bmodify (fun b =>
    set_replication_origin
      (filter (fun o => negb (String.eqb o (slot_name sub)))
              (replication_origin b)) b).

(** Remove subscription. When the call ends in an error or in the exit of
    the process, the backend given is the one of that moment: the abort of
    the transaction that follows, which undoes the changes to the catalogs,
    is PostgreSQL's and is not part of the function. *)
Definition spock_drop_subscription (world : list WorkerTick)
           (sub_name : string) (ifexists : bool) (b : Backend)
  : ended bool * Backend :=
  match get_subscription_by_name_or sub_name ifexists b with
  | Failed e b1 => (Raised e, b1)
  | Done None b1 => (Returned false, b1)
  | Done (Some sub) b1 =>
      match drop_subscription_records sub b1 with
      | Failed e b2 => (Raised e, b2)
      | Done true b2 => (Returned true, b2)
      | Done false b2 =>
          match wait_for_apply_to_die world with
          | Returned _ =>
              match drop_subscription_slot_and_origin sub b2 with
              | Done _ b3 => (Returned true, b3)
              | Failed e b3 => (Raised e, b3)
              end
          | Raised e => (Raised e, b2)
          | ProcExit => (ProcExit, b2)
          | StillWaiting => (StillWaiting, b2)
          end
      end
  end.

End DropSubscription.

(** The backend once the sync-status records and the row of the
    subscription are dropped. *)
Definition without_subscription (sub : Oid) (b : Backend) : Backend :=
  set_catalog
    (set_subscriptions
       (filter (fun s => negb (sub_id s =? sub)) (subscriptions (catalog b)))
       (set_local_sync_status
          (filter (fun r => negb (subid r =? sub))
                  (local_sync_status (catalog b))) (catalog b))) b.

(** Some other subscription has the node as its origin. *)
Definition origin_still_subscribed (origin sub : Oid) (db : Database) : bool :=
  existsb (fun s => negb (sub_id s =? sub)
                    && (if_nodeid (origin_if s) =? origin))
          (subscriptions db).

(** The backend once the node of the provider and its interfaces are
    dropped. *)
Definition without_origin_node (origin : Oid) (b : Backend) : Backend :=
  set_catalog
    (set_nodes (filter (fun n => negb (node_id n =? origin))
                       (nodes (catalog b)))
       (set_node_interfaces
          (filter (fun i => negb (if_nodeid i =? origin))
                  (node_interfaces (catalog b))) (catalog b))) b.

(** The backend when [spock_drop_subscription] reaches its loop. *)
Definition before_wait (sub : SpockSubscription) (b : Backend) : Backend :=
  note_effect (EffKillApply (sub_id sub))
    (if origin_still_subscribed (if_nodeid (origin_if sub)) (sub_id sub)
                                (catalog b)
     then without_subscription (sub_id sub) b
     else without_origin_node (if_nodeid (origin_if sub))
                              (without_subscription (sub_id sub) b)).

(** ** spock_functions.c: showing the sync status of a table *)

(** What the functions that return a set look at in [fcinfo]: whether
    [resultinfo] is a [ReturnSetInfo], whether [allowedModes] has
    [SFRM_Materialize], whether [expectedDesc] is set, and whether
    [get_call_result_type] finds a composite type. *)
Record ReturnSetInfo := mkReturnSetInfo {
  is_return_set_info : bool;
  allows_materialize : bool;
  has_expected_desc : bool;
  result_is_composite : bool
}.

(** The row that [spock_show_subscription_table] stores. *)
Record TableStatusRow := mkTableStatusRow {
  shown_nspname : string;
  shown_relname : string;
  shown_status : string
}.

(** Show info about one table. *)
Definition spock_show_subscription_table (rsinfo : ReturnSetInfo)
           (sub_name : string) (reloid : Oid) : B TableStatusRow :=
  sub <- lift (get_subscription_by_name sub_name) ;;
  (* check to see if caller supports us returning a tuplestore *)
  (if negb (is_return_set_info rsinfo) then bereport ErrSetValuedContext
   else bret tt) ;;;
  (if negb (allows_materialize rsinfo) then bereport ErrMaterializeRequired
   else bret tt) ;;;
  (* Build a tuple descriptor for our result type *)
  (if negb (result_is_composite rsinfo) then bereport ErrReturnTypeNotRow
   else bret tt) ;;;
  nspname <- bgets (fun b => get_rel_namespace_name reloid (catalog b)) ;;
  relname <- bgets (fun b => get_rel_name reloid (catalog b)) ;;
  match nspname, relname with
  | Some nspname, Some relname =>
      sync <- lift (get_table_sync_status (sub_id sub) nspname relname true) ;;
      bret (mkTableStatusRow nspname relname
              match sync with
              | Some sync => sync_status_to_string (status sync)
              | None => "unknown"
              end)
  | _, _ => bereport ErrTextFromNull
  end.

(** The statuses that [sync_status_to_string] has a name for. *)
Definition named_statuses : list ascii :=
  [SYNC_STATUS_INIT; SYNC_STATUS_STRUCTURE; SYNC_STATUS_DATA;
   SYNC_STATUS_CONSTAINTS; SYNC_STATUS_SYNCWAIT; SYNC_STATUS_CATCHUP;
   SYNC_STATUS_SYNCDONE; SYNC_STATUS_READY].

(** ** Replication sets *)

Definition check_local_node : B SpockLocalNode :=
  fun b => match local_node (catalog b) with
           | Some n => Done n b
           | None => Failed ErrNotConfiguredAsNode b
           end.

Definition find_replication_set (nodeid : Oid) (name : string) (b : Backend)
  : option SpockRepSet :=
  find (fun r => (rs_nodeid r =? nodeid) && String.eqb (rs_name r) name)
       (replication_set b).

(** Modelled from the spec: [get_replication_set_by_name] (spock_repset.c),
    a key lookup by node and name; a missing replication set is an error
    unless [missing_ok]. *)
Definition get_replication_set_by_name (nodeid : Oid) (name : string)
           (missing_ok : bool) : B (option SpockRepSet) :=
  fun b => match find_replication_set nodeid name b with
           | Some r => Done (Some r) b
           | None => if missing_ok then Done None b
                     else Failed (ErrReplicationSetNotFound name) b
           end.

(** Modelled from the spec: [get_replication_sets] (spock_repset.c), as
    called with [missing_ok = false]: the replication sets of the node
    with the names of the list. *)
Fixpoint get_replication_sets (nodeid : Oid) (names : list string)
  : B (list SpockRepSet) :=
  match names with
  | [] => bret []
  | name :: rest =>
      r <- get_replication_set_by_name nodeid name false ;;
      l <- get_replication_sets nodeid rest ;;
      bret (match r with Some r => r :: l | None => l end)
  end.

Definition with_rs_id (id : Oid) (r : SpockRepSet) : SpockRepSet :=
  mkRepSet id (rs_nodeid r) (rs_name r) (replicate_insert r)
           (replicate_update r) (replicate_delete r) (replicate_truncate r).

Fixpoint replace_replication_set (r : SpockRepSet) (l : list SpockRepSet)
  : list SpockRepSet :=
  match l with
  | [] => []
  | x :: rest => if rs_id x =? rs_id r then r :: rest
                 else x :: replace_replication_set r rest
  end.

(** Modelled from the spec: [alter_replication_set] (spock_repset.c)
    rewrites the row with the identifier of the replication set;
    [drop_replication_set] deletes it. *)
Definition alter_replication_set (r : SpockRepSet) : B unit :=
  bmodify (fun b =>
    set_replication_set (replace_replication_set r (replication_set b)) b).

Definition drop_replication_set (setid : Oid) : B unit :=
  bmodify (fun b =>
    set_replication_set (filter (fun r => negb (rs_id r =? setid))
                                (replication_set b)) b).

Section ReplicationSets.

(** The identifier that the catalog gives to a replication set handed over
    with [InvalidOid]. *)
Variable gen_repset_id : Oid -> string -> Oid.

(** Modelled from the spec: [create_replication_set] (spock_repset.c)
    stores the replication set, assigning its identifier when it comes
    with [InvalidOid]. *)
Definition create_replication_set (r : SpockRepSet) : B SpockRepSet :=
  let r' := if rs_id r =? InvalidOid
            then with_rs_id (gen_repset_id (rs_nodeid r) (rs_name r)) r
            else r in
  bmodify (fun b => set_replication_set (replication_set b ++ [r']) b) ;;;
  bret r'.

(** Create new replication set. *)
Definition spock_create_replication_set (set_name : string)
           (insert update delete truncate : bool) : B Oid :=
  node <- check_local_node ;;
  repset <- create_replication_set
              (mkRepSet InvalidOid (node_id (node_of node)) set_name
                        insert update delete truncate) ;;
  bret (rs_id repset).

End ReplicationSets.

(** Alter existing replication set; an argument that is NULL is [None]. *)
Definition spock_alter_replication_set (set_name : option string)
           (insert update delete truncate : option bool) : B Oid :=
  match set_name with
  | None => bereport ErrSetNameNull
  | Some set_name =>
      node <- check_local_node ;;
      found <- get_replication_set_by_name (node_id (node_of node)) set_name
                                           false ;;
      match found with
      | None => bereport (ErrReplicationSetNotFound set_name)
      | Some repset =>
          let repset' :=
            mkRepSet (rs_id repset) (rs_nodeid repset) (rs_name repset)
              (match insert with Some v => v
                               | None => replicate_insert repset end)
              (match update with Some v => v
                               | None => replicate_update repset end)
              (match delete with Some v => v
                               | None => replicate_delete repset end)
              (match truncate with Some v => v
                                 | None => replicate_truncate repset end) in
          alter_replication_set repset' ;;;
          bret (rs_id repset')
      end
  end.

(** Drop existing replication set. *)
Definition spock_drop_replication_set (set_name : string) (ifexists : bool)
  : B bool :=
  node <- check_local_node ;;
  repset <- get_replication_set_by_name (node_id (node_of node)) set_name
                                        ifexists ;;
  match repset with
  | Some repset => drop_replication_set (rs_id repset) ;;; bret true
  | None => bret false
  end.

(** ** spock_functions.c: creating a node *)

Section CreateNode.

Variable gen_node_id : string -> Oid.
Variable gen_interface_id : Oid -> string -> Oid.
Variable gen_repset_id : Oid -> string -> Oid.

(** The names of the predefined replication sets (spock_repset.h). *)
Variable DEFAULT_REPSET_NAME : string.
Variable DEFAULT_INSONLY_REPSET_NAME : string.
Variable DDL_SQL_REPSET_NAME : string.

(** Modelled from the spec: [create_local_node] (spock_node.c) records the
    node and the interface as those of the database. *)
Definition create_local_node (nodeid ifid : Oid) : B unit :=
  bmodify (fun b =>
    set_catalog
      (set_local_node
         (match find (fun n => node_id n =? nodeid) (nodes (catalog b)),
                find (fun i => if_id i =? ifid) (node_interfaces (catalog b))
          with
          | Some n, Some i => Some (mkLocalNode n i)
          | _, _ => local_node (catalog b)
          end) (catalog b)) b).

(** Create new node. *)
Definition spock_create_node (node_name node_dsn : string) : B Oid :=
  node <- lift (create_node gen_node_id (mkNode InvalidOid node_name)) ;;
  nodeif <- lift (create_node_interface gen_interface_id
                    (mkInterface InvalidOid (name_of_node node)
                                 (node_id node) node_dsn)) ;;
  (* Create predefined repsets. *)
  create_replication_set gen_repset_id
    (mkRepSet InvalidOid (node_id node) DEFAULT_REPSET_NAME
              true true true true) ;;;
  create_replication_set gen_repset_id
    (mkRepSet InvalidOid (node_id node) DEFAULT_INSONLY_REPSET_NAME
              true false false true) ;;;
  create_replication_set gen_repset_id
    (mkRepSet InvalidOid (node_id node) DDL_SQL_REPSET_NAME
              true false false false) ;;;
  create_local_node (node_id node) (if_id nodeif) ;;;
  bret (node_id node).

End CreateNode.

(** ** spock_executor.c and spock_functions.c: the filtered table scan *)

Section TableData.

Variable HeapTuple : Type.
Variable ExprState : Type.
Variable Node : Type.
Variable Expr : Type.

Variable ExecEvalExpr : ExprState -> HeapTuple -> option (Datum * bool).

(** [coerce_to_target_type] to [BOOLOID], [NULL] when there is no cast;
    [expression_planner] and [ExecInitExpr]. *)
Variable coerce_to_target_type : Node -> option Expr.
Variable expression_planner : Expr -> Expr.
Variable ExecInitExpr : Expr -> ExprState.

(** The rows that [heap_getnext] returns, in the order of the scan, under
    the active snapshot. *)
Variable heap_getnext : Oid -> list HeapTuple.

(** [get_table_replication_info(nodeid, rel, replication_sets)->row_filter]:
    the row filters of the table in the replication sets. *)
Variable row_filter : Oid -> RelationData -> list SpockRepSet -> list Node.

Definition spock_prepare_row_filter (filter_node : Node) : B ExprState :=
  match coerce_to_target_type filter_node with
  | None =>
      (* This should never happen but just to be sure. *)
      bereport ErrCannotCastRowFilter
  | Some expr => bret (ExecInitExpr (expression_planner expr))
  end.

(** The [foreach] that prepares the row filter expressions. *)
Fixpoint prepare_row_filters (filters : list Node)
         (row_filter_list : list ExprState) : B (list ExprState) :=
  match filters with
  | [] => bret row_filter_list
  | filter_node :: rest =>
      exprstate <- spock_prepare_row_filter filter_node ;;
      prepare_row_filters rest (row_filter_list ++ [exprstate])%list
  end.

(** The [while] loop that scans the table. *)
Fixpoint scan_table (tuples : list HeapTuple) (row_filter_list : list ExprState)
         (tupstore : list HeapTuple) : B (list HeapTuple) :=
  match tuples with
  | [] => bret tupstore
  | htup :: rest =>
      match filter_tuple ExecEvalExpr htup row_filter_list with
      | None => bereport ErrRowFilterRaised
      | Some false => scan_table rest row_filter_list tupstore
      | Some true =>
          scan_table rest row_filter_list (tupstore ++ [htup])%list
      end
  end.

(** Do sequential table scan and return all rows that pass the row
    filter(s) defined in specified replication set(s) for a table. The
    relation and the names of the replication sets are [None] when the
    argument is NULL. *)
Definition spock_table_data_filtered (argtype_is_rowtype : bool)
           (rsi : ReturnSetInfo) (equalTupleDescs : RelationData -> bool)
           (reloid : option Oid) (rep_set_names : option (list string))
  : B (list HeapTuple) :=
  node <- lift get_local_node ;;
  (* Validate parameter. *)
  match reloid, rep_set_names with
  | None, _ => bereport ErrRelationNull
  | Some _, None => bereport ErrRepsetsNull
  | Some reloid, Some rep_set_names =>
      (if negb argtype_is_rowtype
       then bereport (ErrFirstArgNotRowType "spock_table_data_filtered")
       else bret tt) ;;;
      (if negb (is_return_set_info rsi) || negb (allows_materialize rsi)
          || negb (has_expected_desc rsi)
       then bereport ErrSetValuedContext else bret tt) ;;;
      (if negb (result_is_composite rsi) then bereport ErrRecordContext
       else bret tt) ;;;
      (* Check output type and table row type are the same. *)
      rel <- lift (table_open reloid) ;;
      (if negb (equalTupleDescs rel)
       then bereport (ErrReturnTypeMismatch "spock_table_data_filtered")
       else bret tt) ;;;
      (* Build the replication info for the table. *)
      replication_sets <- get_replication_sets (node_id (node_of node))
                                               rep_set_names ;;
      let filters := row_filter (node_id (node_of node)) rel
                                replication_sets in
      (* Prepare the row filter expression. *)
      row_filter_list <- prepare_row_filters filters [] ;;
      (* Scan the table. *)
      scan_table (heap_getnext reloid) row_filter_list []
  end.

(** The row passes: every filter evaluates to true. *)
Definition passes (row_filter_list : list ExprState) (htup : HeapTuple)
  : bool :=
  match filter_tuple ExecEvalExpr htup row_filter_list with
  | Some true => true
  | _ => false
  end.

End TableData.

Arguments spock_prepare_row_filter {ExprState Node Expr}.
Arguments prepare_row_filters {ExprState Node Expr}.
Arguments scan_table {HeapTuple ExprState}.
Arguments spock_table_data_filtered {HeapTuple ExprState Node Expr}.
Arguments passes {HeapTuple ExprState}.

(** ** spock_executor.c: replicating TRUNCATE *)

(** PostgreSQL's trigger events (commands/trigger.h). *)
Definition TRIGGER_EVENT_TRUNCATE : Z := 3.
Definition TRIGGER_EVENT_OPMASK : Z := 3.
Definition TRIGGER_EVENT_ROW : Z := 4.
Definition TRIGGER_EVENT_BEFORE : Z := 8.
Definition TRIGGER_EVENT_AFTER : Z := 0.
Definition TRIGGER_EVENT_TIMINGMASK : Z := 24.

Definition TRIGGER_FIRED_BY_TRUNCATE (event : Z) : bool :=
  Z.land event TRIGGER_EVENT_OPMASK =? TRIGGER_EVENT_TRUNCATE.

Definition TRIGGER_FIRED_AFTER (event : Z) : bool :=
  Z.land event TRIGGER_EVENT_TIMINGMASK =? TRIGGER_EVENT_AFTER.

Record TriggerData := mkTriggerData {
  tg_event : Z;
  tg_relation : Oid
}.

(** A table in a replication set with the names it has on the
    subscribers. *)
Record SpockRepSetRel := mkRepSetRel {
  rsr_nsptarget : string;
  rsr_reltarget : string;
  rsr_repset_name : string
}.

(** The double quote. *)
Definition dquote : string := String (ascii_of_nat 34) EmptyString.

(** The statements that [spock_ProcessUtility] tells apart. *)
Inductive UtilityStmt :=
| T_TruncateStmt
| T_DropStmt (behavior : DropBehavior)
| T_OtherStmt.

Definition is_truncate (parsetree : UtilityStmt) : bool :=
  match parsetree with T_TruncateStmt => true | _ => false end.

Section Truncate.

Variable GetUserId : Oid.
Variable escape_json : string -> string.

(** Whether the backend is a spock worker. *)
Variable MySpockWorker : bool.

(** Modelled from the spec: [get_table_replication_sets_targets]
    (spock_repset.c), the replication sets of the node that hold the
    table, each with the target names of the table. *)
Variable get_table_replication_sets_targets : Oid -> Oid -> list SpockRepSetRel.

(** Modelled from the spec: [queue_message] (spock_queue.c) writes the
    message to the queue table. *)
Definition queue_message (sets : list string) (role : Oid)
           (message_type : QueueCommandType) (message : string) : B unit :=
  bmodify (note_effect (EffQueueMessage sets role message_type message)).

(** Trigger which queues the TRUNCATE command; [trigdata] is [None] when
    the function is not called as a trigger. *)
Definition spock_queue_truncate (trigdata : option TriggerData) : B unit :=
  (* Return if this function was called from apply process. *)
  if MySpockWorker then bret tt
  else
    match trigdata with
    | None => bereport (ErrNotCalledByTrigger "queue_truncate")
    | Some trigdata =>
        if negb (TRIGGER_FIRED_AFTER (tg_event trigdata))
           || negb (TRIGGER_FIRED_BY_TRUNCATE (tg_event trigdata))
        then bereport (ErrMustBeFiredAfterTruncate "queue_truncate")
        else
          (* If this is not spock node, don't do anything. *)
          fun b =>
            match local_node (catalog b) with
            | None => Done tt b
            | Some _ =>
                Done tt (set_spock_truncated_tables
                           (spock_truncated_tables b ++ [tg_relation trigdata])
                           b)
            end
    end.

Definition spock_start_truncate : B unit :=
  bmodify (set_spock_truncated_tables []).

Definition truncate_message (t : SpockRepSetRel) : string :=
  "{" ++ dquote ++ "schema_name" ++ dquote ++ ": "
      ++ escape_json (rsr_nsptarget t)
      ++ "," ++ dquote ++ "table_name" ++ dquote ++ ": "
      ++ escape_json (rsr_reltarget t) ++ "}".

Definition spock_finish_truncate : B unit :=
  fun b =>
    (* If this is not spock node, don't do anything. *)
    match local_node (catalog b) with
    | None => Done tt b
    | Some local =>
        if Nat.eqb (List.length (spock_truncated_tables b)) 0 then Done tt b
        else
          (bforeach (spock_truncated_tables b) (fun reloid =>
             (* And now prepare the messages for the queue *)
             bforeach (get_table_replication_sets_targets
                         (node_id (node_of local)) reloid)
               (fun t =>
                  (* Queue the truncate for replication. *)
                  queue_message [rsr_repset_name t] GetUserId
                                QUEUE_COMMAND_TYPE_TRUNCATE
                                (truncate_message t))) ;;;
           bmodify (set_spock_truncated_tables [])) b
    end.

(** [next] is the hook that was installed before, or the standard
    processing of the statement. *)
Definition spock_ProcessUtility (parsetree : UtilityStmt) (next : B unit)
  : B unit :=
  bmodify (set_dropping_spock_obj false) ;;;
  (if is_truncate parsetree then spock_start_truncate else bret tt) ;;;
  (match parsetree with
   | T_DropStmt behavior => bmodify (set_spock_lastDropBehavior behavior)
   | _ => bret tt
   end) ;;;
  next ;;;
  (if is_truncate parsetree then spock_finish_truncate else bret tt).

(** The AFTER TRUNCATE statement triggers of the tables of a TRUNCATE
    statement, fired one after the other. *)
Definition fire_truncate_triggers (tables : list Oid) : B unit :=
  bforeach tables (fun reloid =>
    spock_queue_truncate
      (Some (mkTriggerData (Z.lor TRIGGER_EVENT_TRUNCATE TRIGGER_EVENT_AFTER)
                           reloid))).

(** The messages that a TRUNCATE of the tables puts on the queue. *)
Definition truncate_messages (nodeid : Oid) (tables : list Oid)
  : list BackendEffect :=
  flat_map (fun reloid =>
              map (fun t => EffQueueMessage [rsr_repset_name t] GetUserId
                              QUEUE_COMMAND_TYPE_TRUNCATE (truncate_message t))
                  (get_table_replication_sets_targets nodeid reloid))
           tables.

End Truncate.

(** ** spock_executor.c: dropping objects *)

(** PostgreSQL's [ObjectAccessType]. *)
Inductive ObjectAccessType :=
| OAT_POST_CREATE
| OAT_DROP
| OAT_POST_ALTER
| OAT_NAMESPACE_SEARCH
| OAT_FUNCTION_EXECUTE
| OAT_TRUNCATE.

Definition is_drop (access : ObjectAccessType) : bool :=
  match access with OAT_DROP => true | _ => false end.

(** PostgreSQL's [SessionReplicationRole] setting. *)
Inductive ReplicationRole :=
| SESSION_REPLICATION_ROLE_ORIGIN
| SESSION_REPLICATION_ROLE_REPLICA
| SESSION_REPLICATION_ROLE_LOCAL.

Definition is_replica (role : ReplicationRole) : bool :=
  match role with SESSION_REPLICATION_ROLE_REPLICA => true | _ => false end.

(** Identifiers of the catalogs [pg_extension] and [pg_class], and the
    flag of internal deletions (catalog/dependency.h). *)
Definition ExtensionRelationId : Oid := 3079.
Definition RelationRelationId : Oid := 1259.
Definition PERFORM_DELETION_INTERNAL : Z := 1.

(** The arguments of the object access hook; [dropflags] is the field of
    the [ObjectAccessDrop] that comes with [OAT_DROP]. *)
Record ObjectAccess := mkObjectAccess {
  access : ObjectAccessType;
  classId : Oid;
  objectId : Oid;
  subId : Z;
  dropflags : Z
}.

Section ObjectAccessHook.

(** [get_extension_oid(EXTENSION_NAME, true)] and
    [get_namespace_oid(EXTENSION_NAME, true)]: [InvalidOid] when missing;
    [get_rel_namespace]. *)
Variable spock_extension_oid : Oid.
Variable spock_namespace_oid : Oid.
Variable get_rel_namespace : Oid -> Oid.

Variable SessionReplicationRole : ReplicationRole.

(** The hook that was installed before, if any. *)
Variable next_object_access_hook : option (ObjectAccess -> B unit).

(** Modelled from the spec: [spock_checkDependency] (spock_dependency.c)
    looks for the spock objects that depend on the object. *)
Definition spock_checkDependency (a : ObjectAccess) (behavior : DropBehavior)
  : B unit :=
  bmodify (note_effect (EffCheckDependency (classId a) (objectId a) (subId a)
                                           behavior)).

(** Handle object drop. *)
Definition spock_object_access (a : ObjectAccess) : B unit :=
  (match next_object_access_hook with
   | Some hook => hook a
   | None => bret tt
   end) ;;;
  if is_drop (access a)
  then
    (* No need to check for internal deletions. *)
    if negb (Z.land (dropflags a) PERFORM_DELETION_INTERNAL =? 0)
    then bret tt
    else
      (* Dropping spock itself? *)
      (if (classId a =? ExtensionRelationId)
          && (objectId a =? spock_extension_oid)
          && negb (objectId a =? InvalidOid)
       then bmodify (set_dropping_spock_obj true) else bret tt) ;;;
      (* Dropping relation within spock? *)
      (if (classId a =? RelationRelationId)
          && (spock_namespace_oid =? get_rel_namespace (objectId a))
       then bmodify (set_dropping_spock_obj true) else bret tt) ;;;
      (fun b =>
         (* Don't do extra dependency checks for internal objects. *)
         if dropping_spock_obj b then Done tt b
         else
           (* No local node? *)
           match local_node (catalog b) with
           | None => Done tt b
           | Some _ =>
               spock_checkDependency a
                 (if is_replica SessionReplicationRole then DROP_CASCADE
                  else spock_lastDropBehavior b) b
           end)
  else bret tt.

(** The object is one of spock's own: the extension, or a relation in its
    schema. *)
Definition is_spock_object (a : ObjectAccess) : bool :=
  ((classId a =? ExtensionRelationId)
   && (objectId a =? spock_extension_oid)
   && negb (objectId a =? InvalidOid))
  || ((classId a =? RelationRelationId)
      && (spock_namespace_oid =? get_rel_namespace (objectId a))).

Definition is_internal_deletion (a : ObjectAccess) : bool :=
  negb (Z.land (dropflags a) PERFORM_DELETION_INTERNAL =? 0).

End ObjectAccessHook.

(** The dependency checks among effects. *)
Definition is_dependency_check (e : BackendEffect) : bool :=
  match e with EffCheckDependency _ _ _ _ => true | _ => false end.

(** ** spock_functions.c: replicating a DDL command *)

Section ReplicateDDL.

Variable GetUserId : Oid.
Variable escape_json : string -> string.
Variable DDL_SQL_REPSET_NAME : string.

Variable GetUserNameFromId : Oid -> string.

(** [spock_execute_sql_command(query, role, false)], the local execution
    of the command. *)
Variable spock_execute_sql_command : string -> string -> B unit.

(** Queues the input SQL for replication. The names of the replication
    sets are [None] when the function is called with one argument. *)
Definition spock_replicate_ddl_command (query : string)
           (rep_set_names : option (list string)) : B bool :=
  node <- check_local_node ;;
  (* XXX: This is here for backwards compatibility with pre 1.1 extension. *)
  let replication_sets := match rep_set_names with
                          | None => [DDL_SQL_REPSET_NAME]
                          | Some names => names
                          end in
  (* Validate replication sets. *)
  bforeach replication_sets (fun setname =>
    get_replication_set_by_name (node_id (node_of node)) setname false ;;;
    bret tt) ;;;
  (* NewGUCNestLevel: what the settings are is kept for the restore. *)
  save_nestlevel <- bgets search_path ;;
  (* Force everything in the query to be fully qualified. *)
  bmodify (set_search_path EmptyString) ;;;
  (* Queue the query for replication. *)
  queue_message replication_sets GetUserId QUEUE_COMMAND_TYPE_SQL
                (escape_json query) ;;;
  (* Execute the query locally. *)
  bmodify (set_in_spock_replicate_ddl_command true) ;;;
  (fun b => match spock_execute_sql_command
                    query (GetUserNameFromId GetUserId) b with
            | Done _ b' => Done tt b'
            | Failed e b' =>
                Failed e (set_in_spock_replicate_ddl_command false b')
            end) ;;;
  bmodify (set_in_spock_replicate_ddl_command false) ;;;
  (* Restore the GUC variables we set above. *)
  bmodify (set_search_path save_nestlevel) ;;;
  bret true.

(** The backend in which the command is executed locally. *)
Definition when_executing (sets : list string) (query : string) (b : Backend)
  : Backend :=
  set_in_spock_replicate_ddl_command true
    (note_effect (EffQueueMessage sets GetUserId QUEUE_COMMAND_TYPE_SQL
                                  (escape_json query))
       (set_search_path EmptyString b)).

End ReplicateDDL.

(** The state of a call that failed or returned. *)
Definition final {A} (r : bresult A) : Backend :=
  match r with Done _ b => b | Failed _ b => b end.

(** The backend with further effects noted. *)
Definition note_effects (es : list BackendEffect) (b : Backend) : Backend :=
  mkBackend (catalog b) (replication_set b) (replication_origin b)
            (backend_effects b ++ es)
            (spock_truncated_tables b) (spock_lastDropBehavior b)
            (dropping_spock_obj b) (in_spock_replicate_ddl_command b)
            (search_path b).

(** The first of the names that is not a replication set of the node. *)
Definition missing_replication_set (nodeid : Oid) (b : Backend)
           (names : list string) : option string :=
  find (fun name => match find_replication_set nodeid name b with
                    | Some _ => false
                    | None => true
                    end) names.

(** ** A backend to run the functions on *)

Module BackendSample.

Definition default_set : SpockRepSet :=
  mkRepSet 40 1 "default" true true true true.
Definition ddl_set : SpockRepSet :=
  mkRepSet 41 1 "ddl_sql" true false false false.

(** The subscriber of [Sample.db], which knows a second interface of the
    provider and a node that nothing subscribes to. *)
Definition provider_alt : SpockInterface :=
  mkInterface 22 "provider_alt" 2 "host=provider2".
Definition spare : SpockNode := mkNode 4 "spare".

Definition db : Database :=
  set_nodes [node Sample.subscriber; Sample.provider; spare]
    (set_node_interfaces
       [node_if Sample.subscriber; Sample.provider_if; provider_alt]
       Sample.db).

Definition backend : Backend :=
  mkBackend db [default_set; ddl_set] ["spk_app_provider_sub1"] []
            [100] DROP_RESTRICT true false "public".

(** A node without subscriptions. *)
Definition lone : Backend :=
  mkBackend
    (mkDatabase "app" (Some Sample.subscriber) [node Sample.subscriber]
                [node_if Sample.subscriber] [] [] [Sample.t1] [])
    [default_set] [] [] [] DROP_RESTRICT false false "public".

(** A database that knows the provider and is not a node. *)
Definition plain : Backend :=
  mkBackend
    (mkDatabase "app" None [Sample.provider] [Sample.provider_if] [] []
                [Sample.t1] [])
    [] [] [] [] DROP_RESTRICT false false "public".

Definition shorten_hash (str : string) (maxlen : nat) : string :=
  snprintf maxlen str.

Definition gen_repset_id (nodeid : Oid) (name : string) : Oid := 42.

(** A provider that cannot be reached. *)
Definition unreachable : Network :=
  mkNetwork (fun _ => false) (fun _ => false) (fun _ => Sample.provider)
            (fun _ _ => []).

Definition slot_dropped (dsn slot : string) : bool := true.

(** The apply worker is still there at the first look and gone at the
    second. *)
Definition running : WorkerTick := mkWorkerTick true false false.
Definition gone : WorkerTick := mkWorkerTick false false false.

(** The database after [Sample.create]. *)
Definition created (sub_name : string) : Database :=
  match Sample.create sub_name ["other"] "relations_only" true with
  | Ok _ db' => db'
  | Raise _ db' => db'
  end.

(** The catalogs after the resynchronisation of [public.t1]. *)
Definition resynchronized : Database :=
  match spock_alter_subscription_resynchronize_table "sub1" 100 false db with
  | Ok _ db' => db'
  | Raise _ db' => db'
  end.

Definition accepting : ReturnSetInfo := mkReturnSetInfo true true true true.

(** The rows of a table of three integer columns. *)
Definition rows (reloid : Oid) : list (list Z) :=
  [[1; 0; 5]; [2; 3; 4]; [0; 1; 1]].

(** Two row filters on every table: the first and the second column are
    positive. *)
Definition filters (nodeid : Oid) (rel : RelationData)
           (sets : list SpockRepSet) : list Z := [0; 1].

Definition targets (nodeid reloid : Oid) : list SpockRepSetRel :=
  [mkRepSetRel "public" "t1" "default"].

Definition escape (s : string) : string := s.

(** The drop of a table of the application, the drop of the extension
    (whose identifier is 900), and the schema of each relation. *)
Definition drop_table : ObjectAccess :=
  mkObjectAccess OAT_DROP RelationRelationId 100 0 0.
Definition drop_extension : ObjectAccess :=
  mkObjectAccess OAT_DROP ExtensionRelationId 900 0 0.
Definition schema_of (reloid : Oid) : Oid := 2200.

(** A command that fails. *)
Definition failing (query role : string) : B unit :=
  fun b => Failed (ErrCommand query) b.

Definition role_name (role : Oid) : string := "app_owner".

End BackendSample.
(** * Properties *)

(** ** Strings, characters and list lookups *)

Lemma string_prefix_fits (n : nat) (s : string) :
  (String.length s <= n)%nat -> string_prefix n s = s.
Proof.
  revert n. induction s as [|c s IH]; intros n Hlen.
  - destruct n; reflexivity.
  - destruct n as [|n]; simpl in *; [lia|]. rewrite IH; [reflexivity | lia].
Qed.

Lemma namestrcpy_fits (s : string) :
  (String.length s <= NAMEDATALEN - 1)%nat -> namestrcpy s = s.
Proof. apply string_prefix_fits. Qed.

Lemma namestrcmp_zero (n s : string) : (namestrcmp n s =? 0) = String.eqb n s.
Proof. unfold namestrcmp. destruct (String.eqb n s); reflexivity. Qed.

Lemma strcmp_zero (a b : string) : (strcmp a b =? 0) = String.eqb a b.
Proof. unfold strcmp. destruct (String.eqb a b); reflexivity. Qed.

Lemma table_row_matches_with_status sub nsp rel st lsn r :
  table_row_matches sub nsp rel (with_status st lsn r)
  = table_row_matches sub nsp rel r.
Proof. reflexivity. Qed.

Lemma find_update_first p f (l : list SpockSyncStatus) r :
  (forall x, p (f x) = p x) ->
  find p l = Some r ->
  find p (update_first p f l) = Some (f r).
Proof.
  intros Hp. induction l as [|x l IH]; simpl; intros H; [discriminate|].
  destruct (p x) eqn:Hx.
  - inversion H; subst. simpl. rewrite Hp, Hx. reflexivity.
  - simpl. rewrite Hx. apply IH, H.
Qed.

(** ** Resynchronising one table *)

Lemma resync_existing_run db sub_name reloid truncate sub rel oldsync :
  find_subscription sub_name db = Some sub ->
  find_relation reloid db = Some rel ->
  find_table_sync_status (sub_id sub) (rd_nspname rel) (rd_relname rel) db
    = Some oldsync ->
  spock_alter_subscription_resynchronize_table sub_name reloid truncate db
  = if resync_blocked oldsync
    then Raise (ErrAlreadySynchronizing (rd_nspname rel) (rd_relname rel)) db
    else Ok true (after_resync truncate (sub_id sub) (rd_nspname rel)
                               (rd_relname rel) db).
Proof.
  intros Hsub Hrel Hold.
  unfold spock_alter_subscription_resynchronize_table, bind,
    get_subscription_by_name, table_open, get_table_sync_status.
  rewrite Hsub, Hrel, Hold. fold (resync_blocked oldsync).
  destruct (resync_blocked oldsync); [reflexivity|].
  unfold ret, set_table_sync_status. rewrite Hold.
  unfold after_resync.
  destruct truncate; reflexivity.
Qed.

Lemma after_resync_status truncate sub nsp rel db oldsync :
  find_table_sync_status sub nsp rel db = Some oldsync ->
  find_table_sync_status sub nsp rel (after_resync truncate sub nsp rel db)
  = Some (with_status SYNC_STATUS_INIT InvalidXLogRecPtr oldsync).
Proof.
  intros Hold. unfold find_table_sync_status, after_resync.
  destruct truncate; simpl;
    apply find_update_first; auto using table_row_matches_with_status.
Qed.

Lemma resync_blocked_iff oldsync :
  resync_blocked oldsync = true <->
  status oldsync <> SYNC_STATUS_READY
  /\ status oldsync <> SYNC_STATUS_SYNCDONE
  /\ status oldsync <> SYNC_STATUS_NONE.
Proof.
  unfold resync_blocked.
  rewrite !andb_true_iff, !negb_true_iff, !Ascii.eqb_neq. tauto.
Qed.

(** C1: when the table has a sync-status record, the call of
    [spock_alter_subscription_resynchronize_table] fails exactly when the
    status of the record is none of [Ready], [SyncDone] and the absent
    status [SYNC_STATUS_NONE]; when it goes through, the record of the
    table has status [Init] and the invalid log position. *)
Theorem resynchronize_existing_table_fails_iff_mid_sync
        db sub_name reloid truncate sub rel oldsync :
  find_subscription sub_name db = Some sub ->
  find_relation reloid db = Some rel ->
  find_table_sync_status (sub_id sub) (rd_nspname rel) (rd_relname rel) db
    = Some oldsync ->
  let call :=
    spock_alter_subscription_resynchronize_table sub_name reloid truncate db in
  (failed call = true <->
   status oldsync <> SYNC_STATUS_READY
   /\ status oldsync <> SYNC_STATUS_SYNCDONE
   /\ status oldsync <> SYNC_STATUS_NONE)
  /\ (forall v db', call = Ok v db' ->
      exists r,
        find_table_sync_status (sub_id sub) (rd_nspname rel) (rd_relname rel)
                               db' = Some r
        /\ status r = SYNC_STATUS_INIT
        /\ statuslsn r = InvalidXLogRecPtr
        /\ kind r = kind oldsync).
Proof.
  intros Hsub Hrel Hold call. subst call.
  rewrite (resync_existing_run db sub_name reloid truncate sub rel oldsync
             Hsub Hrel Hold).
  rewrite <- resync_blocked_iff.
  destruct (resync_blocked oldsync); simpl; split.
  - tauto.
  - intros v db' H; discriminate.
  - split; intros; discriminate.
  - intros v db' H. inversion H; subst.
    eexists. split; [apply after_resync_status, Hold|]. auto.
Qed.

Lemma resync_new_run db sub_name reloid truncate sub rel :
  find_subscription sub_name db = Some sub ->
  find_relation reloid db = Some rel ->
  find_table_sync_status (sub_id sub) (rd_nspname rel) (rd_relname rel) db
    = None ->
  exists db',
    spock_alter_subscription_resynchronize_table sub_name reloid truncate db
    = Ok true db'
    /\ local_sync_status db'
       = (local_sync_status db
          ++ [new_table_sync (sub_id sub) (rd_nspname rel) (rd_relname rel)])%list
    /\ effects db'
       = (effects db
          ++ EffCreateLocalSyncStatus
               (new_table_sync (sub_id sub) (rd_nspname rel) (rd_relname rel))
          :: (if truncate
              then [EffTruncateTable (rd_nspname rel) (rd_relname rel)]
              else [])
          ++ [EffSubscriptionChanged (sub_id sub) false])%list.
Proof.
  intros Hsub Hrel Hnone.
  unfold spock_alter_subscription_resynchronize_table, bind,
    get_subscription_by_name, table_open, get_table_sync_status.
  rewrite Hsub, Hrel, Hnone.
  destruct truncate; simpl; eexists; (split; [reflexivity|]); simpl;
    rewrite <- ?app_assoc; split; reflexivity.
Qed.

(** C9: when the table has no sync-status record, the call of
    [spock_alter_subscription_resynchronize_table] succeeds and adds one
    record, of kind [Data] and status [Init], with the identifier of the
    subscription and the schema and table name of the request. The names
    are stored as [namestrcpy] leaves them, which for names that fit a
    [NameData], as the names of relations do, are the names themselves. *)
Theorem resynchronize_table_without_record_creates_data_record
        db sub_name reloid truncate sub rel :
  find_subscription sub_name db = Some sub ->
  find_relation reloid db = Some rel ->
  find_table_sync_status (sub_id sub) (rd_nspname rel) (rd_relname rel) db
    = None ->
  exists db',
    spock_alter_subscription_resynchronize_table sub_name reloid truncate db
    = Ok true db'
    /\ local_sync_status db'
       = (local_sync_status db
          ++ [mkSync SYNC_KIND_DATA (sub_id sub)
                     (namestrcpy (rd_nspname rel))
                     (namestrcpy (rd_relname rel))
                     SYNC_STATUS_INIT InvalidXLogRecPtr])%list
    /\ ((String.length (rd_nspname rel) <= NAMEDATALEN - 1)%nat ->
        (String.length (rd_relname rel) <= NAMEDATALEN - 1)%nat ->
        local_sync_status db'
        = (local_sync_status db
           ++ [mkSync SYNC_KIND_DATA (sub_id sub) (rd_nspname rel)
                      (rd_relname rel) SYNC_STATUS_INIT
                      InvalidXLogRecPtr])%list).
Proof.
  intros Hsub Hrel Hnone.
  destruct (resync_new_run db sub_name reloid truncate sub rel Hsub Hrel Hnone)
    as (db' & Hcall & Hsync & _).
  exists db'. split; [exact Hcall|]. split; [exact Hsync|].
  intros Hnsp Hname. rewrite Hsync. unfold new_table_sync.
  rewrite (namestrcpy_fits _ Hnsp), (namestrcpy_fits _ Hname). reflexivity.
Qed.





(** ** Creating a subscription *)

Lemma foreach_reads {A} (body : A -> M unit) (l : list A) db :
  (forall x, In x l -> body x db = Ok tt db \/ exists e, body x db = Raise e db) ->
  foreach l body db = Ok tt db \/ exists e, foreach l body db = Raise e db.
Proof.
  induction l as [|x l IH]; intros Hbody; simpl.
  - left. reflexivity.
  - unfold bind. destruct (Hbody x (or_introl eq_refl)) as [-> | [e ->]].
    + apply IH. intros y Hy. apply Hbody. right. exact Hy.
    + right. exists e. reflexivity.
Qed.

Lemma foreach_raises {A} (body : A -> M unit) (l : list A) db x :
  (forall y, In y l -> body y db = Ok tt db \/ exists e, body y db = Raise e db) ->
  In x l ->
  (exists e, body x db = Raise e db) ->
  exists e, foreach l body db = Raise e db.
Proof.
  induction l as [|y l IH]; intros Hbody Hin Hx; [contradiction|].
  simpl. unfold bind.
  destruct (Hbody y (or_introl eq_refl)) as [Hy | [e Hy]]; rewrite Hy.
  - destruct Hin as [-> | Hin].
    + destruct Hx as [e Hx]. rewrite Hx in Hy. discriminate.
    + apply IH; auto. intros z Hz. apply Hbody. right. exact Hz.
  - exists e. reflexivity.
Qed.

Lemma overlap_test_reads esub_name origin_name existingset newset db :
  let test : M unit :=
    if strcmp newset existingset =? 0
    then ereport (ErrOverlappingRepset esub_name origin_name newset)
    else ret tt in
  test db = Ok tt db \/ exists e, test db = Raise e db.
Proof.
  simpl. destruct (strcmp newset existingset =? 0).
  - right. eexists. reflexivity.
  - left. reflexivity.
Qed.

Lemma check_overlapping_repsets_reads origin_name new_sets other_subs db :
  check_overlapping_repsets origin_name new_sets other_subs db = Ok tt db
  \/ exists e,
       check_overlapping_repsets origin_name new_sets other_subs db
       = Raise e db.
Proof.
  unfold check_overlapping_repsets.
  apply foreach_reads. intros esub _.
  apply foreach_reads. intros existingset _.
  apply foreach_reads. intros newset _.
  apply (overlap_test_reads (sub_name esub) origin_name existingset newset).
Qed.

Lemma check_overlapping_repsets_raises origin_name new_sets other_subs db
      esub s :
  In esub other_subs ->
  In s (replication_sets esub) ->
  In s new_sets ->
  exists e,
    check_overlapping_repsets origin_name new_sets other_subs db = Raise e db.
Proof.
  intros Hsub Hold Hnew. unfold check_overlapping_repsets.
  apply foreach_raises with (x := esub); auto.
  - intros y _. apply foreach_reads. intros existingset _.
    apply foreach_reads. intros newset _.
    apply (overlap_test_reads (sub_name y) origin_name existingset newset).
  - apply foreach_raises with (x := s); auto.
    + intros existingset _. apply foreach_reads. intros newset _.
      apply (overlap_test_reads (sub_name esub) origin_name existingset newset).
    + apply foreach_raises with (x := s); auto.
      * intros newset _.
        apply (overlap_test_reads (sub_name esub) origin_name s newset).
      * rewrite strcmp_zero, String.eqb_refl. eexists. reflexivity.
Qed.


Section CreateSubscriptionProperties.

Variable gen_node_id : string -> Oid.
Variable gen_interface_id : Oid -> string -> Oid.
Variable gen_subscription_id : string -> Oid.
Variable gen_slot_name : string -> string -> string -> string.
Variable net : Network.

Lemma local_origin_interface_outcome provider_dsn db :
  match local_origin_interface gen_node_id gen_interface_id provider_dsn
          (remote_node_info net provider_dsn) db with
  | Ok originif db' =>
      if_nodeid originif = origin_node_id gen_node_id net provider_dsn db
      /\ subscriptions db' = subscriptions db
      /\ local_sync_status db' = local_sync_status db
  | Raise _ db' => db' = db
  end.
Proof.
  unfold local_origin_interface, origin_node_id, bind, get_node_by_name, gets.
  destruct (find _ (nodes db)) as [existing|].
  - unfold get_node_interface_by_name.
    destruct (find _ (node_interfaces db)) as [existingif|] eqn:Hif;
      [|reflexivity].
    destruct (negb (strcmp (if_dsn existingif) provider_dsn =? 0));
      [reflexivity|].
    apply find_some in Hif. destruct Hif as [_ Hif].
    unfold interface_matches in Hif. apply andb_true_iff in Hif.
    destruct Hif as [Hid _]. apply Z.eqb_eq in Hid.
    simpl. auto.
  - unfold create_node, create_node_interface, bind, modify, ret. simpl.
    destruct (node_id (remote_node_info net provider_dsn) =? InvalidOid);
      simpl; auto.
Qed.

Lemma create_subscription_outcome
      db sub_name provider_dsn rep_set_names sync_structure sync_data
      forward_origin_names apply_delay force_text_transfer :
  match spock_create_subscription gen_node_id gen_interface_id
          gen_subscription_id gen_slot_name net
          sub_name provider_dsn rep_set_names sync_structure sync_data
          forward_origin_names apply_delay force_text_transfer db with
  | Raise _ db' =>
      subscriptions db' = subscriptions db
      /\ local_sync_status db' = local_sync_status db
  | Ok id db' =>
      (forall esub s,
          In esub (subscriptions db) ->
          if_nodeid (origin_if esub)
          = origin_node_id gen_node_id net provider_dsn db ->
          In s (replication_sets esub) -> ~ In s rep_set_names)
      /\ local_sync_status db'
         = (local_sync_status db
            ++ [mkSync (create_subscription_sync_kind sync_structure sync_data)
                       id EmptyString EmptyString SYNC_STATUS_INIT
                       InvalidXLogRecPtr])%list
      /\ exists sub, subscriptions db' = (subscriptions db ++ [sub])%list
                     /\ sub_id sub = id
  end.
Proof.
  unfold spock_create_subscription, bind at 1 2 3 4 5.
  unfold get_local_node, spock_connect, spock_connect_replica.
  destruct (local_node db) as [localnode|]; [|auto].
  destruct (connect_ok net provider_dsn);
    [|unfold ereport, ret; simpl; auto].
  destruct (connect_replica_ok net provider_dsn);
    [|unfold ereport, ret; simpl; auto].
  destruct (connect_ok net (if_dsn (node_if localnode)));
    [|unfold ereport, ret; simpl; auto].
  unfold ret at 1 2 3.
  pose proof (local_origin_interface_outcome provider_dsn db) as Horigin.
  destruct (local_origin_interface _ _ _ _ db) as [originif db1 | e db1];
    [|subst db1; auto].
  destruct Horigin as (Hnodeid & Hsubs & Hsync).
  unfold bind at 1. unfold get_node_subscriptions, gets. rewrite Hnodeid.
  unfold bind at 1.
  match goal with
  | |- context [check_overlapping_repsets ?a ?b ?c ?d] =>
      destruct (check_overlapping_repsets_reads a b c d) as [Hchk | [e Hchk]];
        rewrite Hchk
  end; [|auto].
  unfold create_subscription, create_local_sync_status, bind, modify, ret.
  simpl. rewrite Hsubs, Hsync. split; [|split; [reflexivity|eauto]].
  intros esub s Hin Hid Hold Hnew.
  destruct (check_overlapping_repsets_raises
              (node_name (remote_node_info net provider_dsn)) rep_set_names
              (filter (fun s0 => if_nodeid (origin_if s0)
                        =? origin_node_id gen_node_id net provider_dsn db)
                      (subscriptions db1)) db1 esub s) as [e He]; auto.
  - apply filter_In. rewrite Hsubs. split; [exact Hin|].
    apply Z.eqb_eq. exact Hid.
  - rewrite He in Hchk. discriminate.
Qed.


Lemma create_subscription_sync_kind_cases sync_structure sync_data :
  let k := create_subscription_sync_kind sync_structure sync_data in
  (sync_structure = "all" -> sync_data = true -> k = SYNC_KIND_FULL)
  /\ (sync_structure = "relations_only" -> sync_data = true ->
      k = SYNC_KIND_FULL_REL)
  /\ (sync_structure = "all" -> sync_data = false -> k = SYNC_KIND_STRUCTURE)
  /\ (sync_structure = "relations_only" -> sync_data = false ->
      k = SYNC_KIND_STRUCTURE_REL)
  /\ (sync_structure <> "all" -> sync_structure <> "relations_only" ->
      sync_data = true -> k = SYNC_KIND_DATA)
  /\ (sync_structure <> "all" -> sync_structure <> "relations_only" ->
      sync_data = false -> k = SYNC_KIND_INIT).
Proof.
  unfold create_subscription_sync_kind, SyncStructureAll, SyncStructureRelOnly.
  rewrite !strcmp_zero.
  repeat split; intros; subst; try reflexivity;
    repeat match goal with
           | H : _ <> _ |- _ => apply String.eqb_neq in H; rewrite H
           end; reflexivity.
Qed.

(** C7: a call of [spock_create_subscription] that succeeds adds exactly one
    sync-status record: the subscription-level record of the new
    subscription, with status [Init] and with the kind that the sync
    options choose. *)
Theorem create_subscription_creates_one_sync_record
        db db' id sub_name provider_dsn rep_set_names sync_structure sync_data
        forward_origin_names apply_delay force_text_transfer :
  spock_create_subscription gen_node_id gen_interface_id gen_subscription_id
    gen_slot_name net sub_name provider_dsn rep_set_names sync_structure
    sync_data forward_origin_names apply_delay force_text_transfer db
  = Ok id db' ->
  exists k,
    local_sync_status db'
    = (local_sync_status db
       ++ [mkSync k id EmptyString EmptyString SYNC_STATUS_INIT
                  InvalidXLogRecPtr])%list
    /\ (exists sub, subscriptions db' = (subscriptions db ++ [sub])%list
                    /\ sub_id sub = id)
    /\ (sync_structure = "all" -> sync_data = true -> k = SYNC_KIND_FULL)
    /\ (sync_structure = "relations_only" -> sync_data = true ->
        k = SYNC_KIND_FULL_REL)
    /\ (sync_structure = "all" -> sync_data = false ->
        k = SYNC_KIND_STRUCTURE)
    /\ (sync_structure = "relations_only" -> sync_data = false ->
        k = SYNC_KIND_STRUCTURE_REL)
    /\ (sync_structure <> "all" -> sync_structure <> "relations_only" ->
        sync_data = true -> k = SYNC_KIND_DATA)
    /\ (sync_structure <> "all" -> sync_structure <> "relations_only" ->
        sync_data = false -> k = SYNC_KIND_INIT).
Proof.
  intros Hcall.
  pose proof (create_subscription_outcome db sub_name provider_dsn
                rep_set_names sync_structure sync_data forward_origin_names
                apply_delay force_text_transfer) as Hout.
  rewrite Hcall in Hout. destruct Hout as (_ & Hsync & Hsub).
  exists (create_subscription_sync_kind sync_structure sync_data).
  split; [exact Hsync|]. split; [exact Hsub|].
  apply create_subscription_sync_kind_cases.
Qed.

(** C10: when a subscription to the same origin node already has one of
    the requested replication sets, [spock_create_subscription] fails with
    an error, and at the error no subscription and no sync-status record
    has been added. *)
Theorem create_subscription_rejects_overlapping_replication_set
        db esub s sub_name provider_dsn rep_set_names sync_structure sync_data
        forward_origin_names apply_delay force_text_transfer :
  In esub (subscriptions db) ->
  if_nodeid (origin_if esub) = origin_node_id gen_node_id net provider_dsn db ->
  In s (replication_sets esub) ->
  In s rep_set_names ->
  exists e db',
    spock_create_subscription gen_node_id gen_interface_id gen_subscription_id
      gen_slot_name net sub_name provider_dsn rep_set_names sync_structure
      sync_data forward_origin_names apply_delay force_text_transfer db
    = Raise e db'
    /\ subscriptions db' = subscriptions db
    /\ local_sync_status db' = local_sync_status db.
Proof.
  intros Hin Hid Hold Hnew.
  pose proof (create_subscription_outcome db sub_name provider_dsn
                rep_set_names sync_structure sync_data forward_origin_names
                apply_delay force_text_transfer) as Hout.
  destruct (spock_create_subscription _ _ _ _ _ _ _ _ _ _ _ _ _ db)
    as [id db' | e db'].
  - destruct Hout as (Hfree & _). exfalso.
    exact (Hfree esub s Hin Hid Hold Hnew).
  - exists e, db'. split; [reflexivity|exact Hout].
Qed.

End CreateSubscriptionProperties.

(** ** Synchronising the missing tables *)

Lemma take_local_table_found nsp rel l :
  fst (take_local_table nsp rel l) = find (same_target nsp rel) l.
Proof.
  induction l as [|t l IH]; simpl; [reflexivity|].
  destruct (same_target nsp rel t); [reflexivity|].
  destruct (take_local_table nsp rel l). exact IH.
Qed.

Lemma take_local_table_rest_incl nsp rel l x :
  In x (snd (take_local_table nsp rel l)) -> In x l.
Proof.
  induction l as [|t l IH]; simpl; [tauto|].
  destruct (same_target nsp rel t); simpl; [tauto|].
  destruct (take_local_table nsp rel l) as [o rest]. simpl in *.
  intros [H|H]; auto.
Qed.

Lemma take_local_table_rest_keeps nsp rel l x :
  In x l -> same_target nsp rel x = false ->
  In x (snd (take_local_table nsp rel l)).
Proof.
  induction l as [|t l IH]; simpl; [tauto|].
  intros Hin Hx. destruct (same_target nsp rel t) eqn:Ht; simpl.
  - destruct Hin as [-> | Hin]; [congruence | exact Hin].
  - destruct (take_local_table nsp rel l) as [o rest]. simpl in *.
    destruct Hin as [-> | Hin]; auto.
Qed.

Lemma find_none_incl {A} (p : A -> bool) (l l' : list A) :
  (forall x, In x l' -> In x l) -> find p l = None -> find p l' = None.
Proof.
  intros Hincl Hnone.
  destruct (find p l') as [x|] eqn:Hx; [|reflexivity].
  apply find_some in Hx. destruct Hx as [Hin Hp].
  pose proof (find_none _ _ Hnone x (Hincl x Hin)). congruence.
Qed.

Lemma add_missing_tables_run sub truncate remote :
  forall local db,
  exists leftover db' created log,
    add_missing_tables sub truncate remote local db = Ok leftover db'
    /\ local_sync_status db' = (local_sync_status db ++ created)%list
    /\ effects db' = (effects db ++ log)%list
    /\ (forall x, In x leftover -> In x local)
    /\ (forall x, In x local ->
          (forall rr, In rr remote ->
             same_target (rr_nsptarget rr) (rr_reltarget rr) x = false) ->
          In x leftover)
    /\ (forall rr, In rr remote ->
          find (same_target (rr_nsptarget rr) (rr_reltarget rr)) local = None ->
          In (new_remote_sync sub rr) created
          /\ (truncate = true ->
              exists pre post,
                log = (pre ++ EffCreateLocalSyncStatus (new_remote_sync sub rr)
                           :: EffTruncateTable (rr_nsptarget rr)
                                               (rr_reltarget rr)
                           :: post)%list))
    /\ (forall c, In c created ->
          exists rr, In rr remote /\ c = new_remote_sync sub rr)
    /\ (truncate = false -> forall nsp rel, ~ In (EffTruncateTable nsp rel) log)
    /\ (forall s k, ~ In (EffSubscriptionChanged s k) log)
    /\ (forall c, In c created -> In (EffCreateLocalSyncStatus c) log).
Proof.
  induction remote as [|rr remote IH]; intros local db.
  - exists local, db, [], []. simpl. rewrite !app_nil_r.
    repeat split; auto; try tauto.
  - simpl.
    pose proof (take_local_table_found (rr_nsptarget rr) (rr_reltarget rr)
                  local) as Hfound.
    pose proof (take_local_table_rest_incl (rr_nsptarget rr) (rr_reltarget rr)
                  local) as Hincl.
    pose proof (take_local_table_rest_keeps (rr_nsptarget rr) (rr_reltarget rr)
                  local) as Hkeeps.
    destruct (take_local_table (rr_nsptarget rr) (rr_reltarget rr) local)
      as [oldsync local']. simpl in Hfound, Hincl, Hkeeps.
    destruct oldsync as [oldsync|].
    + unfold bind at 1. unfold ret at 1.
      destruct (IH local' db)
        as (leftover & db' & created & log & Hrun & Hsync & Heff & Hsub
            & Hleft & Hnew & Hcreated & Hnotrunc & Hnosig & Hlogged).
      exists leftover, db', created, log. rewrite Hrun.
      split; [reflexivity|]. split; [exact Hsync|]. split; [exact Heff|].
      split; [intros x Hx; apply Hincl, Hsub, Hx|].
      split.
      { intros x Hx Hall. apply Hleft.
        - apply Hkeeps; [exact Hx|]. apply Hall. left. reflexivity.
        - intros rr' Hrr'. apply Hall. right. exact Hrr'. }
      split.
      { intros rr' [<- | Hrr'] Hnone; [congruence|].
        apply Hnew; [exact Hrr'|].
        apply (find_none_incl _ local local' Hincl Hnone). }
      split.
      { intros c Hc. destruct (Hcreated c Hc) as (rr' & Hrr' & ->).
        exists rr'. split; [right; exact Hrr' | reflexivity]. }
      split; [exact Hnotrunc|]. split; [exact Hnosig | exact Hlogged].
    + set (new := new_remote_sync sub rr).
      set (db1 := log_effect (EffCreateLocalSyncStatus new)
                    (set_local_sync_status (local_sync_status db ++ [new]) db)).
      set (db2 := if truncate
                  then log_effect (EffTruncateTable (rr_nsptarget rr)
                                                    (rr_reltarget rr)) db1
                  else db1).
      destruct (IH local' db2)
        as (leftover & db' & created & log & Hrun & Hsync & Heff & Hsub
            & Hleft & Hnew & Hcreated & Hnotrunc & Hnosig & Hlogged).
      exists leftover, db', (new :: created),
        (EffCreateLocalSyncStatus new
         :: (if truncate
             then [EffTruncateTable (rr_nsptarget rr) (rr_reltarget rr)]
             else []) ++ log)%list.
      assert (Hstep :
        add_missing_tables sub truncate remote local' db2 = Ok leftover db' ->
        bind (bind (create_local_sync_status new)
                (fun _ => if truncate
                          then truncate_table (rr_nsptarget rr)
                                              (rr_reltarget rr)
                          else ret tt))
             (fun _ => add_missing_tables sub truncate remote local') db
        = Ok leftover db').
      { intros <-. unfold bind, create_local_sync_status, truncate_table,
          modify, ret, db2, db1. destruct truncate; reflexivity. }
      split; [apply Hstep, Hrun|].
      assert (Hdb2s : local_sync_status db2 = (local_sync_status db ++ [new])%list)
        by (unfold db2, db1; destruct truncate; reflexivity).
      assert (Hdb2e : effects db2
                      = (effects db ++ EffCreateLocalSyncStatus new
                           :: (if truncate
                               then [EffTruncateTable (rr_nsptarget rr)
                                                      (rr_reltarget rr)]
                               else []))%list).
      { unfold db2, db1. destruct truncate; simpl;
          rewrite <- ?app_assoc; reflexivity. }
      split; [rewrite Hsync, Hdb2s, <- app_assoc; reflexivity|].
      split; [rewrite Heff, Hdb2e, <- app_assoc; reflexivity|].
      split; [intros x Hx; apply Hincl, Hsub, Hx|].
      split.
      { intros x Hx Hall. apply Hleft.
        - apply Hkeeps; [exact Hx|]. apply Hall. left. reflexivity.
        - intros rr' Hrr'. apply Hall. right. exact Hrr'. }
      split.
      { intros rr' [<- | Hrr'] Hnone.
        - split; [left; reflexivity|]. intros ->.
          exists [], log. reflexivity.
        - destruct (Hnew rr' Hrr' (find_none_incl _ local local' Hincl Hnone))
            as [Hin Htr].
          split; [right; exact Hin|]. intros Ht.
          destruct (Htr Ht) as (pre & post & ->).
          eexists (_ :: _ ++ pre)%list, post.
          simpl. rewrite <- app_assoc. reflexivity. }
      split.
      { intros c [<- | Hc].
        - exists rr. split; [left|]; reflexivity.
        - destruct (Hcreated c Hc) as (rr' & Hrr' & ->).
          exists rr'. split; [right; exact Hrr' | reflexivity]. }
      split.
      { intros -> nsp rel [H | H]; [discriminate|].
        simpl in H. exact (Hnotrunc eq_refl nsp rel H). }
      split.
      { intros s k [H | H]; [discriminate|].
        apply in_app_or in H. destruct H as [H | H].
        - destruct truncate; simpl in H; [destruct H as [H|[]]; discriminate
                                         | exact H].
        - exact (Hnosig s k H). }
      { intros c [<- | Hc]; [left; reflexivity|].
        right. apply in_or_app. right. exact (Hlogged c Hc). }
Qed.

Lemma drop_leftover_run leftover :
  forall db,
  exists db' drops,
    foreach leftover
      (fun tablesync =>
         drop_table_sync_status_for_sub (subid tablesync) (nspname tablesync)
                                        (relname tablesync)) db
    = Ok tt db'
    /\ effects db' = (effects db ++ drops)%list
    /\ (forall e, In e drops ->
          exists s n r, e = EffDropTableSyncStatusForSub s n r)
    /\ (forall r, In r (local_sync_status db') <->
          In r (local_sync_status db)
          /\ forall t, In t leftover ->
               table_row_matches (subid t) (nspname t) (relname t) r = false).
Proof.
  induction leftover as [|t leftover IH]; intros db.
  - exists db, []. simpl. rewrite app_nil_r.
    split; [reflexivity|]. split; [reflexivity|].
    split; [intros e []|]. intros r. simpl. tauto.
  - simpl. unfold bind at 1. unfold drop_table_sync_status_for_sub at 1.
    unfold modify.
    set (db1 := log_effect _ _).
    destruct (IH db1) as (db' & drops & Hrun & Heff & Hdrops & Hsync).
    exists db', (EffDropTableSyncStatusForSub (subid t) (nspname t) (relname t)
                  :: drops).
    split; [exact Hrun|].
    split; [rewrite Heff; unfold db1; simpl; rewrite <- app_assoc;
            reflexivity|].
    split.
    { intros e [<- | He]; [eauto | apply Hdrops, He]. }
    intros r. rewrite Hsync. unfold db1. simpl. rewrite filter_In.
    rewrite negb_true_iff. split.
    + intros [[Hin Ht] Hall]. split; [exact Hin|].
      intros t' [<- | Ht']; [exact Ht | apply Hall, Ht'].
    + intros [Hin Hall]. repeat split; auto.
Qed.

Lemma same_target_names nsp rel t :
  same_target nsp rel t = true <-> nspname t = nsp /\ relname t = rel.
Proof.
  unfold same_target. rewrite andb_true_iff, !namestrcmp_zero, !String.eqb_eq.
  tauto.
Qed.

Lemma table_row_matches_iff sub nsp rel r :
  table_row_matches sub nsp rel r = true <->
  subid r = sub /\ is_table_row r = true /\ same_target nsp rel r = true.
Proof.
  unfold table_row_matches, same_target.
  rewrite !andb_true_iff, Z.eqb_eq. tauto.
Qed.

Section SynchronizeProperties.

Variable net : Network.

(** C3, as the code has it: the call of
    [spock_alter_subscription_synchronize] goes through when the
    subscription exists and the provider is reachable. For every remote
    table without local record of its target schema and name a record of
    kind [Data] and status [Init] is created, with the target names as
    [namestrcpy] stores them; when truncate is requested the table is
    truncated right after its record is created, and no table is truncated
    otherwise. When the target names fit a [NameData] the record has these
    names and is there after the call. Every local record of the
    subscription whose table is not in the remote list is gone; and the
    signal to the apply worker is the last effect of the call. *)
Theorem synchronize_adds_missing_and_drops_leftover
        db sub_name truncate sub :
  find_subscription sub_name db = Some sub ->
  connect_ok net (if_dsn (origin_if sub)) = true ->
  let remote_tables := remote_repset_tables net (if_dsn (origin_if sub))
                                            (replication_sets sub) in
  exists db' log,
    spock_alter_subscription_synchronize net sub_name truncate db = Ok true db'
    /\ effects db'
       = (effects db ++ log ++ [EffSubscriptionChanged (sub_id sub) false])%list
    /\ (forall s k, ~ In (EffSubscriptionChanged s k) log)
    /\ (forall rr,
          In rr remote_tables ->
          find_table_sync_status (sub_id sub) (rr_nsptarget rr)
                                 (rr_reltarget rr) db = None ->
          let newsync :=
            mkSync SYNC_KIND_DATA (sub_id sub)
                   (namestrcpy (rr_nsptarget rr))
                   (namestrcpy (rr_reltarget rr))
                   SYNC_STATUS_INIT InvalidXLogRecPtr in
          In (EffCreateLocalSyncStatus newsync) log
          /\ (truncate = true ->
              exists pre post,
                log = (pre
                       ++ EffCreateLocalSyncStatus newsync
                       :: EffTruncateTable (rr_nsptarget rr) (rr_reltarget rr)
                       :: post)%list)
          /\ ((String.length (rr_nsptarget rr) <= NAMEDATALEN - 1)%nat ->
              (String.length (rr_reltarget rr) <= NAMEDATALEN - 1)%nat ->
              In (mkSync SYNC_KIND_DATA (sub_id sub) (rr_nsptarget rr)
                         (rr_reltarget rr) SYNC_STATUS_INIT
                         InvalidXLogRecPtr)
                 (local_sync_status db')))
    /\ (truncate = false ->
        forall nsp rel, ~ In (EffTruncateTable nsp rel) log)
    /\ (forall r,
          In r (local_sync_status db) ->
          subid r = sub_id sub ->
          is_table_row r = true ->
          (forall rr, In rr remote_tables ->
                      ~ (rr_nsptarget rr = nspname r
                         /\ rr_reltarget rr = relname r)) ->
          ~ In r (local_sync_status db')).
Proof.
  intros Hsub Hconn remote_tables.
  unfold spock_alter_subscription_synchronize.
  unfold bind at 1. unfold get_subscription_by_name. rewrite Hsub.
  unfold bind at 1. unfold spock_connect. rewrite Hconn. unfold ret at 1.
  unfold bind at 1. unfold get_subscription_tables, gets.
  fold remote_tables.
  set (local_tables := filter _ (local_sync_status db)).
  destruct (add_missing_tables_run (sub_id sub) truncate remote_tables
              local_tables db)
    as (leftover & db1 & created & log1 & Hrun & Hsync1 & Heff1 & Hincl
        & Hleft & Hnew & Hcreated & Hnotrunc & Hnosig & Hlogged).
  unfold bind at 1. rewrite Hrun.
  destruct (drop_leftover_run leftover db1)
    as (db2 & drops & Hdrop & Heff2 & Hdrops & Hsync2).
  unfold bind at 1. rewrite Hdrop.
  unfold bind, spock_subscription_changed, modify, ret.
  eexists. exists (log1 ++ drops)%list.
  split; [reflexivity|].
  assert (Hlocal : forall t, In t local_tables <->
                     In t (local_sync_status db) /\ subid t = sub_id sub
                     /\ is_table_row t = true).
  { intros t. unfold local_tables. rewrite filter_In, andb_true_iff, Z.eqb_eq.
    tauto. }
  split; [simpl; rewrite Heff2, Heff1, <- !app_assoc; reflexivity|].
  split.
  { intros s k H. apply in_app_or in H. destruct H as [H | H].
    - exact (Hnosig s k H).
    - destruct (Hdrops _ H) as (s' & n & r & He). discriminate. }
  split.
  { intros rr Hrr Hnone.
    assert (Hnone' : find (same_target (rr_nsptarget rr) (rr_reltarget rr))
                          local_tables = None).
    { destruct (find _ local_tables) as [x|] eqn:Hx; [|reflexivity].
      apply find_some in Hx. destruct Hx as [Hin Hx].
      apply Hlocal in Hin. destruct Hin as (Hin & Hid & Hrow).
      pose proof (find_none _ _ Hnone x Hin) as Hno.
      assert (table_row_matches (sub_id sub) (rr_nsptarget rr)
                                (rr_reltarget rr) x = true)
        by (apply table_row_matches_iff; auto).
      congruence. }
    destruct (Hnew rr Hrr Hnone') as [Hin Htr].
    split; [|split].
    - apply in_or_app. left. exact (Hlogged _ Hin).
    - intros Ht. destruct (Htr Ht) as (pre & post & ->).
      exists pre, (post ++ drops)%list.
      rewrite <- app_assoc. reflexivity.
    - intros Hnsp Hname.
      assert (Hnew' :
        new_remote_sync (sub_id sub) rr
        = mkSync SYNC_KIND_DATA (sub_id sub) (rr_nsptarget rr)
                 (rr_reltarget rr) SYNC_STATUS_INIT InvalidXLogRecPtr).
      { unfold new_remote_sync, new_table_sync.
        rewrite (namestrcpy_fits _ Hnsp), (namestrcpy_fits _ Hname).
        reflexivity. }
      rewrite <- Hnew'.
      simpl. apply Hsync2. split.
      + rewrite Hsync1. apply in_or_app. right. exact Hin.
      + intros t Ht.
        destruct (table_row_matches (subid t) (nspname t) (relname t)
                    (new_remote_sync (sub_id sub) rr)) eqn:Hm;
          [|first [exact Hm | reflexivity]].
        exfalso. rewrite Hnew' in Hm. apply table_row_matches_iff in Hm.
        destruct Hm as (Hid & _ & Hsame).
        apply same_target_names in Hsame. simpl in Hsame, Hid.
        destruct Hsame as [Hn Hr].
        apply Hincl, Hlocal in Ht. destruct Ht as (Hin' & Hid' & Hrow').
        pose proof (find_none _ _ Hnone t Hin') as Hno.
        assert (table_row_matches (sub_id sub) (rr_nsptarget rr)
                                  (rr_reltarget rr) t = true).
        { apply table_row_matches_iff. repeat split; auto.
          apply same_target_names. auto. }
        congruence. }
  split.
  { intros Ht nsp rel H. apply in_app_or in H. destruct H as [H | H].
    - exact (Hnotrunc Ht nsp rel H).
    - destruct (Hdrops _ H) as (s' & n & r & He). discriminate. }
  intros r Hin Hid Hrow Habsent Hfinal. simpl in Hfinal.
  apply Hsync2 in Hfinal. destruct Hfinal as [_ Hall].
  assert (Hleftover : In r leftover).
  { apply Hleft; [apply Hlocal; auto|].
    intros rr Hrr.
    destruct (same_target (rr_nsptarget rr) (rr_reltarget rr) r) eqn:Hs;
      [|reflexivity].
    apply same_target_names in Hs. exfalso.
    apply (Habsent rr Hrr). destruct Hs; auto. }
  specialize (Hall r Hleftover).
  assert (table_row_matches (subid r) (nspname r) (relname r) r = true).
  { apply table_row_matches_iff. repeat split; auto.
    apply same_target_names. auto. }
  congruence.
Qed.

End SynchronizeProperties.

(** ** Conflict resolution *)

(** C4: a [DeleteDelete] conflict resolves to [Skip] with no row image to
    apply, and without error, under each of the five resolver policies. *)
Theorem delete_delete_resolves_to_skip
        (RowImage : Type) (local_row remote_row : option RowImage)
        (local_origin remote_origin : option OriginInfo)
        (policy : SpockResolveOption) :
  resolve CONFLICT_DELETE_DELETE local_row local_origin remote_row
          remote_origin policy
  = inr (SpockResolution_Skip, None).
Proof. destruct policy; reflexivity. Qed.

(** ** Waiting for the sync to complete *)

(** C5: under REPEATABLE READ or SERIALIZABLE both wait functions raise the
    isolation error at once: no snapshot is pushed and the latch is never
    touched. *)
Theorem wait_for_sync_refuses_xact_snapshot_isolation
        XactIsoLevel db world subscription_name relid :
  XactIsoLevel = XACT_REPEATABLE_READ \/ XactIsoLevel = XACT_SERIALIZABLE ->
  spock_wait_for_subscription_sync_complete XactIsoLevel db world
    subscription_name
  = (WaitRaised ErrWaitIsolation, [])
  /\ spock_wait_for_table_sync_complete XactIsoLevel db world
       subscription_name relid
     = (WaitRaised ErrWaitIsolation, []).
Proof.
  intros [-> | ->]; split; reflexivity.
Qed.

Lemma check_sync_complete_ready sub relnamespace relname db :
  is_ready (get_subscription_sync_status (sub_id sub) db) = true ->
  match relname with
  | Some rn =>
      is_ready (find_table_sync_status (sub_id sub) (cstring relnamespace)
                                       rn db) = true
  | None => get_unsynced_tables (sub_id sub) db = []
  end ->
  check_sync_complete sub relnamespace relname db = inl true.
Proof.
  unfold check_sync_complete, is_ready at 1.
  destruct (get_subscription_sync_status (sub_id sub) db) as [subsync|];
    [|discriminate].
  intros -> Htable. destruct relname as [rn|].
  - unfold get_table_sync_status.
    destruct (find_table_sync_status _ _ rn db) as [table|];
      [|discriminate]. rewrite <- Htable. reflexivity.
  - rewrite Htable. reflexivity.
Qed.

(** C6, as the code has it: when at the first check the subscription is
    [Ready] and, for a given table, the record of the table is [Ready], or,
    without a table, no table of the subscription is unsynced, the wait
    returns after that check: it pushes and pops one snapshot and never
    waits on the latch. *)
Theorem wait_for_sync_returns_at_first_check
        XactIsoLevel db t later subscription_name sub relnamespace relname :
  IsolationUsesXactSnapshot XactIsoLevel = false ->
  find_subscription subscription_name db = Some sub ->
  is_ready (get_subscription_sync_status (sub_id sub) (latest t)) = true ->
  match relname with
  | Some rn =>
      is_ready (find_table_sync_status (sub_id sub) (cstring relnamespace)
                                       rn (latest t)) = true
  | None => get_unsynced_tables (sub_id sub) (latest t) = []
  end ->
  spock_wait_for_sync_complete XactIsoLevel db (t :: later) subscription_name
                               relnamespace relname
  = (WaitReturned, [WPushActiveSnapshot; WPopActiveSnapshot])
  /\ returned_without_waiting
       (spock_wait_for_sync_complete XactIsoLevel db (t :: later)
                                     subscription_name relnamespace relname).
Proof.
  intros Hiso Hsub Hready Htable.
  assert (Hrun :
    spock_wait_for_sync_complete XactIsoLevel db (t :: later) subscription_name
                                 relnamespace relname
    = (WaitReturned, [WPushActiveSnapshot; WPopActiveSnapshot])).
  { unfold spock_wait_for_sync_complete, get_subscription_by_name.
    rewrite Hiso, Hsub. simpl.
    rewrite (check_sync_complete_ready sub relnamespace relname (latest t)
               Hready Htable). reflexivity. }
  split; [exact Hrun|]. rewrite Hrun. split; [reflexivity|].
  simpl. intros [H | [H | []]]; discriminate.
Qed.

(** ** The row filter *)

Section RowFilterProperties.

Variable HeapTuple : Type.
Variable ExprState : Type.
Variable ExecEvalExpr : ExprState -> HeapTuple -> option (Datum * bool).

Lemma filter_tuple_true_iff htup row_filter_list :
  filter_tuple ExecEvalExpr htup row_filter_list = Some true <->
  Forall (evaluates_true ExecEvalExpr htup) row_filter_list.
Proof.
  induction row_filter_list as [|e l IH]; simpl.
  - split; [constructor | reflexivity].
  - split.
    + intros H.
      destruct (ExecEvalExpr e htup) as [[res isnull]|] eqn:He;
        [|discriminate].
      destruct isnull; [discriminate|].
      destruct (DatumGetBool res) eqn:Hres; [|discriminate].
      constructor; [exists res; auto | apply IH, H].
    + intros H. inversion H as [|e' l' [res [He Hres]] Hl]; subst.
      rewrite He, Hres. simpl. apply IH, Hl.
Qed.

Lemma filter_tuple_excludes htup pre e post :
  Forall (evaluates ExecEvalExpr htup) pre ->
  evaluates_null ExecEvalExpr htup e \/ evaluates_false ExecEvalExpr htup e ->
  filter_tuple ExecEvalExpr htup (pre ++ e :: post) = Some false.
Proof.
  induction 1 as [|x pre Hx Hpre IH]; intros He; simpl.
  - destruct He as [[res He] | [res [He Hres]]]; rewrite He.
    + reflexivity.
    + rewrite Hres. reflexivity.
  - unfold evaluates in Hx.
    destruct (ExecEvalExpr x htup) as [[res isnull]|]; [|congruence].
    destruct isnull; [reflexivity|].
    destruct (DatumGetBool res); simpl; [apply IH, He | reflexivity].
Qed.

(** C8: [filter_tuple] returns true exactly when every filter of the list
    evaluates to a value that is not null and is true; a filter that
    evaluates to null makes it return false just as one that evaluates to
    false does, wherever it stands among filters whose evaluation does not
    raise. *)
Theorem filter_tuple_true_iff_all_filters_true htup row_filter_list :
  (filter_tuple ExecEvalExpr htup row_filter_list = Some true <->
   Forall (evaluates_true ExecEvalExpr htup) row_filter_list)
  /\ (forall pre e post,
        row_filter_list = (pre ++ e :: post)%list ->
        Forall (evaluates ExecEvalExpr htup) pre ->
        (evaluates_null ExecEvalExpr htup e ->
         filter_tuple ExecEvalExpr htup row_filter_list = Some false)
        /\ (evaluates_false ExecEvalExpr htup e ->
            filter_tuple ExecEvalExpr htup row_filter_list = Some false)).
Proof.
  split; [apply filter_tuple_true_iff|].
  intros pre e post -> Hpre.
  split; intros He; apply filter_tuple_excludes; auto.
Qed.

End RowFilterProperties.

(** ** The functions at work on the sample database *)

Lemma cons_inv {A} (x y : A) (l l' : list A) :
  x :: l = y :: l' -> x = y /\ l = l'.
Proof. intros H. inversion H. split; reflexivity. Qed.

(** Goes through the ways of cutting a given log into [pre ++ a :: ...]. *)
Ltac cut_log H :=
  repeat first
    [ discriminate H
    | match type of H with
      | _ = (?l ++ _)%list => destruct l; simpl in H
      | _ :: _ = _ :: _ =>
          let Hhd := fresh "Hhd" in
          apply cons_inv in H; destruct H as [Hhd H]; try discriminate Hhd
      end ].

Lemma resynchronize_existing_table_witness :
  let call :=
    spock_alter_subscription_resynchronize_table "sub1" 100 true Sample.db in
  find_table_sync_status 30 "public" "t1" Sample.db = Some Sample.t1_sync
  /\ (failed call = true <->
      status Sample.t1_sync <> SYNC_STATUS_READY
      /\ status Sample.t1_sync <> SYNC_STATUS_SYNCDONE
      /\ status Sample.t1_sync <> SYNC_STATUS_NONE)
  /\ (forall v db', call = Ok v db' ->
      exists r,
        find_table_sync_status 30 "public" "t1" db' = Some r
        /\ status r = SYNC_STATUS_INIT
        /\ statuslsn r = InvalidXLogRecPtr
        /\ kind r = kind Sample.t1_sync).
Proof.
  split; [reflexivity|].
  apply (resynchronize_existing_table_fails_iff_mid_sync
           Sample.db "sub1" 100 true Sample.sub1 Sample.t1 Sample.t1_sync);
    reflexivity.
Defined.

Lemma resynchronize_table_without_record_witness :
  find_table_sync_status 30 "public" "t3" Sample.db = None
  /\ exists db',
       spock_alter_subscription_resynchronize_table "sub1" 102 false Sample.db
       = Ok true db'
       /\ local_sync_status db'
          = (local_sync_status Sample.db ++ [Sample.t3_sync])%list.
Proof.
  split; [reflexivity|].
  destruct (resynchronize_table_without_record_creates_data_record
              Sample.db "sub1" 102 false Sample.sub1 Sample.t3
              eq_refl eq_refl eq_refl)
    as (db' & Hcall & _ & Hfits).
  exists db'. split; [exact Hcall|].
  apply Hfits; apply Nat.leb_le; reflexivity.
Defined.




Lemma synchronize_witness :
  exists db',
    spock_alter_subscription_synchronize Sample.net "sub1" true Sample.db
    = Ok true db'
    /\ In Sample.t3_sync (local_sync_status db')
    /\ ~ In Sample.t2_sync (local_sync_status db').
Proof.
  destruct (synchronize_adds_missing_and_drops_leftover
              Sample.net Sample.db "sub1" true Sample.sub1
              eq_refl eq_refl)
    as (db' & log & Hcall & _ & _ & Hnew & _ & Hgone).
  exists db'. split; [exact Hcall|]. split.
  - destruct (Hnew Sample.remote_t3) as (_ & _ & Hfits);
      [simpl; tauto | reflexivity|].
    apply Hfits; apply Nat.leb_le; reflexivity.
  - apply (Hgone Sample.t2_sync); [simpl; tauto | reflexivity | reflexivity |].
    intros rr [<- | [<- | []]] [_ H]; discriminate H.
Defined.

(** Against C3 as stated: with truncate requested, the table of a new
    record is truncated after the record is created, not before. *)
Lemma synchronize_truncates_after_creating :
  exists db',
    spock_alter_subscription_synchronize Sample.net "sub1" true Sample.db
    = Ok true db'
    /\ In Sample.remote_t3
          (remote_repset_tables Sample.net "host=provider" ["default"])
    /\ find_table_sync_status 30 "public" "t3" Sample.db = None
    /\ happens_before (EffCreateLocalSyncStatus Sample.t3_sync)
                      (EffTruncateTable "public" "t3") (effects db')
    /\ ~ happens_before (EffTruncateTable "public" "t3")
                        (EffCreateLocalSyncStatus Sample.t3_sync)
                        (effects db').
Proof.
  exists (match spock_alter_subscription_synchronize Sample.net "sub1" true
                  Sample.db with
          | Ok _ db' => db'
          | Raise _ db' => db'
          end).
  split; [reflexivity|]. split; [simpl; tauto|].
  split; [reflexivity|]. split.
  - exists [], [], [EffDropTableSyncStatusForSub 30 "public" "t2";
                    EffSubscriptionChanged 30 false]. reflexivity.
  - intros (pre & mid & post & H). cbn in H. cut_log H.
Qed.

Lemma wait_for_sync_refuses_witness :
  spock_wait_for_subscription_sync_complete XACT_SERIALIZABLE Sample.db
    Sample.world "sub1"
  = (WaitRaised ErrWaitIsolation, [])
  /\ spock_wait_for_table_sync_complete XACT_SERIALIZABLE Sample.db
       Sample.world "sub1" 100
     = (WaitRaised ErrWaitIsolation, []).
Proof.
  apply (wait_for_sync_refuses_xact_snapshot_isolation
           XACT_SERIALIZABLE Sample.db Sample.world "sub1" 100).
  right. reflexivity.
Defined.

(** Against C6 as stated: the subscription is [Ready] at the first check,
    no table is given, and the call still waits on the latch, because
    [public.t2] is not [Ready] yet. *)
Lemma wait_for_subscription_waits_for_unsynced_table :
  IsolationUsesXactSnapshot XACT_READ_COMMITTED = false
  /\ is_ready (get_subscription_sync_status 30 Sample.db) = true
  /\ spock_wait_for_subscription_sync_complete XACT_READ_COMMITTED Sample.db
       Sample.world "sub1"
     = (WaitReturned,
        [WPushActiveSnapshot; WPopActiveSnapshot; WWaitLatch; WResetLatch;
         WPushActiveSnapshot; WPopActiveSnapshot])
  /\ ~ returned_without_waiting
         (spock_wait_for_subscription_sync_complete XACT_READ_COMMITTED
            Sample.db Sample.world "sub1").
Proof.
  split; [reflexivity|]. split; [reflexivity|]. split; [reflexivity|].
  intros [_ H]. apply H. simpl. tauto.
Qed.

Lemma wait_for_sync_returns_at_first_check_witness :
  is_ready (find_table_sync_status 30 "public" "t1" Sample.db) = true
  /\ spock_wait_for_sync_complete XACT_READ_COMMITTED Sample.db Sample.world
       "sub1" (Some "public") (Some "t1")
     = (WaitReturned, [WPushActiveSnapshot; WPopActiveSnapshot])
  /\ returned_without_waiting
       (spock_wait_for_sync_complete XACT_READ_COMMITTED Sample.db
          Sample.world "sub1" (Some "public") (Some "t1")).
Proof.
  split; [reflexivity|].
  apply (wait_for_sync_returns_at_first_check XACT_READ_COMMITTED Sample.db
           (mkTick Sample.db false false)
           [mkTick Sample.db_synced false false] "sub1" Sample.sub1
           (Some "public") (Some "t1")); reflexivity.
Defined.

Lemma create_subscription_witness :
  Sample.create "sub2" ["other"] "relations_only" true
  = Ok 31 (match Sample.create "sub2" ["other"] "relations_only" true with
           | Ok _ db' => db'
           | Raise _ db' => db'
           end)
  /\ exists k,
       local_sync_status
         (match Sample.create "sub2" ["other"] "relations_only" true with
          | Ok _ db' => db'
          | Raise _ db' => db'
          end)
       = (local_sync_status Sample.db
          ++ [mkSync k 31 EmptyString EmptyString SYNC_STATUS_INIT
                     InvalidXLogRecPtr])%list
       /\ k = SYNC_KIND_FULL_REL.
Proof.
  split; [reflexivity|].
  destruct (create_subscription_creates_one_sync_record
              Sample.gen_node_id Sample.gen_interface_id
              Sample.gen_subscription_id Sample.gen_slot_name Sample.net
              Sample.db
              (match Sample.create "sub2" ["other"] "relations_only" true with
               | Ok _ db' => db'
               | Raise _ db' => db'
               end)
              31 "sub2" "host=provider" ["other"] "relations_only" true
              [] 0 false eq_refl)
    as (k & Hsync & _ & _ & Hkind & _).
  exists k. split; [exact Hsync | apply Hkind; reflexivity].
Defined.

Lemma create_subscription_overlap_witness :
  In "default" (replication_sets Sample.sub1)
  /\ exists e db',
       Sample.create "sub2" ["other"; "default"] "all" true = Raise e db'
       /\ subscriptions db' = subscriptions Sample.db
       /\ local_sync_status db' = local_sync_status Sample.db.
Proof.
  split; [simpl; tauto|].
  apply (create_subscription_rejects_overlapping_replication_set
           Sample.gen_node_id Sample.gen_interface_id
           Sample.gen_subscription_id Sample.gen_slot_name Sample.net
           Sample.db Sample.sub1 "default" "sub2" "host=provider"
           ["other"; "default"] "all" true [] 0 false);
    [simpl; tauto | reflexivity | simpl; tauto | simpl; tauto].
Defined.

Lemma filter_tuple_witness :
  filter_tuple Sample.eval_column [1; 0; 5] [0; 7; 1] = Some false
  /\ filter_tuple Sample.eval_column [1; 0; 5] [0; 1; 7] = Some false.
Proof.
  assert (Hpre : Forall (evaluates Sample.eval_column [1; 0; 5]) [0])
    by (constructor; [discriminate | constructor]).
  split.
  - destruct (filter_tuple_true_iff_all_filters_true
                (list Z) Z Sample.eval_column [1; 0; 5] [0; 7; 1])
      as [_ Hexcl].
    apply (proj1 (Hexcl [0] 7 [1] eq_refl Hpre)). exists 0. reflexivity.
  - destruct (filter_tuple_true_iff_all_filters_true
                (list Z) Z Sample.eval_column [1; 0; 5] [0; 1; 7])
      as [_ Hexcl].
    apply (proj2 (Hexcl [0] 1 [7] eq_refl Hpre)). exists 0.
    split; reflexivity.
Defined.

(** * Properties of the further functions *)

(** ** Slot names *)

Lemma length_snprintf room text :
  String.length (snprintf room text) = Nat.min room (String.length text).
Proof.
  revert text. induction room as [|room IH]; intros [|c rest]; simpl;
    try reflexivity.
  rewrite IH. reflexivity.
Qed.

Lemma length_replace_invalid_chars s :
  String.length (replace_invalid_chars s) = String.length s.
Proof. induction s as [|c s IH]; simpl; [reflexivity | rewrite IH; reflexivity]. Qed.

Lemma replace_invalid_chars_valid s :
  string_forallb valid_slot_char (replace_invalid_chars s) = true.
Proof.
  induction s as [|c s IH]; simpl; [reflexivity|].
  rewrite IH, andb_true_r.
  destruct (valid_slot_char c) eqn:Hc; [exact Hc | reflexivity].
Qed.

Lemma replace_invalid_chars_keeps s :
  string_forallb valid_slot_char s = true -> replace_invalid_chars s = s.
Proof.
  induction s as [|c s IH]; simpl; [reflexivity|].
  intros H. apply andb_true_iff in H. destruct H as [Hc Hs].
  rewrite Hc, (IH Hs). reflexivity.
Qed.

Lemma length_string_app (a b : string) :
  String.length (a ++ b) = (String.length a + String.length b)%nat.
Proof. induction a as [|c a IH]; simpl; [reflexivity | rewrite IH; reflexivity]. Qed.

Lemma snprintf_all room text :
  (String.length text <= room)%nat -> snprintf room text = text.
Proof.
  revert text. induction room as [|room IH]; intros [|c rest]; simpl;
    try reflexivity; intros H.
  - inversion H.
  - rewrite IH; [reflexivity | lia].
Qed.

Lemma string_forallb_app p (a b : string) :
  string_forallb p (a ++ b) = string_forallb p a && string_forallb p b.
Proof.
  induction a as [|c a IH]; simpl; [reflexivity|].
  rewrite IH, andb_assoc. reflexivity.
Qed.

Section SlotNameProperties.

Variable shorten_hash : string -> nat -> string.

(** X1: whatever the three names are, the slot name fits a [NameData]
    (at most [NAMEDATALEN - 1] characters), consists of lower case
    letters, digits and underscores only, and starts with [spk_]. *)
Theorem gen_slot_name_is_a_valid_name dbname provider_node subscription_name :
  let slot := gen_slot_name shorten_hash dbname provider_node
                            subscription_name in
  (String.length slot <= NAMEDATALEN - 1)%nat
  /\ string_forallb valid_slot_char slot = true
  /\ exists rest, slot = "spk_" ++ rest.
Proof.
  unfold gen_slot_name. split; [|split].
  - rewrite length_replace_invalid_chars, length_snprintf. apply Nat.le_min_l.
  - apply replace_invalid_chars_valid.
  - simpl. eexists. reflexivity.
Qed.

(** X2: when [shorten_hash] keeps to the length it is given, nothing of the
    formatted name is cut off and the slot name leaves room for a suffix of
    nine characters; when the three shortened names are valid already, the
    slot name is [spk_<database>_<provider>_<subscription>] as it
    stands. *)
Theorem gen_slot_name_leaves_room_for_suffix
        dbname provider_node subscription_name :
  (forall str maxlen, (String.length (shorten_hash str maxlen) <= maxlen)%nat) ->
  let formatted := "spk_" ++ shorten_hash dbname 16
                   ++ "_" ++ shorten_hash provider_node 16
                   ++ "_" ++ shorten_hash subscription_name 16 in
  let slot := gen_slot_name shorten_hash dbname provider_node
                            subscription_name in
  slot = replace_invalid_chars formatted
  /\ (String.length slot + 9 <= NAMEDATALEN - 1)%nat
  /\ (string_forallb valid_slot_char (shorten_hash dbname 16) = true ->
      string_forallb valid_slot_char (shorten_hash provider_node 16) = true ->
      string_forallb valid_slot_char (shorten_hash subscription_name 16) = true ->
      slot = formatted).
Proof.
  intros Hbound formatted slot.
  assert (Hlen : (String.length formatted <= 54)%nat).
  { unfold formatted. rewrite !length_string_app. simpl.
    pose proof (Hbound dbname 16%nat). pose proof (Hbound provider_node 16%nat).
    pose proof (Hbound subscription_name 16%nat). lia. }
  assert (Hslot : slot = replace_invalid_chars formatted).
  { unfold slot, gen_slot_name. fold formatted.
    rewrite snprintf_all; [reflexivity|]. unfold NAMEDATALEN. lia. }
  split; [exact Hslot|]. split.
  - rewrite Hslot, length_replace_invalid_chars. unfold NAMEDATALEN. lia.
  - intros Hd Hp Hs. rewrite Hslot. apply replace_invalid_chars_keeps.
    unfold formatted. rewrite !string_forallb_app, Hd, Hp, Hs. reflexivity.
Qed.

End SlotNameProperties.

(** ** Replication sets and interface of a subscription *)

Lemma replace_subscription_ids sub l :
  map sub_id (replace_subscription sub l) = map sub_id l.
Proof.
  induction l as [|s l IH]; simpl; [reflexivity|].
  destruct (sub_id s =? sub_id sub) eqn:E; simpl.
  - apply Z.eqb_eq in E. rewrite E. reflexivity.
  - rewrite IH. reflexivity.
Qed.

Lemma find_subscription_id_in name l sub :
  find (fun s => String.eqb (sub_name s) name) l = Some sub ->
  In (sub_id sub) (map sub_id l).
Proof.
  intros H. apply find_some in H. apply in_map. apply H.
Qed.

Lemma find_replace_subscription name l sub sub' :
  NoDup (map sub_id l) ->
  find (fun s => String.eqb (sub_name s) name) l = Some sub ->
  sub_id sub' = sub_id sub ->
  sub_name sub' = sub_name sub ->
  find (fun s => String.eqb (sub_name s) name)
       (replace_subscription sub' l) = Some sub'.
Proof.
  intros Hnodup Hfind Hid Hname.
  induction l as [|s l IH]; simpl in *; [discriminate|].
  inversion Hnodup as [|x xs Hnotin Hnodup']; subst.
  destruct (String.eqb (sub_name s) name) eqn:Hs.
  - inversion Hfind; subst s. rewrite Hid, Z.eqb_refl. simpl.
    rewrite Hname, Hs. reflexivity.
  - destruct (sub_id s =? sub_id sub') eqn:E.
    + apply Z.eqb_eq in E. exfalso. apply Hnotin.
      rewrite E, Hid. apply (find_subscription_id_in name l sub Hfind).
    + simpl. rewrite Hs. apply IH; assumption.
Qed.

Lemma replace_subscription_back name l sub sub' :
  NoDup (map sub_id l) ->
  find (fun s => String.eqb (sub_name s) name) l = Some sub ->
  sub_id sub' = sub_id sub ->
  replace_subscription sub (replace_subscription sub' l) = l.
Proof.
  intros Hnodup Hfind Hid.
  induction l as [|s l IH]; simpl in *; [reflexivity|].
  inversion Hnodup as [|x xs Hnotin Hnodup']; subst.
  destruct (String.eqb (sub_name s) name) eqn:Hs.
  - inversion Hfind; subst s. rewrite Hid, Z.eqb_refl. simpl.
    rewrite Hid, Z.eqb_refl. reflexivity.
  - destruct (sub_id s =? sub_id sub') eqn:E.
    + apply Z.eqb_eq in E. exfalso. apply Hnotin.
      rewrite E, Hid. apply (find_subscription_id_in name l sub Hfind).
    + simpl. rewrite <- Hid, E. rewrite IH; auto.
Qed.

Lemma set_subscriptions_same db :
  set_subscriptions (subscriptions db) db = db.
Proof. destruct db; reflexivity. Qed.

Lemma set_subscriptions_twice l l' db :
  set_subscriptions l (set_subscriptions l' db) = set_subscriptions l db.
Proof. reflexivity. Qed.

Lemma with_replication_sets_same sub :
  with_replication_sets (replication_sets sub) sub = sub.
Proof. destruct sub; reflexivity. Qed.

Lemma existsb_strcmp_iff name sets :
  existsb (fun rs => strcmp rs name =? 0) sets = true <-> In name sets.
Proof.
  rewrite existsb_exists. split.
  - intros (rs & Hin & Heq). rewrite strcmp_zero in Heq.
    apply String.eqb_eq in Heq. subst. exact Hin.
  - intros Hin. exists name. split; [exact Hin|].
    rewrite strcmp_zero. apply String.eqb_refl.
Qed.

Lemma add_replication_set_run db sub_name repset_name sub :
  find_subscription sub_name db = Some sub ->
  spock_alter_subscription_add_replication_set sub_name repset_name db
  = if existsb (fun rs => strcmp rs repset_name =? 0) (replication_sets sub)
    then Ok false db
    else Ok true
           (set_subscriptions
              (replace_subscription
                 (with_replication_sets (replication_sets sub ++ [repset_name])
                                        sub)
                 (subscriptions db)) db).
Proof.
  intros Hsub.
  unfold spock_alter_subscription_add_replication_set, bind,
    get_subscription_by_name. rewrite Hsub.
  destruct (existsb _ (replication_sets sub)); reflexivity.
Qed.

Lemma delete_first_cell_none name sets :
  delete_first_cell name sets = None <-> ~ In name sets.
Proof.
  induction sets as [|rs sets IH]; simpl; [tauto|].
  rewrite strcmp_zero. destruct (String.eqb_spec rs name) as [->|Hne].
  - split; [discriminate | tauto].
  - destruct (delete_first_cell name sets); simpl in *.
    + split; [discriminate|]. intros H. exfalso. apply H. right.
      destruct IH as [_ IH].
      destruct (in_dec string_dec name sets) as [Hin|Hnin]; [exact Hin|].
      specialize (IH Hnin). discriminate.
    + split; [|reflexivity]. intros _ [H|H]; [congruence|].
      destruct IH as [IH _]. exact (IH eq_refl H).
Qed.

Lemma delete_first_cell_app_last name sets :
  ~ In name sets -> delete_first_cell name (sets ++ [name]) = Some sets.
Proof.
  induction sets as [|rs sets IH]; simpl; intros Hnin.
  - rewrite strcmp_zero, String.eqb_refl. reflexivity.
  - rewrite strcmp_zero. destruct (String.eqb_spec rs name) as [->|Hne].
    + exfalso. apply Hnin. left. reflexivity.
    + rewrite IH; [reflexivity|]. intros H. apply Hnin. right. exact H.
Qed.

Lemma delete_first_cell_some name sets rest :
  delete_first_cell name sets = Some rest ->
  In name sets
  /\ (forall s, s <> name -> (In s sets <-> In s rest))
  /\ (NoDup sets -> NoDup rest /\ ~ In name rest)
  /\ List.length sets = S (List.length rest).
Proof.
  revert rest. induction sets as [|rs sets IH]; simpl; intros rest H;
    [discriminate|].
  rewrite strcmp_zero in H. destruct (String.eqb_spec rs name) as [->|Hne].
  - inversion H; subst rest. split; [tauto|]. split; [|split].
    + intros s Hs. split; [intros [E|Hin]; [congruence|exact Hin] | tauto].
    + intros Hnd. inversion Hnd; subst. tauto.
    + reflexivity.
  - destruct (delete_first_cell name sets) as [rest'|]; [|discriminate].
    inversion H; subst rest. destruct (IH rest' eq_refl) as (Hin & Hsame & Hnd & Hlen).
    split; [tauto|]. split; [|split].
    + intros s Hs. simpl. rewrite (Hsame s Hs). tauto.
    + intros Hnodup. inversion Hnodup as [|x xs Hnotin Hnodup']; subst.
      destruct (Hnd Hnodup') as [Hnd' Hnin]. split.
      * constructor; [|exact Hnd']. intros Hin'. apply Hnotin.
        apply (Hsame rs Hne). exact Hin'.
      * simpl. intros [E|Hin']; [congruence | tauto].
    + simpl. rewrite Hlen. reflexivity.
Qed.

(** X3: adding a replication set to an existing subscription never fails,
    whatever the other subscriptions hold. It returns false and changes
    nothing when the subscription has the set already; otherwise the set
    is appended, and a second call then returns false and changes
    nothing. *)
Theorem add_replication_set_is_idempotent db sub_name repset_name sub :
  NoDup (map sub_id (subscriptions db)) ->
  find_subscription sub_name db = Some sub ->
  exists added db1 sub1,
    spock_alter_subscription_add_replication_set sub_name repset_name db
    = Ok added db1
    /\ (added = false <-> In repset_name (replication_sets sub))
    /\ (added = false -> db1 = db)
    /\ find_subscription sub_name db1 = Some sub1
    /\ (added = true ->
        replication_sets sub1 = (replication_sets sub ++ [repset_name])%list)
    /\ In repset_name (replication_sets sub1)
    /\ spock_alter_subscription_add_replication_set sub_name repset_name db1
       = Ok false db1.
Proof.
  intros Hnodup Hsub.
  rewrite (add_replication_set_run db sub_name repset_name sub Hsub).
  destruct (existsb _ (replication_sets sub)) eqn:Hex.
  - pose proof (proj1 (existsb_strcmp_iff _ _) Hex) as Hin.
    exists false, db, sub.
    rewrite (add_replication_set_run db sub_name repset_name sub Hsub), Hex.
    repeat split; auto; discriminate.
  - set (sub1 := with_replication_sets (replication_sets sub ++ [repset_name])
                                       sub).
    set (db1 := set_subscriptions _ db).
    assert (Hsub1 : find_subscription sub_name db1 = Some sub1).
    { unfold find_subscription, db1. simpl.
      apply (find_replace_subscription sub_name (subscriptions db) sub sub1);
        auto. }
    assert (Hin1 : In repset_name (replication_sets sub1)).
    { simpl. apply in_or_app. right. left. reflexivity. }
    exists true, db1, sub1.
    rewrite (add_replication_set_run db1 sub_name repset_name sub1 Hsub1).
    rewrite (proj2 (existsb_strcmp_iff _ _) Hin1).
    split; [reflexivity|]. split.
    { split; [discriminate|]. intros Hin.
      apply existsb_strcmp_iff in Hin. congruence. }
    split; [discriminate|]. repeat split; auto.
Qed.

(** X4: on a subscription that does not have the set, adding the set and
    then removing it gives back the database as it was. *)
Theorem add_then_remove_replication_set db sub_name repset_name sub :
  NoDup (map sub_id (subscriptions db)) ->
  find_subscription sub_name db = Some sub ->
  ~ In repset_name (replication_sets sub) ->
  exists db1,
    spock_alter_subscription_add_replication_set sub_name repset_name db
    = Ok true db1
    /\ spock_alter_subscription_remove_replication_set sub_name repset_name
         db1
       = Ok true db.
Proof.
  intros Hnodup Hsub Hnin.
  rewrite (add_replication_set_run db sub_name repset_name sub Hsub).
  destruct (existsb _ (replication_sets sub)) eqn:Hex.
  { apply existsb_strcmp_iff in Hex. contradiction. }
  set (sub1 := with_replication_sets (replication_sets sub ++ [repset_name])
                                     sub).
  eexists. split; [reflexivity|].
  unfold spock_alter_subscription_remove_replication_set, bind,
    get_subscription_by_name.
  assert (Hsub1 : find_subscription sub_name
                    (set_subscriptions
                       (replace_subscription sub1 (subscriptions db)) db)
                  = Some sub1).
  { unfold find_subscription. simpl.
    apply (find_replace_subscription sub_name (subscriptions db) sub sub1);
      auto. }
  rewrite Hsub1.
  change (replication_sets sub1)
    with (replication_sets sub ++ [repset_name])%list.
  rewrite (delete_first_cell_app_last repset_name _ Hnin).
  unfold alter_subscription, modify, ret. simpl.
  change (with_replication_sets (replication_sets sub) sub1)
    with (with_replication_sets (replication_sets sub) sub).
  rewrite with_replication_sets_same.
  rewrite (replace_subscription_back sub_name (subscriptions db) sub sub1);
    auto.
  rewrite set_subscriptions_twice, set_subscriptions_same. reflexivity.
Qed.

(** X5: removing a replication set returns false, and changes nothing,
    exactly when the subscription does not have the set. Otherwise the
    first cell with that name is deleted: the list is one shorter, every
    other set stays, and when the list had no duplicates the set is gone
    and the list still has none. *)
Theorem remove_replication_set_deletes_first_cell
        db sub_name repset_name sub :
  NoDup (map sub_id (subscriptions db)) ->
  find_subscription sub_name db = Some sub ->
  exists removed db1 sub1,
    spock_alter_subscription_remove_replication_set sub_name repset_name db
    = Ok removed db1
    /\ (removed = false <-> ~ In repset_name (replication_sets sub))
    /\ (removed = false -> db1 = db)
    /\ find_subscription sub_name db1 = Some sub1
    /\ (forall s, s <> repset_name ->
          (In s (replication_sets sub) <-> In s (replication_sets sub1)))
    /\ (removed = true ->
        List.length (replication_sets sub)
        = S (List.length (replication_sets sub1))
        /\ (NoDup (replication_sets sub) ->
            NoDup (replication_sets sub1)
            /\ ~ In repset_name (replication_sets sub1))).
Proof.
  intros Hnodup Hsub.
  unfold spock_alter_subscription_remove_replication_set, bind,
    get_subscription_by_name. rewrite Hsub.
  destruct (delete_first_cell repset_name (replication_sets sub))
    as [rest|] eqn:Hdel.
  - destruct (delete_first_cell_some _ _ _ Hdel) as (Hin & Hsame & Hnd & Hlen).
    set (sub1 := with_replication_sets rest sub).
    exists true, (set_subscriptions
                    (replace_subscription sub1 (subscriptions db)) db), sub1.
    split; [reflexivity|]. split; [split; [discriminate | tauto]|].
    split; [discriminate|]. split.
    { unfold find_subscription. simpl.
      apply (find_replace_subscription sub_name (subscriptions db) sub sub1);
        auto. }
    split; [exact Hsame|]. intros _. split; [exact Hlen | exact Hnd].
  - pose proof (proj1 (delete_first_cell_none _ _) Hdel) as Hnin.
    exists false, db, sub.
    split; [reflexivity|]. split; [tauto|]. split; [reflexivity|].
    split; [exact Hsub|]. split; [tauto | discriminate].
Qed.

(** X6: switching the interface of a subscription never moves it to
    another node. An interface name the origin node does not have is an
    error that changes nothing; the interface the subscription has already
    gives false and changes nothing; any other interface of the origin node
    becomes the origin interface, and the origin node stays the same. *)
Theorem alter_subscription_interface_keeps_origin_node
        db sub_name if_name sub local :
  NoDup (map sub_id (subscriptions db)) ->
  find_subscription sub_name db = Some sub ->
  local_node db = Some local ->
  match find_node_interface (if_nodeid (origin_if sub)) if_name db with
  | None =>
      spock_alter_subscription_interface sub_name if_name db
      = Raise (ErrInterfaceNotFound (if_nodeid (origin_if sub)) if_name) db
  | Some new_if =>
      exists changed db' sub',
        spock_alter_subscription_interface sub_name if_name db
        = Ok changed db'
        /\ (changed = false <-> if_id new_if = if_id (origin_if sub))
        /\ (changed = false -> db' = db)
        /\ find_subscription sub_name db' = Some sub'
        /\ (changed = true -> origin_if sub' = new_if)
        /\ if_nodeid (origin_if sub') = if_nodeid (origin_if sub)
  end.
Proof.
  intros Hnodup Hsub Hlocal.
  unfold spock_alter_subscription_interface, bind, get_subscription_by_name,
    get_local_node, get_node_interface_by_name, find_node_interface.
  rewrite Hsub, Hlocal.
  destruct (find _ (node_interfaces db)) as [new_if|] eqn:Hif; [|reflexivity].
  destruct (if_id new_if =? if_id (origin_if sub)) eqn:Hsame.
  - exists false, db, sub. apply Z.eqb_eq in Hsame.
    repeat split; auto; discriminate.
  - set (sub' := with_origin_if new_if sub).
    exists true, (set_subscriptions
                    (replace_subscription sub' (subscriptions db)) db), sub'.
    apply Z.eqb_neq in Hsame.
    split; [reflexivity|]. split; [split; [discriminate | contradiction]|].
    split; [discriminate|]. split.
    { unfold find_subscription. simpl.
      apply (find_replace_subscription sub_name (subscriptions db) sub sub');
        auto. }
    split; [reflexivity|]. simpl.
    apply find_some in Hif. destruct Hif as [_ Hif].
    unfold interface_matches in Hif. apply andb_true_iff in Hif.
    destruct Hif as [Hid _]. apply Z.eqb_eq in Hid. exact Hid.
Qed.

(** ** Enabling and disabling a subscription *)

Lemma find_replace_subscription_other name other l sub sub' :
  NoDup (map sub_id l) ->
  find (fun s => String.eqb (sub_name s) name) l = Some sub ->
  sub_id sub' = sub_id sub ->
  sub_name sub' = sub_name sub ->
  other <> name ->
  find (fun s => String.eqb (sub_name s) other) (replace_subscription sub' l)
  = find (fun s => String.eqb (sub_name s) other) l.
Proof.
  intros Hnodup Hfind Hid Hname Hother.
  assert (Hsubname : sub_name sub = name).
  { apply find_some in Hfind. destruct Hfind as [_ H].
    apply String.eqb_eq in H. exact H. }
  induction l as [|s l IH]; simpl in *; [reflexivity|].
  inversion Hnodup as [|x xs Hnotin Hnodup']; subst x xs.
  destruct (String.eqb (sub_name s) name) eqn:Hs.
  - inversion Hfind; subst s. rewrite Hid, Z.eqb_refl. simpl.
    rewrite Hname, Hsubname.
    destruct (String.eqb_spec name other) as [E|_]; [congruence|reflexivity].
  - destruct (sub_id s =? sub_id sub') eqn:E.
    + apply Z.eqb_eq in E. exfalso. apply Hnotin.
      rewrite E, Hid. apply (find_subscription_id_in name l sub Hfind).
    + simpl. rewrite IH; auto.
Qed.

Lemma with_enabled_same sub :
  with_enabled (enabled sub) sub = sub.
Proof. destruct sub; reflexivity. Qed.

Lemma set_catalog_same b : set_catalog (catalog b) b = b.
Proof. destruct b; reflexivity. Qed.

Section TransactionProperties.

Variable in_transaction_block : bool.

Lemma disable_run b sub_name immediate sub local :
  find_subscription sub_name (catalog b) = Some sub ->
  local_node (catalog b) = Some local ->
  spock_alter_subscription_disable in_transaction_block sub_name immediate b
  = if immediate
    then if in_transaction_block
         then Failed (ErrInTransactionBlock "alter_subscription_disable")
                     (after_alter (with_enabled false sub) b)
         else Done true (note_effect (EffKillApply (sub_id sub))
                           (after_alter (with_enabled false sub) b))
    else Done true (after_alter (with_enabled false sub) b).
Proof.
  intros Hsub Hlocal.
  unfold spock_alter_subscription_disable, bbind, lift,
    get_subscription_by_name, get_local_node, alter_subscription, modify.
  rewrite Hsub. simpl. rewrite set_catalog_same, Hlocal. simpl.
  rewrite set_catalog_same.
  destruct immediate; [destruct in_transaction_block|]; reflexivity.
Qed.

Lemma enable_run b sub_name immediate sub local :
  find_subscription sub_name (catalog b) = Some sub ->
  local_node (catalog b) = Some local ->
  spock_alter_subscription_enable in_transaction_block sub_name immediate b
  = if immediate && in_transaction_block
    then Failed (ErrInTransactionBlock "alter_subscription_enable")
                (after_alter (with_enabled true sub) b)
    else Done true (after_alter (with_enabled true sub) b).
Proof.
  intros Hsub Hlocal.
  unfold spock_alter_subscription_enable, bbind, lift,
    get_subscription_by_name, get_local_node, alter_subscription, modify.
  rewrite Hsub. simpl. rewrite set_catalog_same, Hlocal. simpl.
  rewrite set_catalog_same.
  destruct (immediate && in_transaction_block); reflexivity.
Qed.

End TransactionProperties.

(** X7: for a subscription that exists, on a node, enabling or disabling
    fails exactly when it is asked to be immediate inside a transaction
    block. The error comes after the row of the subscription is written,
    and before the apply worker is touched. *)
Theorem immediate_alter_refused_in_transaction_block
        in_transaction_block b sub_name immediate sub local :
  find_subscription sub_name (catalog b) = Some sub ->
  local_node (catalog b) = Some local ->
  let disabling := spock_alter_subscription_disable in_transaction_block
                     sub_name immediate b in
  let enabling := spock_alter_subscription_enable in_transaction_block
                    sub_name immediate b in
  (bfailed disabling = true <->
   immediate = true /\ in_transaction_block = true)
  /\ (bfailed enabling = true <->
      immediate = true /\ in_transaction_block = true)
  /\ (forall e b', disabling = Failed e b' ->
        e = ErrInTransactionBlock "alter_subscription_disable"
        /\ b' = after_alter (with_enabled false sub) b
        /\ backend_effects b' = backend_effects b)
  /\ (forall e b', enabling = Failed e b' ->
        e = ErrInTransactionBlock "alter_subscription_enable"
        /\ b' = after_alter (with_enabled true sub) b
        /\ backend_effects b' = backend_effects b).
Proof.
  intros Hsub Hlocal disabling enabling. subst disabling enabling.
  rewrite (disable_run in_transaction_block b sub_name immediate sub local
             Hsub Hlocal).
  rewrite (enable_run in_transaction_block b sub_name immediate sub local
             Hsub Hlocal).
  destruct immediate, in_transaction_block; simpl;
    (split; [split; [try discriminate; tauto
                    | intros [? ?]; try discriminate; reflexivity]|]);
    (split; [split; [try discriminate; tauto
                    | intros [? ?]; try discriminate; reflexivity]|]);
    split; intros e b' H; inversion H; subst; auto.
Qed.

(** X8: outside a transaction block, or when not asked to be immediate,
    the call to disable a subscription that exists returns true, leaves
    the subscription disabled and every subscription of another name as it
    was, and kills the apply worker of the subscription exactly when it is
    immediate; the call to enable returns true, leaves the subscription
    enabled and never touches a worker. *)
Theorem alter_enabled_changes_one_subscription
        in_transaction_block b sub_name immediate sub local :
  NoDup (map sub_id (subscriptions (catalog b))) ->
  find_subscription sub_name (catalog b) = Some sub ->
  local_node (catalog b) = Some local ->
  immediate && in_transaction_block = false ->
  (exists b',
      spock_alter_subscription_disable in_transaction_block sub_name
                                       immediate b = Done true b'
      /\ find_subscription sub_name (catalog b')
         = Some (with_enabled false sub)
      /\ (forall other, other <> sub_name ->
            find_subscription other (catalog b')
            = find_subscription other (catalog b))
      /\ backend_effects b'
         = (backend_effects b
            ++ if immediate then [EffKillApply (sub_id sub)] else [])%list)
  /\ (exists b',
        spock_alter_subscription_enable in_transaction_block sub_name
                                        immediate b = Done true b'
        /\ find_subscription sub_name (catalog b')
           = Some (with_enabled true sub)
        /\ (forall other, other <> sub_name ->
              find_subscription other (catalog b')
              = find_subscription other (catalog b))
        /\ backend_effects b' = backend_effects b).
Proof.
  intros Hnodup Hsub Hlocal Hallowed.
  assert (Hrow : forall flag,
    find_subscription sub_name
      (catalog (after_alter (with_enabled flag sub) b))
    = Some (with_enabled flag sub)).
  { intros flag. unfold find_subscription. simpl.
    apply (find_replace_subscription sub_name _ sub); auto. }
  assert (Hothers : forall flag other, other <> sub_name ->
    find_subscription other (catalog (after_alter (with_enabled flag sub) b))
    = find_subscription other (catalog b)).
  { intros flag other Hother. unfold find_subscription. simpl.
    apply (find_replace_subscription_other sub_name other _ sub); auto. }
  split.
  - rewrite (disable_run in_transaction_block b sub_name immediate sub local
               Hsub Hlocal).
    destruct immediate; [destruct in_transaction_block; [discriminate|]|];
      eexists; (split; [reflexivity|]); (split; [apply Hrow|]);
      (split; [apply Hothers|]); simpl; rewrite ?app_nil_r; reflexivity.
  - rewrite (enable_run in_transaction_block b sub_name immediate sub local
               Hsub Hlocal).
    rewrite Hallowed.
    eexists. split; [reflexivity|]. split; [apply Hrow|].
    split; [apply Hothers | reflexivity].
Qed.

(** X9: disabling an enabled subscription and enabling it again, neither
    immediate, gives back the backend as it was. *)
Theorem disable_then_enable_restores in_transaction_block b sub_name sub local :
  NoDup (map sub_id (subscriptions (catalog b))) ->
  find_subscription sub_name (catalog b) = Some sub ->
  local_node (catalog b) = Some local ->
  enabled sub = true ->
  exists b1,
    spock_alter_subscription_disable in_transaction_block sub_name false b
    = Done true b1
    /\ spock_alter_subscription_enable in_transaction_block sub_name false b1
       = Done true b.
Proof.
  intros Hnodup Hsub Hlocal Henabled.
  rewrite (disable_run in_transaction_block b sub_name false sub local
             Hsub Hlocal).
  eexists. split; [reflexivity|].
  assert (Hsub1 : find_subscription sub_name
                    (catalog (after_alter (with_enabled false sub) b))
                  = Some (with_enabled false sub)).
  { unfold find_subscription. simpl.
    apply (find_replace_subscription sub_name _ sub); auto. }
  rewrite (enable_run in_transaction_block _ sub_name false
             (with_enabled false sub) local Hsub1 Hlocal).
  simpl. f_equal. unfold after_alter. simpl.
  change (with_enabled true (with_enabled false sub))
    with (with_enabled true sub).
  rewrite <- Henabled, with_enabled_same.
  rewrite (replace_subscription_back sub_name _ sub (with_enabled false sub));
    auto.
  destruct b as [db sets origins effs]. destruct db. reflexivity.
Qed.

(** ** Nodes and their interfaces *)

Lemma lift_get_node_subscriptions nodeid origin b :
  lift (get_node_subscriptions nodeid origin) b
  = Done (filter (fun s => if origin then if_nodeid (origin_if s) =? nodeid
                           else if_nodeid (target_if s) =? nodeid)
                 (subscriptions (catalog b))) b.
Proof.
  unfold lift, get_node_subscriptions, gets. rewrite set_catalog_same.
  reflexivity.
Qed.

Lemma length_filter_zero {A} (p : A -> bool) l :
  Nat.eqb (List.length (filter p l)) 0 = negb (existsb p l).
Proof.
  induction l as [|x l IH]; simpl; [reflexivity|].
  destruct (p x); simpl; [reflexivity | exact IH].
Qed.

Lemma node_has_subscriptions_split nodeid db :
  negb (Nat.eqb (List.length
                   (filter (fun s => if_nodeid (origin_if s) =? nodeid)
                           (subscriptions db))) 0)
  || negb (Nat.eqb (List.length
                      (filter (fun s => if_nodeid (target_if s) =? nodeid)
                              (subscriptions db))) 0)
  = node_has_subscriptions nodeid db.
Proof.
  unfold node_has_subscriptions. rewrite !length_filter_zero, !negb_involutive.
  induction (subscriptions db) as [|s l IH]; simpl; [reflexivity|].
  rewrite <- IH.
  destruct (if_nodeid (origin_if s) =? nodeid),
           (if_nodeid (target_if s) =? nodeid),
           (existsb (fun s0 => if_nodeid (origin_if s0) =? nodeid) l),
           (existsb (fun s0 => if_nodeid (target_if s0) =? nodeid) l);
    reflexivity.
Qed.

Lemma drop_node_run drop_slots b node_name ifexists n :
  find_node node_name (catalog b) = Some n ->
  spock_drop_node drop_slots node_name ifexists b
  = if node_has_subscriptions (node_id n) (catalog b)
    then Failed (ErrNodeHasSubscriptions node_name) b
    else if is_local_node (node_id n) (catalog b)
    then match drop_slots with
         | SpiRaised => Failed (ErrSlotsStillActive node_name) b
         | SpiResult res =>
             if negb (res =? SPI_OK_SELECT)
             then Failed (ErrSPIQueryFailed res) b
             else Done true
                    (without_node (node_id n)
                       (set_catalog (set_local_node None (catalog b))
                                    (note_effect EffDropLocalSlots b)))
         end
    else Done true (without_node (node_id n) b).
Proof.
  intros Hnode.
  unfold spock_drop_node, bbind at 1, get_node_by_name_or. rewrite Hnode.
  unfold bbind at 1. rewrite lift_get_node_subscriptions.
  unfold bbind at 1. rewrite lift_get_node_subscriptions.
  unfold bbind at 1.
  rewrite (node_has_subscriptions_split (node_id n) (catalog b)).
  destruct (node_has_subscriptions (node_id n) (catalog b)); [reflexivity|].
  unfold bret at 1. unfold bbind at 1. unfold is_local_node.
  destruct (local_node (catalog b)) as [local|].
  - destruct (node_id (node_of local) =? node_id n).
    + unfold bbind at 1. destruct drop_slots as [|res]; [reflexivity|].
      destruct (negb (res =? SPI_OK_SELECT)); reflexivity.
    + reflexivity.
  - reflexivity.
Qed.

(** X10: [spock_drop_node] changes nothing when there is no node of the
    name (false with [ifexists], an error without), and it refuses, with
    nothing changed, to drop a node that a subscription has as its origin
    or as its target. *)
Theorem drop_node_refuses_node_with_subscriptions
        drop_slots b node_name ifexists :
  (find_node node_name (catalog b) = None ->
   spock_drop_node drop_slots node_name ifexists b
   = if ifexists then Done false b
     else Failed (ErrNodeNotFound node_name) b)
  /\ (forall n s,
        find_node node_name (catalog b) = Some n ->
        In s (subscriptions (catalog b)) ->
        if_nodeid (origin_if s) = node_id n
        \/ if_nodeid (target_if s) = node_id n ->
        spock_drop_node drop_slots node_name ifexists b
        = Failed (ErrNodeHasSubscriptions node_name) b).
Proof.
  split.
  - intros Hnone. unfold spock_drop_node, bbind, get_node_by_name_or.
    rewrite Hnone. destruct ifexists; reflexivity.
  - intros n s Hnode Hin Huses.
    rewrite (drop_node_run drop_slots b node_name ifexists n Hnode).
    assert (H : node_has_subscriptions (node_id n) (catalog b) = true).
    { unfold node_has_subscriptions. apply existsb_exists. exists s.
      split; [exact Hin|]. apply orb_true_iff.
      destruct Huses as [H|H]; [left|right]; apply Z.eqb_eq; exact H. }
    rewrite H. reflexivity.
Qed.


Lemma bforeach_check {A} (test : A -> bool) (err : A -> BackendError)
      (l : list A) b :
  bforeach l (fun x => if test x then bereport (err x) else bret tt) b
  = match find test l with
    | Some x => Failed (err x) b
    | None => Done tt b
    end.
Proof.
  induction l as [|x l IH]; simpl; [reflexivity|].
  unfold bbind. destruct (test x); [reflexivity | exact IH].
Qed.

Lemma find_interface_none_key nodeid name l :
  find (interface_matches nodeid name) l = None ->
  ~ In (nodeid, name) (map interface_key l).
Proof.
  intros Hnone Hin. apply in_map_iff in Hin. destruct Hin as (i & Hkey & Hin).
  pose proof (find_none _ _ Hnone i Hin) as H.
  unfold interface_matches in H. unfold interface_key in Hkey.
  inversion Hkey; subst. rewrite Z.eqb_refl, String.eqb_refl in H.
  discriminate.
Qed.

Lemma find_interface_unique nodeid name l i :
  NoDup (map interface_key l) ->
  In i l -> if_nodeid i = nodeid -> if_name i = name ->
  find (interface_matches nodeid name) l = Some i.
Proof.
  intros Hnodup Hin Hid Hname.
  induction l as [|x l IH]; simpl in *; [contradiction|].
  inversion Hnodup as [|k ks Hnotin Hnodup']; subst k ks.
  unfold interface_matches at 1.
  destruct Hin as [-> | Hin].
  - rewrite Hid, Hname, Z.eqb_refl, String.eqb_refl. reflexivity.
  - destruct ((if_nodeid x =? nodeid) && String.eqb (if_name x) name) eqn:Hx.
    + exfalso. apply Hnotin. apply andb_true_iff in Hx. destruct Hx as [H1 H2].
      apply Z.eqb_eq in H1. apply String.eqb_eq in H2.
      apply in_map_iff. exists i. split; [|exact Hin].
      unfold interface_key. congruence.
    + apply IH; assumption.
Qed.

Lemma find_app_missing {A} (p : A -> bool) l1 l2 :
  find p l1 = None -> find p (l1 ++ l2) = find p l2.
Proof.
  induction l1 as [|x l1 IH]; simpl; [reflexivity|].
  destruct (p x); [discriminate | exact IH].
Qed.

Lemma NoDup_app_one {A} (l : list A) (x : A) :
  NoDup l -> ~ In x l -> NoDup (l ++ [x]).
Proof.
  induction l as [|y l IH]; simpl; intros Hnd Hnin.
  - constructor; [tauto | constructor].
  - inversion Hnd; subst. constructor.
    + intros Hin. apply in_app_or in Hin. destruct Hin as [Hin|[E|[]]].
      * contradiction.
      * subst. apply Hnin. left. reflexivity.
    + apply IH; [assumption|]. intros Hin. apply Hnin. right. exact Hin.
Qed.

Section NodeInterfaceProperties.

Variable gen_interface_id : Oid -> string -> Oid.

Lemma add_interface_run b node_name if_name if_dsn n :
  find_node node_name (catalog b) = Some n ->
  spock_alter_node_add_interface gen_interface_id node_name if_name if_dsn b
  = match find_node_interface (node_id n) if_name (catalog b) with
    | Some _ => Failed (ErrInterfaceExists node_name if_name) b
    | None =>
        let newif := mkInterface (gen_interface_id (node_id n) if_name)
                                 if_name (node_id n) if_dsn in
        Done (if_id newif)
             (set_catalog
                (log_effect (EffCreateNodeInterface newif)
                   (set_node_interfaces
                      (node_interfaces (catalog b) ++ [newif]) (catalog b)))
                b)
    end.
Proof.
  intros Hnode.
  unfold spock_alter_node_add_interface, bbind, get_node_by_name_or, bgets.
  rewrite Hnode.
  destruct (find_node_interface (node_id n) if_name (catalog b));
    reflexivity.
Qed.

(** X12: [spock_alter_node_add_interface] fails, with nothing changed, for
    a node that does not exist and for an interface name the node has
    already. For a name that is new to the node it returns the identifier
    of the new interface, which is then the one found under the node and
    the name; the interfaces there were are all kept, and no node has two
    interfaces of one name if none had before. *)
Theorem add_interface_keeps_names_unique b node_name if_name if_dsn :
  (find_node node_name (catalog b) = None ->
   spock_alter_node_add_interface gen_interface_id node_name if_name if_dsn b
   = Failed (ErrNodeNotFound node_name) b)
  /\ (forall n i,
        find_node node_name (catalog b) = Some n ->
        find_node_interface (node_id n) if_name (catalog b) = Some i ->
        spock_alter_node_add_interface gen_interface_id node_name if_name
                                       if_dsn b
        = Failed (ErrInterfaceExists node_name if_name) b)
  /\ (forall n,
        find_node node_name (catalog b) = Some n ->
        find_node_interface (node_id n) if_name (catalog b) = None ->
        let newif := mkInterface (gen_interface_id (node_id n) if_name)
                                 if_name (node_id n) if_dsn in
        exists b',
          spock_alter_node_add_interface gen_interface_id node_name if_name
                                         if_dsn b = Done (if_id newif) b'
          /\ node_interfaces (catalog b')
             = (node_interfaces (catalog b) ++ [newif])%list
          /\ find_node_interface (node_id n) if_name (catalog b')
             = Some newif
          /\ (NoDup (map interface_key (node_interfaces (catalog b))) ->
              NoDup (map interface_key (node_interfaces (catalog b'))))).
Proof.
  split; [|split].
  - intros Hnone.
    unfold spock_alter_node_add_interface, bbind, get_node_by_name_or.
    rewrite Hnone. reflexivity.
  - intros n i Hnode Hif.
    rewrite (add_interface_run b node_name if_name if_dsn n Hnode), Hif.
    reflexivity.
  - intros n Hnode Hif newif.
    rewrite (add_interface_run b node_name if_name if_dsn n Hnode), Hif.
    eexists. split; [reflexivity|]. simpl.
    split; [reflexivity|]. split.
    + unfold find_node_interface in *. simpl.
      rewrite (find_app_missing _ _ _ Hif). simpl.
      unfold interface_matches. simpl.
      rewrite Z.eqb_refl, String.eqb_refl. reflexivity.
    + intros Hnodup. rewrite map_app. simpl.
      apply NoDup_app_one; [exact Hnodup|].
      apply (find_interface_none_key _ _ _ Hif).
Qed.

End NodeInterfaceProperties.

Lemma drop_interface_run b node_name if_name n :
  find_node node_name (catalog b) = Some n ->
  spock_alter_node_drop_interface node_name if_name b
  = match find_node_interface (node_id n) if_name (catalog b) with
    | None => Failed (ErrInterfaceMissing if_name node_name) b
    | Some oldif =>
        match find (fun sub => if_id oldif =? if_id (origin_if sub))
                   (filter (fun s => if_nodeid (origin_if s) =? node_id n)
                           (subscriptions (catalog b))) with
        | Some sub =>
            Failed (ErrInterfaceInUse (name_of_interface oldif)
                                      (name_of_node n) (sub_name sub)) b
        | None =>
            Done true
                 (set_catalog
                    (set_node_interfaces
                       (filter (fun i => negb (if_id i =? if_id oldif))
                               (node_interfaces (catalog b))) (catalog b)) b)
        end
    end.
Proof.
  intros Hnode.
  unfold spock_alter_node_drop_interface, bbind at 1, get_node_by_name_or.
  rewrite Hnode. unfold bbind at 1, bgets.
  destruct (find_node_interface (node_id n) if_name (catalog b))
    as [oldif|]; [|reflexivity].
  unfold bbind at 1. rewrite lift_get_node_subscriptions.
  unfold bbind at 1.
  rewrite (bforeach_check
             (fun sub => if_id oldif =? if_id (origin_if sub))
             (fun sub => ErrInterfaceInUse (name_of_interface oldif)
                                           (name_of_node n) (sub_name sub))).
  destruct (find _ (filter _ (subscriptions (catalog b)))); reflexivity.
Qed.

(** X13: [spock_alter_node_drop_interface] fails, with nothing changed,
    when the node has no interface of the name and when a subscription to
    the node uses the interface. When no subscription to the node has the
    interface as its origin interface it returns true: no interface with
    the identifier is left, and the other interfaces, the nodes and the
    subscriptions stay. *)
Theorem drop_interface_refuses_interface_in_use b node_name if_name n :
  find_node node_name (catalog b) = Some n ->
  (find_node_interface (node_id n) if_name (catalog b) = None ->
   spock_alter_node_drop_interface node_name if_name b
   = Failed (ErrInterfaceMissing if_name node_name) b)
  /\ (forall oldif sub,
        find_node_interface (node_id n) if_name (catalog b) = Some oldif ->
        In sub (subscriptions (catalog b)) ->
        if_nodeid (origin_if sub) = node_id n ->
        if_id (origin_if sub) = if_id oldif ->
        exists user,
          spock_alter_node_drop_interface node_name if_name b
          = Failed (ErrInterfaceInUse (name_of_interface oldif)
                                      (name_of_node n) user) b)
  /\ (forall oldif,
        find_node_interface (node_id n) if_name (catalog b) = Some oldif ->
        (forall sub, In sub (subscriptions (catalog b)) ->
           if_nodeid (origin_if sub) = node_id n ->
           if_id (origin_if sub) <> if_id oldif) ->
        exists b',
          spock_alter_node_drop_interface node_name if_name b = Done true b'
          /\ (forall i, In i (node_interfaces (catalog b')) <->
                In i (node_interfaces (catalog b)) /\ if_id i <> if_id oldif)
          /\ nodes (catalog b') = nodes (catalog b)
          /\ subscriptions (catalog b') = subscriptions (catalog b)).
Proof.
  intros Hnode.
  rewrite (drop_interface_run b node_name if_name n Hnode).
  split; [|split].
  - intros ->. reflexivity.
  - intros oldif sub -> Hin Hnodeid Hid.
    destruct (find _ (filter _ (subscriptions (catalog b)))) as [user|] eqn:Hf.
    + exists (sub_name user). reflexivity.
    + exfalso.
      assert (Hin' : In sub (filter (fun s => if_nodeid (origin_if s)
                                              =? node_id n)
                                    (subscriptions (catalog b)))).
      { apply filter_In. split; [exact Hin|]. apply Z.eqb_eq. exact Hnodeid. }
      pose proof (find_none _ _ Hf sub Hin') as H. simpl in H.
      rewrite Hid, Z.eqb_refl in H. discriminate.
  - intros oldif -> Hfree.
    destruct (find _ (filter _ (subscriptions (catalog b)))) as [user|] eqn:Hf.
    + exfalso. apply find_some in Hf. destruct Hf as [Hin Hid].
      apply filter_In in Hin. destruct Hin as [Hin Hnodeid].
      apply Z.eqb_eq in Hnodeid, Hid.
      apply (Hfree user Hin Hnodeid). symmetry. exact Hid.
    + eexists. split; [reflexivity|]. simpl. split.
      { intros i. rewrite filter_In, negb_true_iff, Z.eqb_neq. tauto. }
      split; reflexivity.
Qed.

Lemma filter_app_fresh {A} (p : A -> bool) (l : list A) (x : A) :
  (forall y, In y l -> p y = true) -> p x = false ->
  filter p (l ++ [x]) = l.
Proof.
  intros Hall Hx. rewrite filter_app. simpl. rewrite Hx, app_nil_r.
  induction l as [|y l IH]; simpl; [reflexivity|].
  rewrite (Hall y (or_introl eq_refl)), IH; [reflexivity|].
  intros z Hz. apply Hall. right. exact Hz.
Qed.

(** X14: an interface added to a node under a new name can be dropped
    again, which leaves the interfaces, the nodes and the subscriptions as
    they were; the identifier the interface gets has to be one that no
    interface and no origin interface of a subscription has. *)
Theorem add_then_drop_interface
        gen_interface_id b node_name if_name if_dsn n :
  find_node node_name (catalog b) = Some n ->
  find_node_interface (node_id n) if_name (catalog b) = None ->
  (forall i, In i (node_interfaces (catalog b)) ->
             if_id i <> gen_interface_id (node_id n) if_name) ->
  (forall s, In s (subscriptions (catalog b)) ->
             if_id (origin_if s) <> gen_interface_id (node_id n) if_name) ->
  exists b1 b2,
    spock_alter_node_add_interface gen_interface_id node_name if_name if_dsn b
    = Done (gen_interface_id (node_id n) if_name) b1
    /\ spock_alter_node_drop_interface node_name if_name b1 = Done true b2
    /\ node_interfaces (catalog b2) = node_interfaces (catalog b)
    /\ nodes (catalog b2) = nodes (catalog b)
    /\ subscriptions (catalog b2) = subscriptions (catalog b).
Proof.
  intros Hnode Hnone Hfresh Hunused.
  rewrite (add_interface_run gen_interface_id b node_name if_name if_dsn n
             Hnode), Hnone.
  set (newif := mkInterface (gen_interface_id (node_id n) if_name) if_name
                            (node_id n) if_dsn).
  eexists. eexists. split; [reflexivity|].
  match goal with
  | |- spock_alter_node_drop_interface _ _ ?b1 = _ /\ _ =>
      assert (Hnode1 : find_node node_name (catalog b1) = Some n)
        by exact Hnode;
      rewrite (drop_interface_run b1 node_name if_name n Hnode1)
  end.
  assert (Hfound : find_node_interface (node_id n) if_name
                     (log_effect (EffCreateNodeInterface newif)
                        (set_node_interfaces
                           (node_interfaces (catalog b) ++ [newif])
                           (catalog b)))
                   = Some newif).
  { unfold find_node_interface in *. simpl.
    rewrite (find_app_missing _ _ _ Hnone). simpl. unfold interface_matches.
    simpl. rewrite Z.eqb_refl, String.eqb_refl. reflexivity. }
  simpl catalog. rewrite Hfound.
  destruct (find _ (filter _ _)) as [user|] eqn:Hf.
  { apply find_some in Hf. destruct Hf as [Hin Huse].
    apply filter_In in Hin. destruct Hin as [Hin _]. simpl in Hin.
    apply Z.eqb_eq in Huse. simpl in Huse.
    exfalso. apply (Hunused user Hin). symmetry. exact Huse. }
  split; [reflexivity|]. simpl.
  split; [|split; reflexivity].
  apply filter_app_fresh.
  - intros i Hi. apply negb_true_iff, Z.eqb_neq. apply Hfresh, Hi.
  - simpl. rewrite Z.eqb_refl. reflexivity.
Qed.

(** ** Dropping a subscription *)

Lemma existsb_filter {A} (p q : A -> bool) l :
  existsb q (filter p l) = existsb (fun x => p x && q x) l.
Proof.
  induction l as [|x l IH]; simpl; [reflexivity|].
  destruct (p x); simpl; rewrite IH; reflexivity.
Qed.

Lemma drop_subscription_records_run b sub local :
  local_node (catalog b) = Some local ->
  drop_subscription_records sub b
  = if if_nodeid (origin_if sub) =? node_id (node local)
    then Done true (without_subscription (sub_id sub) b)
    else Done false (before_wait sub b).
Proof.
  intros Hlocal.
  unfold drop_subscription_records, bbind at 1, lift at 1, get_local_node.
  rewrite Hlocal, set_catalog_same.
  unfold bbind at 1, drop_subscription_sync_status, bmodify.
  unfold bbind at 1, drop_subscription, bmodify.
  unfold node_of.
  destruct (if_nodeid (origin_if sub) =? node_id (node local));
    [reflexivity|].
  unfold bbind at 1. rewrite lift_get_node_subscriptions.
  unfold bbind at 1. unfold before_wait, origin_still_subscribed.
  simpl. rewrite length_filter_zero, existsb_filter.
  destruct (existsb _ (subscriptions (catalog b))); reflexivity.
Qed.

Section DropSubscriptionProperties.

Variable net : Network.
Variable remote_slot_dropped : string -> string -> bool.

(** X15: [spock_drop_subscription] changes nothing when there is no
    subscription of the name (false with [ifexists], an error without) and
    when the database is not a node, whatever the apply worker does. *)
Theorem drop_subscription_missing_changes_nothing world sub_name ifexists b :
  (find_subscription sub_name (catalog b) = None ->
   spock_drop_subscription net remote_slot_dropped world sub_name ifexists b
   = (if ifexists then Returned false
      else Raised (ErrSpock (ErrSubscriptionNotFound sub_name)), b))
  /\ (forall sub,
        find_subscription sub_name (catalog b) = Some sub ->
        local_node (catalog b) = None ->
        spock_drop_subscription net remote_slot_dropped world sub_name
                                ifexists b
        = (Raised (ErrSpock ErrNotANode), b)).
Proof.
  split.
  - intros Hnone. unfold spock_drop_subscription, get_subscription_by_name_or.
    rewrite Hnone. destruct ifexists; reflexivity.
  - intros sub Hsub Hnone.
    unfold spock_drop_subscription, get_subscription_by_name_or.
    rewrite Hsub.
    unfold drop_subscription_records, bbind at 1, lift at 1, get_local_node.
    rewrite Hnone, set_catalog_same. reflexivity.
Qed.

Lemma drop_subscription_run world sub_name ifexists b sub local :
  find_subscription sub_name (catalog b) = Some sub ->
  local_node (catalog b) = Some local ->
  spock_drop_subscription net remote_slot_dropped world sub_name ifexists b
  = if if_nodeid (origin_if sub) =? node_id (node local)
    then (Returned true, without_subscription (sub_id sub) b)
    else match wait_for_apply_to_die world with
         | Returned _ =>
             (Returned true,
              set_replication_origin
                (filter (fun o => negb (String.eqb o (slot_name sub)))
                        (replication_origin b))
                (note_effect
                   (if connect_ok net (if_dsn (origin_if sub))
                       && remote_slot_dropped (if_dsn (origin_if sub))
                                              (slot_name sub)
                    then EffDropRemoteSlot (if_dsn (origin_if sub))
                                           (slot_name sub)
                    else EffWarningSlotNotDropped (slot_name sub))
                   (before_wait sub b)))
         | Raised e => (Raised e, before_wait sub b)
         | ProcExit => (ProcExit, before_wait sub b)
         | StillWaiting => (StillWaiting, before_wait sub b)
         end.
Proof.
  intros Hsub Hlocal.
  unfold spock_drop_subscription, get_subscription_by_name_or.
  rewrite Hsub, (drop_subscription_records_run b sub local Hlocal).
  destruct (if_nodeid (origin_if sub) =? node_id (node local));
    [reflexivity|].
  destruct (wait_for_apply_to_die world); try reflexivity.
  unfold drop_subscription_slot_and_origin, bbind, bmodify.
  unfold before_wait.
  destruct (connect_ok net (if_dsn (origin_if sub))
            && remote_slot_dropped (if_dsn (origin_if sub)) (slot_name sub));
    destruct (origin_still_subscribed (if_nodeid (origin_if sub))
                                      (sub_id sub) (catalog b));
    reflexivity.
Qed.

(** X16: for a subscription that exists, on a node,
    [spock_drop_subscription] returns exactly when the local node is the
    provider or the apply worker is found dead, before an interrupt and
    before the death of the postmaster. It then returns true, and the row
    of the subscription and all its sync-status records are gone, while
    those of other subscriptions are kept. *)
Theorem drop_subscription_removes_its_records
        world sub_name ifexists b sub local :
  find_subscription sub_name (catalog b) = Some sub ->
  local_node (catalog b) = Some local ->
  let call := spock_drop_subscription net remote_slot_dropped world sub_name
                                      ifexists b in
  (if_nodeid (origin_if sub) = node_id (node local)
   \/ wait_for_apply_to_die world = Returned tt ->
   fst call = Returned true
   /\ (forall s, In s (subscriptions (catalog (snd call))) <->
         In s (subscriptions (catalog b)) /\ sub_id s <> sub_id sub)
   /\ (forall r, In r (local_sync_status (catalog (snd call))) <->
         In r (local_sync_status (catalog b)) /\ subid r <> sub_id sub))
  /\ (forall r, fst call = Returned r ->
        r = true
        /\ (if_nodeid (origin_if sub) = node_id (node local)
            \/ wait_for_apply_to_die world = Returned tt)).
Proof.
  intros Hsub Hlocal call. subst call.
  rewrite (drop_subscription_run world sub_name ifexists b sub local
             Hsub Hlocal).
  assert (Hsubs : forall b0,
    catalog b0 = catalog (without_subscription (sub_id sub) b)
    \/ catalog b0 = catalog (without_origin_node (if_nodeid (origin_if sub))
                               (without_subscription (sub_id sub) b)) ->
    (forall s, In s (subscriptions (catalog b0)) <->
       In s (subscriptions (catalog b)) /\ sub_id s <> sub_id sub)
    /\ (forall r, In r (local_sync_status (catalog b0)) <->
          In r (local_sync_status (catalog b)) /\ subid r <> sub_id sub)).
  { intros b0 [-> | ->]; simpl; split; intros x;
      rewrite filter_In, negb_true_iff, Z.eqb_neq; tauto. }
  assert (Hbefore :
    catalog (before_wait sub b)
    = catalog (without_subscription (sub_id sub) b)
    \/ catalog (before_wait sub b)
       = catalog (without_origin_node (if_nodeid (origin_if sub))
                    (without_subscription (sub_id sub) b))).
  { unfold before_wait.
    destruct (origin_still_subscribed _ _ _); [left | right]; reflexivity. }
  destruct (if_nodeid (origin_if sub) =? node_id (node local)) eqn:Hprov.
  - apply Z.eqb_eq in Hprov.
    destruct (Hsubs _ (or_introl eq_refl)) as [H1 H2].
    simpl. split.
    + intros _. split; [reflexivity|]. split; [exact H1 | exact H2].
    + intros r H. inversion H. split; [reflexivity | left; exact Hprov].
  - apply Z.eqb_neq in Hprov.
    destruct (Hsubs _ Hbefore) as [H1 H2].
    destruct (wait_for_apply_to_die world) as [[]|e| |]; simpl; split;
      try (intros [H|H]; [contradiction | discriminate H]);
      try (intros r H; discriminate H).
    + intros _. split; [reflexivity|]. split; [exact H1 | exact H2].
    + intros r H. inversion H. split; [reflexivity | right; reflexivity].
Qed.

(** X17: on the provider, where the origin of the subscription is the
    local node, [spock_drop_subscription] returns at once and touches
    nothing but the row and the sync-status records of the subscription. On
    a subscriber the node of the provider and its interfaces are dropped
    exactly when no other subscription has that node as its origin, and the
    apply worker of the subscription is killed. *)
Theorem drop_subscription_drops_unused_provider
        world sub_name ifexists b sub local :
  find_subscription sub_name (catalog b) = Some sub ->
  local_node (catalog b) = Some local ->
  let call := spock_drop_subscription net remote_slot_dropped world sub_name
                                      ifexists b in
  let origin := if_nodeid (origin_if sub) in
  (origin = node_id (node local) ->
   call = (Returned true, without_subscription (sub_id sub) b)
   /\ nodes (catalog (snd call)) = nodes (catalog b)
   /\ node_interfaces (catalog (snd call)) = node_interfaces (catalog b)
   /\ backend_effects (snd call) = backend_effects b
   /\ replication_origin (snd call) = replication_origin b)
  /\ (origin <> node_id (node local) ->
      (forall n, In n (nodes (catalog (snd call))) <->
         In n (nodes (catalog b))
         /\ (origin_still_subscribed origin (sub_id sub) (catalog b) = true
             \/ node_id n <> origin))
      /\ (forall i, In i (node_interfaces (catalog (snd call))) <->
            In i (node_interfaces (catalog b))
            /\ (origin_still_subscribed origin (sub_id sub) (catalog b) = true
                \/ if_nodeid i <> origin))
      /\ exists later,
           backend_effects (snd call)
           = (backend_effects b ++ EffKillApply (sub_id sub) :: later)%list).
Proof.
  intros Hsub Hlocal call origin. subst call origin.
  rewrite (drop_subscription_run world sub_name ifexists b sub local
             Hsub Hlocal).
  split; intros Hprov.
  - rewrite Hprov, Z.eqb_refl. simpl. repeat split.
  - apply Z.eqb_neq in Hprov. rewrite Hprov.
    assert (Hnodes :
      (forall n, In n (nodes (catalog (before_wait sub b))) <->
         In n (nodes (catalog b))
         /\ (origin_still_subscribed (if_nodeid (origin_if sub)) (sub_id sub)
                                     (catalog b) = true
             \/ node_id n <> if_nodeid (origin_if sub)))
      /\ (forall i, In i (node_interfaces (catalog (before_wait sub b))) <->
            In i (node_interfaces (catalog b))
            /\ (origin_still_subscribed (if_nodeid (origin_if sub))
                                        (sub_id sub) (catalog b) = true
                \/ if_nodeid i <> if_nodeid (origin_if sub)))
      /\ backend_effects (before_wait sub b)
         = (backend_effects b ++ [EffKillApply (sub_id sub)])%list).
    { unfold before_wait.
      destruct (origin_still_subscribed _ _ _); simpl.
      - repeat split; try tauto.
      - split; [|split; [|reflexivity]]; intros x;
          rewrite filter_In, negb_true_iff, Z.eqb_neq;
          split; try tauto; intros [H [H'|H']]; try discriminate; tauto. }
    destruct Hnodes as (Hn & Hi & He).
    destruct (wait_for_apply_to_die world) as [[]|e| |]; simpl;
      (split; [exact Hn|]); (split; [exact Hi|]);
      [ exists [if connect_ok net (if_dsn (origin_if sub))
                   && remote_slot_dropped (if_dsn (origin_if sub))
                                          (slot_name sub)
                then EffDropRemoteSlot (if_dsn (origin_if sub)) (slot_name sub)
                else EffWarningSlotNotDropped (slot_name sub)]
      | exists nil | exists nil | exists nil ];
      unfold before_wait; destruct (origin_still_subscribed _ _ _); simpl;
      rewrite <- ?app_assoc; reflexivity.
Qed.

Lemma wait_for_apply_to_die_returns calm t later :
  Forall (fun c => apply_running c = true
                   /\ worker_interrupt_pending c = false
                   /\ worker_postmaster_death c = false) calm ->
  apply_running t = false ->
  wait_for_apply_to_die (calm ++ t :: later) = Returned tt.
Proof.
  induction 1 as [|c calm (Hrun & Hint & Hdeath) Hcalm IH]; intros Ht; simpl.
  - rewrite Ht. reflexivity.
  - rewrite Hrun, Hint, Hdeath. simpl. apply IH, Ht.
Qed.

(** X18: on a subscriber, once the apply worker is found dead after turns
    of the loop without interrupt, the call returns true whether the
    provider can be reached or not: the slot on the provider is dropped
    when it can, and a warning is left when it cannot, after the kill of
    the apply worker and with the same catalogs. The replication origin
    named after the slot is dropped locally either way. *)
Theorem drop_subscription_survives_unreachable_provider
        calm t later sub_name ifexists b sub local :
  find_subscription sub_name (catalog b) = Some sub ->
  local_node (catalog b) = Some local ->
  if_nodeid (origin_if sub) <> node_id (node local) ->
  Forall (fun c => apply_running c = true
                   /\ worker_interrupt_pending c = false
                   /\ worker_postmaster_death c = false) calm ->
  apply_running t = false ->
  let call := spock_drop_subscription net remote_slot_dropped
                (calm ++ t :: later) sub_name ifexists b in
  let reached := connect_ok net (if_dsn (origin_if sub))
                 && remote_slot_dropped (if_dsn (origin_if sub))
                                        (slot_name sub) in
  fst call = Returned true
  /\ catalog (snd call) = catalog (before_wait sub b)
  /\ backend_effects (snd call)
     = (backend_effects b
        ++ [EffKillApply (sub_id sub);
            if reached
            then EffDropRemoteSlot (if_dsn (origin_if sub)) (slot_name sub)
            else EffWarningSlotNotDropped (slot_name sub)])%list
  /\ (forall o, In o (replication_origin (snd call)) <->
        In o (replication_origin b) /\ o <> slot_name sub).
Proof.
  intros Hsub Hlocal Hprov Hcalm Ht call reached. subst call reached.
  rewrite (drop_subscription_run _ sub_name ifexists b sub local Hsub Hlocal).
  apply Z.eqb_neq in Hprov. rewrite Hprov.
  rewrite (wait_for_apply_to_die_returns calm t later Hcalm Ht).
  unfold before_wait. simpl.
  split; [reflexivity|]. split.
  { destruct (origin_still_subscribed _ _ _); reflexivity. }
  split.
  { destruct (origin_still_subscribed _ _ _); simpl;
      rewrite <- app_assoc; reflexivity. }
  intros o. rewrite filter_In, negb_true_iff, String.eqb_neq. tauto.
Qed.

End DropSubscriptionProperties.

(** ** Creating, then dropping a subscription *)

Section CreateThenDrop.

Variable gen_node_id : string -> Oid.
Variable gen_interface_id : Oid -> string -> Oid.
Variable gen_subscription_id : string -> Oid.
Variable make_slot_name : string -> string -> string -> string.
Variable net : Network.
Variable remote_slot_dropped : string -> string -> bool.

Lemma local_origin_interface_rows provider_dsn db :
  match local_origin_interface gen_node_id gen_interface_id provider_dsn
          (remote_node_info net provider_dsn) db with
  | Ok originif db' =>
      if_nodeid originif = origin_node_id gen_node_id net provider_dsn db
      /\ subscriptions db' = subscriptions db
      /\ local_sync_status db' = local_sync_status db
      /\ local_node db' = local_node db
      /\ dbname db' = dbname db
      /\ ((nodes db' = nodes db /\ node_interfaces db' = node_interfaces db)
          \/ exists n i,
               nodes db' = (nodes db ++ [n])%list
               /\ node_interfaces db' = (node_interfaces db ++ [i])%list
               /\ node_id n = origin_node_id gen_node_id net provider_dsn db
               /\ if_nodeid i = origin_node_id gen_node_id net provider_dsn db)
  | Raise _ db' => db' = db
  end.
Proof.
  unfold local_origin_interface, origin_node_id, bind, get_node_by_name, gets.
  destruct (find _ (nodes db)) as [existing|].
  - unfold get_node_interface_by_name.
    destruct (find _ (node_interfaces db)) as [existingif|] eqn:Hif;
      [|reflexivity].
    destruct (negb (strcmp (if_dsn existingif) provider_dsn =? 0));
      [reflexivity|].
    apply find_some in Hif. destruct Hif as [_ Hif].
    unfold interface_matches in Hif. apply andb_true_iff in Hif.
    destruct Hif as [Hid _]. apply Z.eqb_eq in Hid.
    simpl. repeat split; auto.
  - unfold create_node, create_node_interface, bind, modify, ret. simpl.
    destruct (node_id (remote_node_info net provider_dsn) =? InvalidOid);
      simpl; repeat split; auto; right; eexists; eexists;
      repeat split; reflexivity.
Qed.

Lemma create_subscription_rows
      db name provider_dsn rep_set_names sync_structure sync_data
      forward_origin_names apply_delay force_text_transfer id db1 :
  spock_create_subscription gen_node_id gen_interface_id
    gen_subscription_id make_slot_name net
    name provider_dsn rep_set_names sync_structure sync_data
    forward_origin_names apply_delay force_text_transfer db = Ok id db1 ->
  let origin := origin_node_id gen_node_id net provider_dsn db in
  id = gen_subscription_id name
  /\ local_node db1 = local_node db
  /\ local_sync_status db1
     = (local_sync_status db
        ++ [mkSync (create_subscription_sync_kind sync_structure sync_data)
                   id EmptyString EmptyString SYNC_STATUS_INIT
                   InvalidXLogRecPtr])%list
  /\ (exists sub, subscriptions db1 = (subscriptions db ++ [sub])%list
                  /\ sub_id sub = id
                  /\ sub_name sub = name
                  /\ if_nodeid (origin_if sub) = origin)
  /\ ((nodes db1 = nodes db /\ node_interfaces db1 = node_interfaces db)
      \/ exists n i,
           nodes db1 = (nodes db ++ [n])%list
           /\ node_interfaces db1 = (node_interfaces db ++ [i])%list
           /\ node_id n = origin /\ if_nodeid i = origin).
Proof.
  unfold spock_create_subscription, bind at 1 2 3 4 5.
  unfold get_local_node, spock_connect, spock_connect_replica.
  destruct (local_node db) as [localnode|] eqn:Hlocal; [|discriminate].
  destruct (connect_ok net provider_dsn);
    [|unfold ereport, ret; simpl; discriminate].
  destruct (connect_replica_ok net provider_dsn);
    [|unfold ereport, ret; simpl; discriminate].
  destruct (connect_ok net (if_dsn (node_if localnode)));
    [|unfold ereport, ret; simpl; discriminate].
  unfold ret at 1 2 3.
  pose proof (local_origin_interface_rows provider_dsn db) as Horigin.
  destruct (local_origin_interface _ _ _ _ db) as [originif db0 | e db0];
    [|discriminate].
  destruct Horigin as (Hnodeid & Hsubs & Hsync & Hloc & Hname & Hnodes).
  unfold bind at 1. unfold get_node_subscriptions, gets.
  unfold bind at 1.
  match goal with
  | |- context [check_overlapping_repsets ?a ?b ?c ?d] =>
      destruct (check_overlapping_repsets_reads a b c d) as [Hchk | [e Hchk]];
        rewrite Hchk
  end; [|discriminate].
  unfold create_subscription, create_local_sync_status, bind, modify, ret.
  simpl. intros H. inversion H; subst id db1; clear H. simpl.
  rewrite Hsubs, Hsync, Hloc.
  split; [reflexivity|]. split; [exact Hlocal|]. split; [reflexivity|].
  split; [|exact Hnodes].
  eexists. split; [reflexivity|]. repeat split. exact Hnodeid.
Qed.

Lemma find_app_last_fresh {A} (p : A -> bool) (l : list A) (x : A) :
  (forall y, In y l -> p y = false) -> p x = true ->
  find p (l ++ [x]) = Some x.
Proof.
  intros Hl Hx. induction l as [|y l IH]; simpl.
  - rewrite Hx. reflexivity.
  - rewrite (Hl y (or_introl eq_refl)). apply IH.
    intros z Hz. apply Hl. right. exact Hz.
Qed.

(** X19: [spock_drop_subscription] undoes [spock_create_subscription]. When
    no subscription has the new name or the identifier made for it, and no
    sync-status record has that identifier, then after a successful create
    the drop by the same name, with the apply worker found dead in its
    loop, returns true and leaves the subscriptions and the sync-status
    records as they were before the create. When the create also made the
    node of the provider, which no earlier row refers to, the drop removes
    that node and its interface again. *)
Theorem create_then_drop_subscription
        db name provider_dsn rep_set_names sync_structure sync_data
        forward_origin_names apply_delay force_text_transfer id db1
        world ifexists b :
  (forall s, In s (subscriptions db) ->
     sub_name s <> name
     /\ sub_id s <> gen_subscription_id name) ->
  (forall r, In r (local_sync_status db) ->
     subid r <> gen_subscription_id name) ->
  spock_create_subscription gen_node_id gen_interface_id
    gen_subscription_id make_slot_name net
    name provider_dsn rep_set_names sync_structure sync_data
    forward_origin_names apply_delay force_text_transfer db = Ok id db1 ->
  wait_for_apply_to_die world = Returned tt ->
  let origin := origin_node_id gen_node_id net provider_dsn db in
  let call := spock_drop_subscription net remote_slot_dropped world name
                ifexists (set_catalog db1 b) in
  fst call = Returned true
  /\ subscriptions (catalog (snd call)) = subscriptions db
  /\ local_sync_status (catalog (snd call)) = local_sync_status db
  /\ ((forall local, local_node db = Some local ->
         node_id (node local) <> origin) ->
      (forall n, In n (nodes db) -> node_id n <> origin) ->
      (forall i, In i (node_interfaces db) -> if_nodeid i <> origin) ->
      (forall s, In s (subscriptions db) ->
         if_nodeid (origin_if s) <> origin) ->
      nodes (catalog (snd call)) = nodes db
      /\ node_interfaces (catalog (snd call)) = node_interfaces db).
Proof.
  intros Hfresh Hsyncfresh Hcreate Hwait origin call.
  pose proof Hcreate as Hok.
  unfold spock_create_subscription, bind at 1, get_local_node in Hok.
  destruct (local_node db) as [local|] eqn:Hlocal; [clear Hok|discriminate].
  destruct (create_subscription_rows _ _ _ _ _ _ _ _ _ _ _ Hcreate)
    as (Hid & Hloc & Hsync & (sub & Hsubs & Hsubid & Hsubname & Horigin)
        & Hnodes).
  fold origin in Horigin, Hnodes.
  assert (Hfind : find_subscription name db1 = Some sub).
  { unfold find_subscription. rewrite Hsubs.
    apply find_app_last_fresh.
    - intros s Hs. apply String.eqb_neq. apply (Hfresh s Hs).
    - apply String.eqb_eq. exact Hsubname. }
  assert (Hsubs' :
    filter (fun s => negb (sub_id s =? sub_id sub)) (subscriptions db1)
    = subscriptions db).
  { rewrite Hsubs. apply filter_app_fresh.
    - intros s Hs. apply negb_true_iff, Z.eqb_neq. rewrite Hsubid, Hid.
      apply (Hfresh s Hs).
    - rewrite Z.eqb_refl. reflexivity. }
  assert (Hsync' :
    filter (fun r => negb (subid r =? sub_id sub)) (local_sync_status db1)
    = local_sync_status db).
  { rewrite Hsync. apply filter_app_fresh.
    - intros r Hr. apply negb_true_iff, Z.eqb_neq. rewrite Hsubid, Hid.
      apply (Hsyncfresh r Hr).
    - simpl. rewrite Hsubid, Z.eqb_refl. reflexivity. }
  subst call.
  rewrite (drop_subscription_run net remote_slot_dropped world name
             ifexists (set_catalog db1 b) sub local);
    [|exact Hfind|simpl; rewrite Hloc; exact Hlocal].
  rewrite Horigin, Hwait.
  assert (Hbefore :
    subscriptions (catalog (before_wait sub (set_catalog db1 b)))
    = subscriptions db
    /\ local_sync_status
         (catalog (before_wait sub (set_catalog db1 b)))
       = local_sync_status db).
  { unfold before_wait. destruct (origin_still_subscribed _ _ _); simpl;
      rewrite Hsubs', Hsync'; split; reflexivity. }
  split; [|split; [|split]].
  - destruct (origin =? node_id (node local)); reflexivity.
  - destruct (origin =? node_id (node local)); simpl;
      [exact Hsubs' | apply Hbefore].
  - destruct (origin =? node_id (node local)); simpl;
      [exact Hsync' | apply Hbefore].
  - intros Hnotlocal Hnonode Hnoif Hnosub.
    assert (Hneq : (origin =? node_id (node local)) = false).
    { apply Z.eqb_neq. intros E. apply (Hnotlocal local eq_refl).
      symmetry. exact E. }
    rewrite Hneq.
    assert (Hstill :
      origin_still_subscribed (if_nodeid (origin_if sub)) (sub_id sub) db1
      = false).
    { unfold origin_still_subscribed. rewrite Hsubs, existsb_app. simpl.
      rewrite Z.eqb_refl. simpl. rewrite orb_false_r.
      apply not_true_is_false. intros Hex.
      apply existsb_exists in Hex. destruct Hex as (s & Hs & Hp).
      apply andb_true_iff in Hp. destruct Hp as [_ Hp].
      apply Z.eqb_eq in Hp. rewrite Horigin in Hp.
      exact (Hnosub s Hs Hp). }
    assert (Hdropped :
      nodes (catalog (before_wait sub (set_catalog db1 b)))
      = nodes db
      /\ node_interfaces
           (catalog (before_wait sub (set_catalog db1 b)))
         = node_interfaces db).
    { unfold before_wait. simpl catalog at 1 3. rewrite Hstill. simpl.
      rewrite Horigin.
      destruct Hnodes as [[Hn Hi] | (n & i & Hn & Hi & Hnid & Hiid)].
      - rewrite Hn, Hi. split.
        + clear - Hnonode. induction (nodes db) as [|x l IH]; [reflexivity|].
          simpl. destruct (node_id x =? origin) eqn:E.
          * apply Z.eqb_eq in E. destruct (Hnonode x (or_introl eq_refl) E).
          * simpl. f_equal. apply IH. intros y Hy. apply Hnonode.
            right. exact Hy.
        + clear - Hnoif.
          induction (node_interfaces db) as [|x l IH]; [reflexivity|].
          simpl. destruct (if_nodeid x =? origin) eqn:E.
          * apply Z.eqb_eq in E. destruct (Hnoif x (or_introl eq_refl) E).
          * simpl. f_equal. apply IH. intros y Hy. apply Hnoif.
            right. exact Hy.
      - rewrite Hn, Hi. split; apply filter_app_fresh.
        + intros y Hy. apply negb_true_iff, Z.eqb_neq, Hnonode, Hy.
        + rewrite Hnid, Z.eqb_refl. reflexivity.
        + intros y Hy. apply negb_true_iff, Z.eqb_neq, Hnoif, Hy.
        + rewrite Hiid, Z.eqb_refl. reflexivity. }
    simpl. apply Hdropped.
Qed.

End CreateThenDrop.

(** ** Showing the sync status of a table *)

Lemma sync_status_unknown_or_named a :
  String.eqb (sync_status_to_string a) "unknown"
  = negb (existsb (Ascii.eqb a) named_statuses).
Proof. destruct a as [[] [] [] [] [] [] [] []]; reflexivity. Qed.

Lemma named_status_In a :
  existsb (Ascii.eqb a) named_statuses = true <-> In a named_statuses.
Proof.
  rewrite existsb_exists. split.
  - intros (x & Hx & E). apply Ascii.eqb_eq in E. subst. exact Hx.
  - intros H. exists a. split; [exact H | apply Ascii.eqb_refl].
Qed.

Lemma sync_status_unknown_iff a :
  sync_status_to_string a = "unknown" <-> ~ In a named_statuses.
Proof.
  rewrite <- named_status_In, <- String.eqb_eq, sync_status_unknown_or_named.
  destruct (existsb _ _); simpl; split; congruence.
Qed.

Lemma sync_status_named_injective a b :
  In a named_statuses ->
  sync_status_to_string a = sync_status_to_string b -> a = b.
Proof.
  intros Ha.
  repeat (destruct Ha as [<- | Ha]); try contradiction;
    destruct b as [[] [] [] [] [] [] [] []]; intros H;
    solve [reflexivity | discriminate H].
Qed.

(** X20: [sync_status_to_string] gives each of the eight statuses of the
    pipeline a name of its own, and "unknown" to every other character
    and to no status of the pipeline: two statuses shown with the same
    string are the same status, or neither is a status of the pipeline. *)
Theorem sync_status_names_tell_statuses_apart a b :
  (sync_status_to_string a = sync_status_to_string b ->
   a = b \/ (~ In a named_statuses /\ ~ In b named_statuses))
  /\ (sync_status_to_string a = "unknown" <-> ~ In a named_statuses).
Proof.
  split; [|apply sync_status_unknown_iff].
  intros H.
  destruct (existsb (Ascii.eqb a) named_statuses) eqn:Ha.
  - left. apply sync_status_named_injective; [|exact H].
    apply named_status_In, Ha.
  - right.
    assert (Hna : ~ In a named_statuses).
    { rewrite <- named_status_In, Ha. discriminate. }
    split; [exact Hna|].
    apply sync_status_unknown_iff. rewrite <- H.
    apply sync_status_unknown_iff, Hna.
Qed.

Lemma find_app_last_new {A} (p : A -> bool) (l : list A) (x : A) :
  find p l = None -> p x = true -> find p (l ++ [x]) = Some x.
Proof.
  intros Hl Hx. rewrite (find_app_missing p l [x] Hl). simpl.
  rewrite Hx. reflexivity.
Qed.

Lemma resynchronize_table_leaves_init sub_name reloid truncate db r db1 :
  spock_alter_subscription_resynchronize_table sub_name reloid truncate db
  = Ok r db1 ->
  exists sub rel row,
    find_subscription sub_name db1 = Some sub
    /\ find_relation reloid db1 = Some rel
    /\ find_relation reloid db = Some rel
    /\ (rd_nspname rel <> EmptyString -> rd_relname rel <> EmptyString ->
        (String.length (rd_nspname rel) <= NAMEDATALEN - 1)%nat ->
        (String.length (rd_relname rel) <= NAMEDATALEN - 1)%nat ->
        find_table_sync_status (sub_id sub) (rd_nspname rel) (rd_relname rel)
                               db1 = Some row
        /\ status row = SYNC_STATUS_INIT).
Proof.
  unfold spock_alter_subscription_resynchronize_table, bind,
    get_subscription_by_name, table_open, get_table_sync_status.
  destruct (find_subscription sub_name db) as [sub|] eqn:Hsub;
    [|discriminate].
  destruct (find_relation reloid db) as [rel|] eqn:Hrel; [|discriminate].
  destruct (find_table_sync_status (sub_id sub) (rd_nspname rel)
                                   (rd_relname rel) db) as [oldsync|] eqn:Hold.
  - destruct (negb (Ascii.eqb (status oldsync) SYNC_STATUS_READY)
              && negb (Ascii.eqb (status oldsync) SYNC_STATUS_SYNCDONE)
              && negb (Ascii.eqb (status oldsync) SYNC_STATUS_NONE));
      [discriminate|].
    unfold ret, set_table_sync_status. rewrite Hold.
    intros H.
    exists sub, rel, (with_status SYNC_STATUS_INIT InvalidXLogRecPtr oldsync).
    assert (Hfind :
      find (table_row_matches (sub_id sub) (rd_nspname rel) (rd_relname rel))
           (update_first
              (table_row_matches (sub_id sub) (rd_nspname rel) (rd_relname rel))
              (with_status SYNC_STATUS_INIT InvalidXLogRecPtr)
              (local_sync_status db))
      = Some (with_status SYNC_STATUS_INIT InvalidXLogRecPtr oldsync)).
    { apply find_update_first; auto using table_row_matches_with_status. }
    destruct truncate; inversion H; subst db1; clear H;
      unfold find_subscription, find_relation, find_table_sync_status in *;
      simpl; repeat split; auto.
  - intros H.
    exists sub, rel,
      (new_table_sync (sub_id sub) (rd_nspname rel) (rd_relname rel)).
    assert (Hfind :
      rd_nspname rel <> EmptyString -> rd_relname rel <> EmptyString ->
      (String.length (rd_nspname rel) <= NAMEDATALEN - 1)%nat ->
      (String.length (rd_relname rel) <= NAMEDATALEN - 1)%nat ->
      find (table_row_matches (sub_id sub) (rd_nspname rel) (rd_relname rel))
           (local_sync_status db
            ++ [new_table_sync (sub_id sub) (rd_nspname rel) (rd_relname rel)])
      = Some (new_table_sync (sub_id sub) (rd_nspname rel) (rd_relname rel))).
    { intros Hn Hr Hnfits Hrfits. apply find_app_last_new; [exact Hold|].
      unfold table_row_matches, is_table_row, new_table_sync.
      rewrite (namestrcpy_fits _ Hnfits), (namestrcpy_fits _ Hrfits).
      simpl. rewrite !namestrcmp_zero, !String.eqb_refl, Z.eqb_refl.
      apply String.eqb_neq in Hn, Hr. rewrite Hn, Hr. reflexivity. }
    destruct truncate; inversion H; subst db1; clear H;
      unfold find_subscription, find_relation, find_table_sync_status in *;
      simpl; repeat split; auto; apply Hfind; assumption.
Qed.

(** X21: once [spock_alter_subscription_resynchronize_table] has gone
    through for a table, [spock_show_subscription_table] called for the
    same subscription and table from a context that accepts its result
    shows the table with the status "sync_init", and changes nothing. The
    names of the table are not empty and fit a [NameData], as the names of
    every relation do. *)
Theorem show_subscription_table_after_resynchronize
        rsinfo sub_name reloid truncate b r db1 rel :
  is_return_set_info rsinfo = true ->
  allows_materialize rsinfo = true ->
  result_is_composite rsinfo = true ->
  find_relation reloid (catalog b) = Some rel ->
  rd_nspname rel <> EmptyString ->
  rd_relname rel <> EmptyString ->
  (String.length (rd_nspname rel) <= NAMEDATALEN - 1)%nat ->
  (String.length (rd_relname rel) <= NAMEDATALEN - 1)%nat ->
  spock_alter_subscription_resynchronize_table sub_name reloid truncate
                                               (catalog b) = Ok r db1 ->
  spock_show_subscription_table rsinfo sub_name reloid (set_catalog db1 b)
  = Done (mkTableStatusRow (rd_nspname rel) (rd_relname rel) "sync_init")
         (set_catalog db1 b).
Proof.
  intros Hset Hmat Hrow Hrel Hnsp Hname Hnspfits Hnamefits Hresync.
  destruct (resynchronize_table_leaves_init _ _ _ _ _ _ Hresync)
    as (sub & rel' & row & Hsub & Hrel1 & Hrel0 & Hrow').
  rewrite Hrel in Hrel0. inversion Hrel0; subst rel'; clear Hrel0.
  destruct (Hrow' Hnsp Hname Hnspfits Hnamefits) as [Hfind Hstatus].
  unfold spock_show_subscription_table, bbind, lift, get_subscription_by_name,
    bgets, get_rel_namespace_name, get_rel_name, get_table_sync_status, bret.
  simpl. rewrite Hsub, Hset, Hmat, Hrow. simpl.
  rewrite Hrel1. simpl. rewrite Hfind. rewrite Hstatus. reflexivity.
Qed.

(** ** The filtered table scan *)

Section TableDataProperties.

Variable HeapTuple : Type.
Variable ExprState : Type.
Variable Node : Type.
Variable Expr : Type.
Variable ExecEvalExpr : ExprState -> HeapTuple -> option (Datum * bool).
Variable coerce_to_target_type : Node -> option Expr.
Variable expression_planner : Expr -> Expr.
Variable ExecInitExpr : Expr -> ExprState.
Variable heap_getnext : Oid -> list HeapTuple.
Variable row_filter : Oid -> RelationData -> list SpockRepSet -> list Node.

Lemma scan_table_run tuples row_filter_list tupstore b :
  scan_table ExecEvalExpr tuples row_filter_list tupstore b
  = if forallb (fun htup =>
                  match filter_tuple ExecEvalExpr htup row_filter_list with
                  | Some _ => true
                  | None => false
                  end) tuples
    then Done (tupstore
               ++ filter (passes ExecEvalExpr row_filter_list) tuples)%list b
    else Failed ErrRowFilterRaised b.
Proof.
  revert tupstore.
  induction tuples as [|htup rest IH]; intros tupstore; simpl.
  - rewrite app_nil_r. reflexivity.
  - unfold passes at 1.
    destruct (filter_tuple ExecEvalExpr htup row_filter_list) as [[|]|];
      simpl; [| |reflexivity]; rewrite IH.
    + rewrite <- app_assoc. reflexivity.
    + reflexivity.
Qed.

Lemma passes_iff row_filter_list htup :
  passes ExecEvalExpr row_filter_list htup = true <->
  Forall (evaluates_true ExecEvalExpr htup) row_filter_list.
Proof.
  rewrite <- filter_tuple_true_iff. unfold passes.
  destruct (filter_tuple ExecEvalExpr htup row_filter_list) as [[|]|];
    split; congruence.
Qed.

Lemma prepare_row_filters_run filters prepared row_filter_list b :
  Forall2 (fun filter_node exprstate =>
             exists expr, coerce_to_target_type filter_node = Some expr
                          /\ exprstate = ExecInitExpr (expression_planner expr))
          filters prepared ->
  prepare_row_filters coerce_to_target_type expression_planner ExecInitExpr
                      filters row_filter_list b
  = Done (row_filter_list ++ prepared)%list b.
Proof.
  intros H. revert row_filter_list.
  induction H as [|filter_node exprstate filters prepared
                   (expr & Hexpr & ->) _ IH];
    intros row_filter_list; simpl.
  - rewrite app_nil_r. reflexivity.
  - unfold bbind, spock_prepare_row_filter. rewrite Hexpr. unfold bret.
    rewrite IH, <- app_assoc. reflexivity.
Qed.

(** X22: [spock_table_data_filtered], called on a node for a table and
    replication sets that exist, from a context that accepts the rows of
    the table, with row filters that cast to boolean, returns the rows of
    the scan for which every row filter evaluates to true, in the order of
    the scan, and changes nothing; with no row filter these are all the
    rows. It fails as soon as the evaluation of a filter raises for a row
    of the scan. *)
Theorem table_data_filtered_returns_rows_passing_every_filter
        rsi equalTupleDescs reloid names b local rel sets row_filter_list :
  local_node (catalog b) = Some local ->
  is_return_set_info rsi = true ->
  allows_materialize rsi = true ->
  has_expected_desc rsi = true ->
  result_is_composite rsi = true ->
  find_relation reloid (catalog b) = Some rel ->
  equalTupleDescs rel = true ->
  get_replication_sets (node_id (node local)) names b = Done sets b ->
  Forall2 (fun filter_node exprstate =>
             exists expr, coerce_to_target_type filter_node = Some expr
                          /\ exprstate = ExecInitExpr (expression_planner expr))
          (row_filter (node_id (node local)) rel sets) row_filter_list ->
  let call := spock_table_data_filtered ExecEvalExpr coerce_to_target_type
                expression_planner ExecInitExpr heap_getnext row_filter
                true rsi equalTupleDescs (Some reloid) (Some names) b in
  ((forall htup, In htup (heap_getnext reloid) ->
      filter_tuple ExecEvalExpr htup row_filter_list <> None) ->
   call = Done (filter (passes ExecEvalExpr row_filter_list)
                       (heap_getnext reloid)) b
   /\ (forall htup,
         In htup (filter (passes ExecEvalExpr row_filter_list)
                         (heap_getnext reloid)) <->
         In htup (heap_getnext reloid)
         /\ Forall (evaluates_true ExecEvalExpr htup) row_filter_list)
   /\ (row_filter_list = [] ->
       call = Done (heap_getnext reloid) b))
  /\ ((exists htup, In htup (heap_getnext reloid)
         /\ filter_tuple ExecEvalExpr htup row_filter_list = None) ->
      call = Failed ErrRowFilterRaised b).
Proof.
  intros Hlocal Hset Hmat Hdesc Hcomp Hrel Heq Hsets Hprep call.
  assert (Hcall :
    call = scan_table ExecEvalExpr (heap_getnext reloid) row_filter_list [] b).
  { subst call. unfold spock_table_data_filtered, bbind, lift, get_local_node,
      table_open, bereport, bret.
    rewrite Hlocal, Hset, Hmat, Hdesc, Hcomp. simpl.
    rewrite set_catalog_same. simpl. rewrite Hrel. rewrite set_catalog_same.
    rewrite Heq. simpl. unfold node_of. rewrite Hsets.
    rewrite (prepare_row_filters_run _ row_filter_list [] b Hprep).
    reflexivity. }
  rewrite Hcall, scan_table_run. simpl. split.
  - intros Hall.
    assert (Hforall :
      forallb (fun htup =>
                 match filter_tuple ExecEvalExpr htup row_filter_list with
                 | Some _ => true
                 | None => false
                 end) (heap_getnext reloid) = true).
    { apply forallb_forall. intros htup Hin. specialize (Hall htup Hin).
      destruct (filter_tuple ExecEvalExpr htup row_filter_list);
        [reflexivity | congruence]. }
    rewrite Hforall. split; [reflexivity|]. split.
    + intros htup. rewrite filter_In, passes_iff. tauto.
    + intros ->. f_equal.
      clear. induction (heap_getnext reloid) as [|h l IH]; [reflexivity|].
      simpl. f_equal. exact IH.
  - intros (htup & Hin & Hnone).
    assert (Hforall :
      forallb (fun htup =>
                 match filter_tuple ExecEvalExpr htup row_filter_list with
                 | Some _ => true
                 | None => false
                 end) (heap_getnext reloid) = false).
    { apply not_true_is_false. intros Hall.
      rewrite forallb_forall in Hall. specialize (Hall htup Hin).
      rewrite Hnone in Hall. discriminate. }
    rewrite Hforall. reflexivity.
Qed.

End TableDataProperties.

(** ** Replicating TRUNCATE *)

Lemma note_effects_nil b : note_effects [] b = b.
Proof. destruct b. unfold note_effects. simpl. rewrite app_nil_r. reflexivity. Qed.

Lemma note_effects_cons e es b :
  note_effects es (note_effect e b) = note_effects (e :: es) b.
Proof.
  unfold note_effects, note_effect. simpl. rewrite <- app_assoc. reflexivity.
Qed.

Lemma note_effects_app es es' b :
  note_effects es' (note_effects es b) = note_effects (es ++ es') b.
Proof.
  unfold note_effects. simpl. rewrite <- app_assoc. reflexivity.
Qed.

Lemma bforeach_note {A} (g : A -> BackendEffect) (l : list A) b :
  bforeach l (fun x => bmodify (note_effect (g x))) b
  = Done tt (note_effects (map g l) b).
Proof.
  revert b. induction l as [|x l IH]; intros b; simpl.
  - rewrite note_effects_nil. reflexivity.
  - unfold bbind, bmodify. rewrite IH, note_effects_cons. reflexivity.
Qed.

Lemma bforeach_note_nested {A C} (f : A -> list C) (g : C -> BackendEffect)
      (l : list A) b :
  bforeach l (fun x => bforeach (f x) (fun t => bmodify (note_effect (g t)))) b
  = Done tt (note_effects (flat_map (fun x => map g (f x)) l) b).
Proof.
  revert b. induction l as [|x l IH]; intros b; simpl.
  - rewrite note_effects_nil. reflexivity.
  - unfold bbind. rewrite bforeach_note, IH, note_effects_app. reflexivity.
Qed.

Section TruncateProperties.

Variable GetUserId : Oid.
Variable escape_json : string -> string.
Variable MySpockWorker : bool.
Variable get_table_replication_sets_targets : Oid -> Oid -> list SpockRepSetRel.

Lemma fire_truncate_triggers_run tables b :
  fire_truncate_triggers MySpockWorker tables b
  = Done tt (if MySpockWorker then b
             else match local_node (catalog b) with
                  | None => b
                  | Some _ =>
                      set_spock_truncated_tables
                        (spock_truncated_tables b ++ tables) b
                  end).
Proof.
  unfold fire_truncate_triggers.
  destruct MySpockWorker; revert b;
    induction tables as [|reloid tables IH]; intros b; simpl.
  - reflexivity.
  - unfold bbind, spock_queue_truncate, bret. apply IH.
  - unfold bret. destruct (local_node (catalog b)); [|reflexivity].
    destruct b. unfold set_spock_truncated_tables. simpl.
    rewrite app_nil_r. reflexivity.
  - unfold bbind, spock_queue_truncate.
    change (TRIGGER_FIRED_AFTER
              (tg_event (mkTriggerData
                           (Z.lor TRIGGER_EVENT_TRUNCATE TRIGGER_EVENT_AFTER)
                           reloid))) with true.
    change (TRIGGER_FIRED_BY_TRUNCATE
              (tg_event (mkTriggerData
                           (Z.lor TRIGGER_EVENT_TRUNCATE TRIGGER_EVENT_AFTER)
                           reloid))) with true.
    simpl negb. simpl orb. cbv iota.
    destruct (local_node (catalog b)) as [local|] eqn:Hlocal.
    + rewrite IH. simpl. rewrite Hlocal.
      unfold set_spock_truncated_tables. simpl.
      rewrite <- app_assoc. reflexivity.
    + rewrite IH, Hlocal. reflexivity.
Qed.

(** X23: a TRUNCATE statement that goes through [spock_ProcessUtility] and
    fires the trigger [spock_queue_truncate] for each of its tables puts on
    the queue, for each table in the order of the statement, one message
    for each replication set target of the table, and leaves
    [spock_truncated_tables] empty. What the list held before the statement
    is not queued. Nothing is queued in a spock worker, nor in a database
    that is not a node. *)
Theorem truncate_statement_queues_its_tables tables b :
  spock_ProcessUtility GetUserId escape_json
    get_table_replication_sets_targets T_TruncateStmt
    (fire_truncate_triggers MySpockWorker tables) b
  = Done tt
      (set_spock_truncated_tables []
         (note_effects
            match local_node (catalog b) with
            | Some local =>
                if MySpockWorker then []
                else truncate_messages GetUserId escape_json
                       get_table_replication_sets_targets
                       (node_id (node local)) tables
            | None => []
            end
            (set_dropping_spock_obj false b))).
Proof.
  unfold spock_ProcessUtility, spock_start_truncate, bbind, bmodify, bret,
    is_truncate.
  cbv beta iota.
  rewrite fire_truncate_triggers_run.
  unfold spock_finish_truncate.
  destruct MySpockWorker.
  - simpl. destruct (local_node (catalog b)); rewrite note_effects_nil;
      reflexivity.
  - simpl. destruct (local_node (catalog b)) as [local|] eqn:Hlocal; simpl.
    + rewrite Hlocal. destruct tables as [|reloid tables].
      * simpl. rewrite note_effects_nil. reflexivity.
      * cbv iota. unfold bbind, queue_message.
        rewrite (bforeach_note_nested
                   (get_table_replication_sets_targets
                      (node_id (node_of local)))
                   (fun t => EffQueueMessage [rsr_repset_name t] GetUserId
                               QUEUE_COMMAND_TYPE_TRUNCATE
                               (truncate_message escape_json t))).
        reflexivity.
    + rewrite Hlocal, note_effects_nil. reflexivity.
Qed.

End TruncateProperties.

(** ** Dropping objects *)

Lemma set_dropping_spock_obj_same b :
  dropping_spock_obj b = true -> set_dropping_spock_obj true b = b.
Proof. destruct b. simpl. intros ->. reflexivity. Qed.

Section ObjectAccessProperties.

Variable GetUserId : Oid.
Variable escape_json : string -> string.
Variable get_table_replication_sets_targets : Oid -> Oid -> list SpockRepSetRel.
Variable spock_extension_oid : Oid.
Variable spock_namespace_oid : Oid.
Variable get_rel_namespace : Oid -> Oid.
Variable SessionReplicationRole : ReplicationRole.

Lemma object_access_while_dropping_spock a b :
  dropping_spock_obj b = true ->
  spock_object_access spock_extension_oid spock_namespace_oid
                      get_rel_namespace SessionReplicationRole None a b
  = Done tt b.
Proof.
  intros Hflag. unfold spock_object_access, bbind, bret, bmodify.
  destruct (is_drop (access a)); [|reflexivity].
  destruct (negb (Z.land (dropflags a) PERFORM_DELETION_INTERNAL =? 0));
    [reflexivity|].
  destruct ((classId a =? ExtensionRelationId)
            && (objectId a =? spock_extension_oid)
            && negb (objectId a =? InvalidOid));
    destruct ((classId a =? RelationRelationId)
              && (spock_namespace_oid =? get_rel_namespace (objectId a)));
    rewrite ?(set_dropping_spock_obj_same b Hflag), Hflag; reflexivity.
Qed.

(** X24: the drop of an object that is not one of spock's own, and not an
    internal deletion, reported to [spock_object_access] while
    [spock_ProcessUtility] runs a DROP statement on a node, is checked for
    dependencies once, with the behaviour of that statement, or with
    CASCADE in a session whose replication role is replica, whatever the
    statements before left in [dropping_spock_obj] and
    [spock_lastDropBehavior]. *)
Theorem drop_statement_checks_dependencies_with_its_behavior
        behavior a b local :
  access a = OAT_DROP ->
  is_internal_deletion a = false ->
  is_spock_object spock_extension_oid spock_namespace_oid get_rel_namespace a
  = false ->
  local_node (catalog b) = Some local ->
  spock_ProcessUtility GetUserId escape_json
    get_table_replication_sets_targets (T_DropStmt behavior)
    (spock_object_access spock_extension_oid spock_namespace_oid
                         get_rel_namespace SessionReplicationRole None a) b
  = Done tt
      (note_effect
         (EffCheckDependency (classId a) (objectId a) (subId a)
            (if is_replica SessionReplicationRole then DROP_CASCADE
             else behavior))
         (set_spock_lastDropBehavior behavior
            (set_dropping_spock_obj false b))).
Proof.
  intros Hdrop Hinternal Hspock Hlocal.
  unfold is_internal_deletion in Hinternal.
  unfold is_spock_object in Hspock. apply orb_false_iff in Hspock.
  destruct Hspock as [Hext Hrel].
  unfold spock_ProcessUtility, spock_object_access, bbind, bmodify, bret,
    is_truncate.
  cbv beta iota.
  rewrite Hdrop. unfold is_drop. cbv beta iota.
  rewrite Hinternal, Hext, Hrel. simpl.
  rewrite Hlocal. reflexivity.
Qed.

(** X25: once the drop of one of spock's own objects, the extension or a
    relation of its schema, has been reported to [spock_object_access],
    no drop reported after it is checked for dependencies: the accesses
    leave [dropping_spock_obj] set and nothing else changed. *)
Theorem no_dependency_check_after_spock_object a later b :
  access a = OAT_DROP ->
  is_internal_deletion a = false ->
  is_spock_object spock_extension_oid spock_namespace_oid get_rel_namespace a
  = true ->
  bforeach (a :: later)
           (spock_object_access spock_extension_oid spock_namespace_oid
                                get_rel_namespace SessionReplicationRole None)
           b
  = Done tt (set_dropping_spock_obj true b).
Proof.
  intros Hdrop Hinternal Hspock.
  assert (Hlater : forall b0, dropping_spock_obj b0 = true ->
    bforeach later
             (spock_object_access spock_extension_oid spock_namespace_oid
                                  get_rel_namespace SessionReplicationRole None)
             b0
    = Done tt b0).
  { induction later as [|x later IH]; intros b0 Hflag; simpl; [reflexivity|].
    unfold bbind. rewrite (object_access_while_dropping_spock x b0 Hflag).
    apply IH, Hflag. }
  unfold is_internal_deletion in Hinternal.
  unfold is_spock_object in Hspock.
  simpl. unfold bbind at 1.
  assert (Hfirst :
    spock_object_access spock_extension_oid spock_namespace_oid
                        get_rel_namespace SessionReplicationRole None a b
    = Done tt (set_dropping_spock_obj true b)).
  { unfold spock_object_access, bbind, bmodify, bret.
    rewrite Hdrop. unfold is_drop. cbv beta iota. rewrite Hinternal.
    destruct ((classId a =? ExtensionRelationId)
              && (objectId a =? spock_extension_oid)
              && negb (objectId a =? InvalidOid));
      destruct ((classId a =? RelationRelationId)
                && (spock_namespace_oid =? get_rel_namespace (objectId a)));
      try discriminate Hspock; reflexivity. }
  rewrite Hfirst. apply Hlater. reflexivity.
Qed.

End ObjectAccessProperties.

(** ** Replicating a DDL command *)

Lemma validate_replication_sets_run nodeid names b :
  bforeach names (fun setname =>
    bbind (get_replication_set_by_name nodeid setname false)
          (fun _ => bret tt)) b
  = match missing_replication_set nodeid b names with
    | Some name => Failed (ErrReplicationSetNotFound name) b
    | None => Done tt b
    end.
Proof.
  unfold missing_replication_set.
  induction names as [|name names IH]; simpl; [reflexivity|].
  unfold bbind at 1 2. unfold get_replication_set_by_name at 1.
  destruct (find_replication_set nodeid name b); [|reflexivity].
  unfold bret at 1. exact IH.
Qed.

Section ReplicateDDLProperties.

Variable GetUserId : Oid.
Variable escape_json : string -> string.
Variable DDL_SQL_REPSET_NAME : string.
Variable GetUserNameFromId : Oid -> string.
Variable spock_execute_sql_command : string -> string -> B unit.

Lemma replicate_ddl_command_run query rep_set_names b local :
  local_node (catalog b) = Some local ->
  let sets := match rep_set_names with
              | None => [DDL_SQL_REPSET_NAME]
              | Some names => names
              end in
  spock_replicate_ddl_command GetUserId escape_json DDL_SQL_REPSET_NAME
    GetUserNameFromId spock_execute_sql_command query rep_set_names b
  = match missing_replication_set (node_id (node local)) b sets with
    | Some name => Failed (ErrReplicationSetNotFound name) b
    | None =>
        match spock_execute_sql_command query (GetUserNameFromId GetUserId)
                (when_executing GetUserId escape_json sets query b) with
        | Done _ b1 =>
            Done true (set_search_path (search_path b)
                         (set_in_spock_replicate_ddl_command false b1))
        | Failed e b1 =>
            Failed e (set_in_spock_replicate_ddl_command false b1)
        end
    end.
Proof.
  intros Hlocal sets.
  unfold spock_replicate_ddl_command. unfold bbind at 1.
  unfold check_local_node. rewrite Hlocal.
  unfold bbind at 1. fold sets. unfold node_of.
  rewrite validate_replication_sets_run.
  destruct (missing_replication_set (node_id (node local)) b sets);
    [reflexivity|].
  unfold queue_message, bbind, bgets, bmodify, bret, when_executing.
  destruct (spock_execute_sql_command query _ _); reflexivity.
Qed.

(** X26: [spock_replicate_ddl_command] never leaves
    [in_spock_replicate_ddl_command] set: when it is clear before the call
    it is clear after it, whether the call returns or fails and whatever
    the command does. A name that is no replication set of the node makes
    the call fail before anything is queued or executed. Otherwise the
    command is executed after its message is queued, with the flag set and
    an empty search path, and the search path is restored when the command
    succeeds. *)
Theorem replicate_ddl_command_clears_its_flag query rep_set_names b :
  let sets := match rep_set_names with
              | None => [DDL_SQL_REPSET_NAME]
              | Some names => names
              end in
  let call := spock_replicate_ddl_command GetUserId escape_json
                DDL_SQL_REPSET_NAME GetUserNameFromId
                spock_execute_sql_command query rep_set_names b in
  (in_spock_replicate_ddl_command b = false ->
   in_spock_replicate_ddl_command (final call) = false)
  /\ (forall local name,
        local_node (catalog b) = Some local ->
        missing_replication_set (node_id (node local)) b sets = Some name ->
        call = Failed (ErrReplicationSetNotFound name) b)
  /\ (forall local,
        local_node (catalog b) = Some local ->
        missing_replication_set (node_id (node local)) b sets = None ->
        let running := when_executing GetUserId escape_json sets query b in
        in_spock_replicate_ddl_command running = true
        /\ search_path running = EmptyString
        /\ backend_effects running
           = (backend_effects b
              ++ [EffQueueMessage sets GetUserId QUEUE_COMMAND_TYPE_SQL
                                  (escape_json query)])%list
        /\ match spock_execute_sql_command
                   query (GetUserNameFromId GetUserId) running with
           | Done _ b1 =>
               call = Done true
                        (set_search_path (search_path b)
                           (set_in_spock_replicate_ddl_command false b1))
           | Failed e b1 =>
               call = Failed e (set_in_spock_replicate_ddl_command false b1)
           end).
Proof.
  intros sets call. split; [|split].
  - intros Hclear. subst call.
    destruct (local_node (catalog b)) as [local|] eqn:Hlocal.
    + rewrite (replicate_ddl_command_run query rep_set_names b local Hlocal).
      fold sets.
      destruct (missing_replication_set (node_id (node local)) b sets);
        [exact Hclear|].
      destruct (spock_execute_sql_command query _ _); reflexivity.
    + unfold spock_replicate_ddl_command, bbind, check_local_node.
      rewrite Hlocal. exact Hclear.
  - intros local name Hlocal Hmissing. subst call.
    rewrite (replicate_ddl_command_run query rep_set_names b local Hlocal).
    fold sets. rewrite Hmissing. reflexivity.
  - intros local Hlocal Hmissing running. subst call running.
    rewrite (replicate_ddl_command_run query rep_set_names b local Hlocal).
    fold sets. rewrite Hmissing.
    split; [reflexivity|]. split; [reflexivity|]. split; [reflexivity|].
    destruct (spock_execute_sql_command query _ _); reflexivity.
Qed.

End ReplicateDDLProperties.

(** ** Replication sets *)

Lemma replace_replication_set_same r l :
  find (fun x => rs_id x =? rs_id r) l = Some r ->
  replace_replication_set r l = l.
Proof.
  induction l as [|x l IH]; simpl; [reflexivity|].
  destruct (rs_id x =? rs_id r).
  - intros H. inversion H. reflexivity.
  - intros H. f_equal. apply IH, H.
Qed.

Lemma replace_replication_set_In r' l :
  NoDup (map rs_id l) ->
  (exists r, In r l /\ rs_id r = rs_id r') ->
  forall x, In x (replace_replication_set r' l) <->
            x = r' \/ (In x l /\ rs_id x <> rs_id r').
Proof.
  induction l as [|y l IH]; intros Hnd (r & Hin & Hid) x.
  - contradiction.
  - simpl in Hnd. inversion Hnd as [|? ? Hy Hl]; subst.
    simpl. destruct (rs_id y =? rs_id r') eqn:E.
    + apply Z.eqb_eq in E. simpl. split.
      * intros [<- | Hx]; [left; reflexivity|].
        right. split; [right; exact Hx|].
        intros Heq. apply Hy. rewrite E, <- Heq. apply in_map, Hx.
      * intros [-> | [[<- | Hx] Hne]];
          [left; reflexivity | congruence | right; exact Hx].
    + apply Z.eqb_neq in E.
      assert (Hex : exists r0, In r0 l /\ rs_id r0 = rs_id r').
      { destruct Hin as [<- | Hin]; [congruence|]. exists r. auto. }
      specialize (IH Hl Hex x). simpl. rewrite IH. split.
      * intros [<- | [-> | [Hx Hne]]]; auto.
      * intros [-> | [[<- | Hx] Hne]]; auto.
Qed.

Lemma find_replication_set_In nodeid name b r :
  find_replication_set nodeid name b = Some r ->
  In r (replication_set b) /\ rs_nodeid r = nodeid /\ rs_name r = name.
Proof.
  unfold find_replication_set. intros H. apply find_some in H.
  destruct H as [Hin H]. apply andb_true_iff in H. destruct H as [Hn Hs].
  apply Z.eqb_eq in Hn. apply String.eqb_eq in Hs. auto.
Qed.

Lemma find_by_id_unique (l : list SpockRepSet) r :
  NoDup (map rs_id l) -> In r l ->
  find (fun x => rs_id x =? rs_id r) l = Some r.
Proof.
  induction l as [|y l IH]; intros Hnd Hin; [contradiction|].
  simpl in Hnd. inversion Hnd as [|? ? Hy Hl]; subst. simpl.
  destruct Hin as [-> | Hin].
  - rewrite Z.eqb_refl. reflexivity.
  - destruct (rs_id y =? rs_id r) eqn:E.
    + apply Z.eqb_eq in E. destruct Hy. rewrite E. apply in_map, Hin.
    + apply IH; assumption.
Qed.

Lemma set_replication_set_same b :
  set_replication_set (replication_set b) b = b.
Proof. destruct b; reflexivity. Qed.

(** X27: [spock_alter_replication_set], for a replication set of the local
    node, sets the flags that come with a value and keeps those that come
    as NULL, in the one replication set with that identifier: the others
    stay as they are, and a call with four NULLs changes nothing. *)
Theorem alter_replication_set_changes_given_flags
        set_name insert update delete truncate b local repset :
  NoDup (map rs_id (replication_set b)) ->
  local_node (catalog b) = Some local ->
  find_replication_set (node_id (node local)) set_name b = Some repset ->
  let altered :=
    mkRepSet (rs_id repset) (rs_nodeid repset) (rs_name repset)
      (match insert with Some v => v | None => replicate_insert repset end)
      (match update with Some v => v | None => replicate_update repset end)
      (match delete with Some v => v | None => replicate_delete repset end)
      (match truncate with Some v => v
                         | None => replicate_truncate repset end) in
  exists b',
    spock_alter_replication_set (Some set_name) insert update delete truncate
                                b = Done (rs_id repset) b'
    /\ catalog b' = catalog b
    /\ (forall x, In x (replication_set b') <->
          x = altered
          \/ (In x (replication_set b) /\ rs_id x <> rs_id repset))
    /\ (insert = None -> update = None -> delete = None -> truncate = None ->
        b' = b).
Proof.
  intros Hnd Hlocal Hfind altered.
  destruct (find_replication_set_In _ _ _ _ Hfind) as (Hin & _ & _).
  exists (set_replication_set
            (replace_replication_set altered (replication_set b)) b).
  split; [|split; [reflexivity|split]].
  - unfold spock_alter_replication_set, bbind, check_local_node,
      get_replication_set_by_name, alter_replication_set, bmodify, bret.
    rewrite Hlocal. unfold node_of. rewrite Hfind. reflexivity.
  - intros x. simpl.
    apply (replace_replication_set_In altered (replication_set b) Hnd).
    exists repset. split; [exact Hin | reflexivity].
  - intros -> -> -> ->. subst altered.
    assert (Hsame :
      mkRepSet (rs_id repset) (rs_nodeid repset) (rs_name repset)
               (replicate_insert repset) (replicate_update repset)
               (replicate_delete repset) (replicate_truncate repset)
      = repset) by (destruct repset; reflexivity).
    rewrite Hsame, replace_replication_set_same.
    + apply set_replication_set_same.
    + apply find_by_id_unique; assumption.
Qed.

(** X28: [spock_drop_replication_set] removes the replication set of the
    local node with the name, and no other, and returns true. When there
    is none it changes nothing: it returns false with [ifexists], and
    fails without. *)
Theorem drop_replication_set_removes_only_the_named_set
        set_name ifexists b local :
  local_node (catalog b) = Some local ->
  let call := spock_drop_replication_set set_name ifexists b in
  match find_replication_set (node_id (node local)) set_name b with
  | Some repset =>
      exists b', call = Done true b'
                 /\ catalog b' = catalog b
                 /\ forall x, In x (replication_set b') <->
                              In x (replication_set b)
                              /\ rs_id x <> rs_id repset
  | None =>
      call = if ifexists then Done false b
             else Failed (ErrReplicationSetNotFound set_name) b
  end.
Proof.
  intros Hlocal call. subst call.
  unfold spock_drop_replication_set, bbind, check_local_node,
    get_replication_set_by_name, drop_replication_set, bmodify, bret.
  rewrite Hlocal. unfold node_of.
  destruct (find_replication_set (node_id (node local)) set_name b)
    as [repset|].
  - eexists. split; [reflexivity|]. split; [reflexivity|].
    intros x. simpl. rewrite filter_In, negb_true_iff, Z.eqb_neq. tauto.
  - destruct ifexists; reflexivity.
Qed.

(** ** Creating, then dropping a node *)

Lemma filter_all_kept {A} (p : A -> bool) (l : list A) :
  (forall y, In y l -> p y = true) -> filter p l = l.
Proof.
  induction l as [|y l IH]; intros Hall; simpl; [reflexivity|].
  rewrite (Hall y (or_introl eq_refl)), IH; [reflexivity|].
  intros z Hz. apply Hall. right. exact Hz.
Qed.

Lemma find_app_one_some {A} (p : A -> bool) (l : list A) (x : A) :
  p x = true -> exists y, find p (l ++ [x]) = Some y.
Proof.
  intros Hx. induction l as [|z l IH]; simpl.
  - rewrite Hx. eauto.
  - destruct (p z); eauto.
Qed.

Section CreateThenDropNode.

Variable gen_node_id : string -> Oid.
Variable gen_interface_id : Oid -> string -> Oid.
Variable gen_repset_id : Oid -> string -> Oid.
Variable DEFAULT_REPSET_NAME : string.
Variable DEFAULT_INSONLY_REPSET_NAME : string.
Variable DDL_SQL_REPSET_NAME : string.

Lemma create_node_run name dsn b :
  let nodeid := gen_node_id name in
  let new_node := mkNode nodeid name in
  let new_if := mkInterface (gen_interface_id nodeid name) name nodeid dsn in
  exists b1,
    spock_create_node gen_node_id gen_interface_id gen_repset_id
      DEFAULT_REPSET_NAME DEFAULT_INSONLY_REPSET_NAME DDL_SQL_REPSET_NAME
      name dsn b = Done nodeid b1
    /\ nodes (catalog b1) = (nodes (catalog b) ++ [new_node])%list
    /\ node_interfaces (catalog b1)
       = (node_interfaces (catalog b) ++ [new_if])%list
    /\ subscriptions (catalog b1) = subscriptions (catalog b)
    /\ local_sync_status (catalog b1) = local_sync_status (catalog b)
    /\ replication_set b1
       = (replication_set b
          ++ [mkRepSet (gen_repset_id nodeid DEFAULT_REPSET_NAME) nodeid
                       DEFAULT_REPSET_NAME true true true true;
              mkRepSet (gen_repset_id nodeid DEFAULT_INSONLY_REPSET_NAME)
                       nodeid DEFAULT_INSONLY_REPSET_NAME
                       true false false true;
              mkRepSet (gen_repset_id nodeid DDL_SQL_REPSET_NAME) nodeid
                       DDL_SQL_REPSET_NAME true false false false])%list
    /\ backend_effects b1 = backend_effects b
    /\ replication_origin b1 = replication_origin b
    /\ local_node (catalog b1)
       = match find (fun n => node_id n =? nodeid)
                    (nodes (catalog b) ++ [new_node]),
               find (fun i => if_id i =? gen_interface_id nodeid name)
                    (node_interfaces (catalog b) ++ [new_if]) with
         | Some n, Some i => Some (mkLocalNode n i)
         | _, _ => local_node (catalog b)
         end.
Proof.
  intros nodeid new_node new_if.
  unfold spock_create_node, create_replication_set, create_local_node,
    bbind, lift, create_node, create_node_interface, bind, modify, ret,
    bmodify, bret, name_of_node.
  simpl. eexists. split; [reflexivity|]. simpl.
  rewrite <- !app_assoc. simpl. repeat split; reflexivity.
Qed.

(** X29: [spock_drop_node] undoes [spock_create_node]. In a database that
    is not yet a node, where no node has the new name or the identifier
    made for it and no interface, replication set or subscription refers
    to that identifier, the create makes the database a node, and the drop
    of the node by its name, when its slots can be dropped, returns true
    and leaves the nodes, the interfaces, the replication sets, the
    subscriptions and the absence of a local node as they were before the
    create. *)
Theorem create_then_drop_node name dsn ifexists b :
  let nodeid := gen_node_id name in
  local_node (catalog b) = None ->
  (forall n, In n (nodes (catalog b)) ->
     node_name n <> name /\ node_id n <> nodeid) ->
  (forall i, In i (node_interfaces (catalog b)) -> if_nodeid i <> nodeid) ->
  (forall r, In r (replication_set b) -> rs_nodeid r <> nodeid) ->
  (forall s, In s (subscriptions (catalog b)) ->
     if_nodeid (origin_if s) <> nodeid /\ if_nodeid (target_if s) <> nodeid) ->
  exists b1 b2 local,
    spock_create_node gen_node_id gen_interface_id gen_repset_id
      DEFAULT_REPSET_NAME DEFAULT_INSONLY_REPSET_NAME DDL_SQL_REPSET_NAME
      name dsn b = Done nodeid b1
    /\ local_node (catalog b1) = Some local
    /\ node local = mkNode nodeid name
    /\ spock_drop_node (SpiResult SPI_OK_SELECT) name ifexists b1
       = Done true b2
    /\ local_node (catalog b2) = None
    /\ nodes (catalog b2) = nodes (catalog b)
    /\ node_interfaces (catalog b2) = node_interfaces (catalog b)
    /\ replication_set b2 = replication_set b
    /\ subscriptions (catalog b2) = subscriptions (catalog b)
    /\ backend_effects b2 = (backend_effects b ++ [EffDropLocalSlots])%list.
Proof.
  intros nodeid Hnotnode Hnodes Hifs Hsets Hsubs.
  destruct (create_node_run name dsn b)
    as (b1 & Hcreate & Hn1 & Hi1 & Hs1 & _ & Hr1 & He1 & _ & Hl1).
  fold nodeid in Hcreate, Hn1, Hi1, Hr1, Hl1.
  rewrite (find_app_last_fresh (fun n => node_id n =? nodeid)
             (nodes (catalog b)) (mkNode nodeid name)) in Hl1;
    [| intros n Hn; apply Z.eqb_neq, (Hnodes n Hn) | apply Z.eqb_refl].
  destruct (find_app_one_some
              (fun i => if_id i =? gen_interface_id nodeid name)
              (node_interfaces (catalog b))
              (mkInterface (gen_interface_id nodeid name) name nodeid dsn)
              (Z.eqb_refl _)) as [i Hi].
  rewrite Hi in Hl1.
  assert (Hfind : find_node name (catalog b1) = Some (mkNode nodeid name)).
  { unfold find_node. rewrite Hn1. apply find_app_last_fresh.
    - intros n Hn. apply String.eqb_neq, (Hnodes n Hn).
    - apply String.eqb_refl. }
  assert (Hnosubs : node_has_subscriptions nodeid (catalog b1) = false).
  { unfold node_has_subscriptions. rewrite Hs1.
    apply not_true_is_false. intros H. apply existsb_exists in H.
    destruct H as (s & Hs & H). apply orb_true_iff in H.
    destruct (Hsubs s Hs) as [Ho Ht].
    destruct H as [H|H]; apply Z.eqb_eq in H; contradiction. }
  assert (Hislocal : is_local_node nodeid (catalog b1) = true).
  { unfold is_local_node. rewrite Hl1. simpl. apply Z.eqb_refl. }
  eexists b1, _, (mkLocalNode (mkNode nodeid name) i).
  split; [exact Hcreate|]. split; [exact Hl1|]. split; [reflexivity|].
  split.
  { rewrite (drop_node_run _ b1 name ifexists _ Hfind). simpl node_id.
    rewrite Hnosubs, Hislocal. reflexivity. }
  simpl. rewrite Hn1, Hi1, Hr1, Hs1, He1.
  split; [reflexivity|]. split.
  { apply filter_app_fresh.
    - intros n Hn. apply negb_true_iff, Z.eqb_neq, (Hnodes n Hn).
    - simpl. rewrite Z.eqb_refl. reflexivity. }
  split.
  { apply filter_app_fresh.
    - intros x Hx. apply negb_true_iff, Z.eqb_neq, (Hifs x Hx).
    - simpl. rewrite Z.eqb_refl. reflexivity. }
  split.
  { rewrite filter_app. simpl. rewrite Z.eqb_refl. simpl.
    rewrite app_nil_r. apply filter_all_kept.
    intros r Hr. apply negb_true_iff, Z.eqb_neq, (Hsets r Hr). }
  split; reflexivity.
Qed.

End CreateThenDropNode.

(** ** The properties on the sample backend *)

Lemma sample_subscription_ids :
  NoDup (map sub_id (subscriptions BackendSample.db)).
Proof. repeat constructor. simpl. tauto. Qed.

Lemma sample_replication_set_ids :
  NoDup (map rs_id (replication_set BackendSample.backend)).
Proof.
  repeat constructor; simpl; intros H;
    repeat (destruct H as [H|H]; try discriminate H); exact H.
Qed.

Lemma sample_shorten_hash_bound (str : string) (maxlen : nat) :
  (String.length (BackendSample.shorten_hash str maxlen) <= maxlen)%nat.
Proof.
  unfold BackendSample.shorten_hash. rewrite length_snprintf.
  apply Nat.le_min_l.
Qed.

Ltac each_row :=
  let H := fresh "H" in
  intros ? H; simpl in H;
  repeat (destruct H as [<- | H]); try contradiction;
  simpl; repeat split; discriminate.

Lemma gen_slot_name_witness :
  gen_slot_name BackendSample.shorten_hash "app" "provider" "sub1"
  = "spk_app_provider_sub1"
  /\ (String.length
        (gen_slot_name BackendSample.shorten_hash "app" "provider" "sub1") + 9
      <= NAMEDATALEN - 1)%nat.
Proof.
  destruct (gen_slot_name_leaves_room_for_suffix
              BackendSample.shorten_hash "app" "provider" "sub1"
              sample_shorten_hash_bound)
    as (_ & Hroom & Hsame).
  split; [|exact Hroom].
  rewrite Hsame; reflexivity.
Defined.

Lemma add_replication_set_witness :
  exists added db1 sub1,
    spock_alter_subscription_add_replication_set "sub1" "extra"
                                                 BackendSample.db
    = Ok added db1
    /\ find_subscription "sub1" db1 = Some sub1
    /\ In "extra" (replication_sets sub1)
    /\ spock_alter_subscription_add_replication_set "sub1" "extra" db1
       = Ok false db1.
Proof.
  destruct (add_replication_set_is_idempotent
              BackendSample.db "sub1" "extra" Sample.sub1
              sample_subscription_ids eq_refl)
    as (added & db1 & sub1 & Hcall & _ & _ & Hfind & _ & Hin & Hagain).
  exists added, db1, sub1. auto.
Defined.

Lemma add_then_remove_replication_set_witness :
  exists db1,
    spock_alter_subscription_add_replication_set "sub1" "extra"
                                                 BackendSample.db
    = Ok true db1
    /\ spock_alter_subscription_remove_replication_set "sub1" "extra" db1
       = Ok true BackendSample.db.
Proof.
  apply (add_then_remove_replication_set
           BackendSample.db "sub1" "extra" Sample.sub1
           sample_subscription_ids eq_refl).
  simpl. intros [H|[]]. discriminate H.
Defined.

Lemma remove_replication_set_witness :
  exists removed db1 sub1,
    spock_alter_subscription_remove_replication_set "sub1" "default"
                                                    BackendSample.db
    = Ok removed db1
    /\ find_subscription "sub1" db1 = Some sub1
    /\ (removed = true ->
        List.length (replication_sets Sample.sub1)
        = S (List.length (replication_sets sub1))).
Proof.
  destruct (remove_replication_set_deletes_first_cell
              BackendSample.db "sub1" "default" Sample.sub1
              sample_subscription_ids eq_refl)
    as (removed & db1 & sub1 & Hcall & _ & _ & Hfind & _ & Hlen).
  exists removed, db1, sub1.
  split; [exact Hcall|]. split; [exact Hfind|].
  intros H. apply (Hlen H).
Defined.

Lemma alter_subscription_interface_witness :
  exists changed db' sub',
    spock_alter_subscription_interface "sub1" "provider_alt" BackendSample.db
    = Ok changed db'
    /\ (changed = false <->
        if_id BackendSample.provider_alt = if_id (origin_if Sample.sub1))
    /\ (changed = false -> db' = BackendSample.db)
    /\ find_subscription "sub1" db' = Some sub'
    /\ (changed = true -> origin_if sub' = BackendSample.provider_alt)
    /\ if_nodeid (origin_if sub') = if_nodeid (origin_if Sample.sub1).
Proof.
  exact (alter_subscription_interface_keeps_origin_node
           BackendSample.db "sub1" "provider_alt" Sample.sub1
           Sample.subscriber sample_subscription_ids eq_refl eq_refl).
Defined.

Lemma immediate_alter_refused_witness :
  bfailed (spock_alter_subscription_disable true "sub1" true
                                            BackendSample.backend) = true
  /\ bfailed (spock_alter_subscription_enable true "sub1" true
                                              BackendSample.backend) = true.
Proof.
  destruct (immediate_alter_refused_in_transaction_block
              true BackendSample.backend "sub1" true Sample.sub1
              Sample.subscriber eq_refl eq_refl)
    as (Hdisable & Henable & _).
  split; [apply Hdisable | apply Henable]; split; reflexivity.
Defined.

Lemma alter_enabled_witness :
  exists b',
    spock_alter_subscription_disable false "sub1" true BackendSample.backend
    = Done true b'
    /\ find_subscription "sub1" (catalog b')
       = Some (with_enabled false Sample.sub1)
    /\ backend_effects b' = [EffKillApply 30].
Proof.
  destruct (alter_enabled_changes_one_subscription
              false BackendSample.backend "sub1" true Sample.sub1
              Sample.subscriber sample_subscription_ids eq_refl eq_refl
              eq_refl)
    as ((b' & Hcall & Hfind & _ & Heffects) & _).
  exists b'. split; [exact Hcall|]. split; [exact Hfind | exact Heffects].
Defined.

Lemma disable_then_enable_witness :
  exists b1,
    spock_alter_subscription_disable true "sub1" false BackendSample.backend
    = Done true b1
    /\ spock_alter_subscription_enable true "sub1" false b1
       = Done true BackendSample.backend.
Proof.
  exact (disable_then_enable_restores
           true BackendSample.backend "sub1" Sample.sub1 Sample.subscriber
           sample_subscription_ids eq_refl eq_refl eq_refl).
Defined.

Lemma drop_node_refused_witness :
  spock_drop_node SpiRaised "nowhere" true BackendSample.backend
  = Done false BackendSample.backend
  /\ spock_drop_node SpiRaised "provider" false BackendSample.backend
     = Failed (ErrNodeHasSubscriptions "provider") BackendSample.backend.
Proof.
  split.
  - apply (proj1 (drop_node_refuses_node_with_subscriptions
                    SpiRaised BackendSample.backend "nowhere" true)).
    reflexivity.
  - apply (proj2 (drop_node_refuses_node_with_subscriptions
                    SpiRaised BackendSample.backend "provider" false)
                 Sample.provider Sample.sub1).
    + reflexivity.
    + left. reflexivity.
    + left. reflexivity.
Defined.


Lemma add_interface_witness :
  spock_alter_node_add_interface Sample.gen_interface_id "provider"
                                 "provider_alt" "host=other"
                                 BackendSample.backend
  = Failed (ErrInterfaceExists "provider" "provider_alt")
           BackendSample.backend
  /\ exists b',
       spock_alter_node_add_interface Sample.gen_interface_id "provider"
                                      "backup" "host=backup"
                                      BackendSample.backend
       = Done 21 b'
       /\ find_node_interface 2 "backup" (catalog b')
          = Some (mkInterface 21 "backup" 2 "host=backup").
Proof.
  split.
  - apply (proj1 (proj2 (add_interface_keeps_names_unique
                           Sample.gen_interface_id BackendSample.backend
                           "provider" "provider_alt" "host=other"))
                 Sample.provider BackendSample.provider_alt);
      reflexivity.
  - destruct (proj2 (proj2 (add_interface_keeps_names_unique
                              Sample.gen_interface_id BackendSample.backend
                              "provider" "backup" "host=backup"))
                    Sample.provider eq_refl eq_refl)
      as (b' & Hcall & _ & Hfind & _).
    exists b'. split; [exact Hcall | exact Hfind].
Defined.

Lemma drop_interface_witness :
  (exists user,
     spock_alter_node_drop_interface "provider" "provider"
                                     BackendSample.backend
     = Failed (ErrInterfaceInUse "provider" "provider" user)
              BackendSample.backend)
  /\ exists b',
       spock_alter_node_drop_interface "provider" "provider_alt"
                                       BackendSample.backend
       = Done true b'
       /\ subscriptions (catalog b')
          = subscriptions (catalog BackendSample.backend).
Proof.
  split.
  - apply (proj1 (proj2 (drop_interface_refuses_interface_in_use
                           BackendSample.backend "provider" "provider"
                           Sample.provider eq_refl))
                 Sample.provider_if Sample.sub1);
      try reflexivity.
    left. reflexivity.
  - destruct (proj2 (proj2 (drop_interface_refuses_interface_in_use
                              BackendSample.backend "provider" "provider_alt"
                              Sample.provider eq_refl))
                    BackendSample.provider_alt eq_refl)
      as (b' & Hcall & _ & _ & Hsubs).
    + intros sub H _. simpl in H. destruct H as [<- | []]. discriminate.
    + exists b'. split; [exact Hcall | exact Hsubs].
Defined.

Lemma add_then_drop_interface_witness :
  exists b1 b2,
    spock_alter_node_add_interface Sample.gen_interface_id "provider"
                                   "backup" "host=backup"
                                   BackendSample.backend
    = Done 21 b1
    /\ spock_alter_node_drop_interface "provider" "backup" b1 = Done true b2
    /\ node_interfaces (catalog b2)
       = node_interfaces (catalog BackendSample.backend)
    /\ nodes (catalog b2) = nodes (catalog BackendSample.backend)
    /\ subscriptions (catalog b2)
       = subscriptions (catalog BackendSample.backend).
Proof.
  apply (add_then_drop_interface
           Sample.gen_interface_id BackendSample.backend "provider" "backup"
           "host=backup" Sample.provider eq_refl eq_refl); each_row.
Defined.

Lemma drop_subscription_missing_witness :
  spock_drop_subscription Sample.net BackendSample.slot_dropped
                          [BackendSample.gone] "sub9" true
                          BackendSample.backend
  = (Returned false, BackendSample.backend)
  /\ spock_drop_subscription Sample.net BackendSample.slot_dropped
                             [BackendSample.gone] "sub9" false
                             BackendSample.backend
     = (Raised (ErrSpock (ErrSubscriptionNotFound "sub9")),
        BackendSample.backend).
Proof.
  split.
  - apply (proj1 (drop_subscription_missing_changes_nothing
                    Sample.net BackendSample.slot_dropped
                    [BackendSample.gone] "sub9" true BackendSample.backend)).
    reflexivity.
  - apply (proj1 (drop_subscription_missing_changes_nothing
                    Sample.net BackendSample.slot_dropped
                    [BackendSample.gone] "sub9" false BackendSample.backend)).
    reflexivity.
Defined.

Lemma drop_subscription_records_witness :
  let call := spock_drop_subscription Sample.net BackendSample.slot_dropped
                [BackendSample.running; BackendSample.gone] "sub1" false
                BackendSample.backend in
  fst call = Returned true
  /\ (forall s, In s (subscriptions (catalog (snd call))) <->
        In s (subscriptions BackendSample.db) /\ sub_id s <> 30)
  /\ (forall r, In r (local_sync_status (catalog (snd call))) <->
        In r (local_sync_status BackendSample.db) /\ subid r <> 30).
Proof.
  destruct (drop_subscription_removes_its_records
              Sample.net BackendSample.slot_dropped
              [BackendSample.running; BackendSample.gone] "sub1" false
              BackendSample.backend Sample.sub1 Sample.subscriber
              eq_refl eq_refl)
    as (Hreturns & _).
  apply Hreturns. right. reflexivity.
Defined.

Lemma drop_subscription_provider_witness :
  let call := spock_drop_subscription Sample.net BackendSample.slot_dropped
                [BackendSample.gone] "sub1" false BackendSample.backend in
  (forall n, In n (nodes (catalog (snd call))) <->
     In n (nodes BackendSample.db)
     /\ (origin_still_subscribed 2 30 BackendSample.db = true
         \/ node_id n <> 2))
  /\ exists later,
       backend_effects (snd call) = EffKillApply 30 :: later.
Proof.
  destruct (drop_subscription_drops_unused_provider
              Sample.net BackendSample.slot_dropped
              [BackendSample.gone] "sub1" false
              BackendSample.backend Sample.sub1 Sample.subscriber
              eq_refl eq_refl)
    as (_ & Hsubscriber).
  destruct Hsubscriber as (Hnodes & _ & Heffects); [discriminate|].
  split; [exact Hnodes | exact Heffects].
Defined.

Lemma drop_subscription_unreachable_witness :
  let call := spock_drop_subscription BackendSample.unreachable
                BackendSample.slot_dropped
                [BackendSample.running; BackendSample.gone] "sub1" false
                BackendSample.backend in
  fst call = Returned true
  /\ backend_effects (snd call)
     = [EffKillApply 30; EffWarningSlotNotDropped "spk_app_provider_sub1"]
  /\ (forall o, In o (replication_origin (snd call)) <->
        In o ["spk_app_provider_sub1"] /\ o <> "spk_app_provider_sub1").
Proof.
  destruct (drop_subscription_survives_unreachable_provider
              BackendSample.unreachable BackendSample.slot_dropped
              [BackendSample.running] BackendSample.gone []
              "sub1" false BackendSample.backend Sample.sub1
              Sample.subscriber eq_refl eq_refl)
    as (Hreturns & _ & Heffects & Horigins).
  - discriminate.
  - constructor; [repeat split | constructor].
  - reflexivity.
  - split; [exact Hreturns|]. split; [exact Heffects | exact Horigins].
Defined.

Lemma create_then_drop_subscription_witness :
  let call := spock_drop_subscription Sample.net BackendSample.slot_dropped
                [BackendSample.gone] "sub2" false
                (set_catalog (BackendSample.created "sub2")
                             BackendSample.backend) in
  Sample.create "sub2" ["other"] "relations_only" true
  = Ok 31 (BackendSample.created "sub2")
  /\ fst call = Returned true
  /\ subscriptions (catalog (snd call)) = subscriptions Sample.db
  /\ local_sync_status (catalog (snd call)) = local_sync_status Sample.db.
Proof.
  split; [reflexivity|].
  destruct (create_then_drop_subscription
              Sample.gen_node_id Sample.gen_interface_id
              Sample.gen_subscription_id Sample.gen_slot_name Sample.net
              BackendSample.slot_dropped
              Sample.db "sub2" "host=provider" ["other"] "relations_only"
              true [] 0 false 31 (BackendSample.created "sub2")
              [BackendSample.gone] false BackendSample.backend)
    as (Hreturns & Hsubs & Hsync & _); try each_row.
  - reflexivity.
  - reflexivity.
  - split; [exact Hreturns|]. split; [exact Hsubs | exact Hsync].
Defined.

Lemma sync_status_names_witness :
  sync_status_to_string SYNC_STATUS_CATCHUP
  <> sync_status_to_string SYNC_STATUS_SYNCDONE
  /\ sync_status_to_string SYNC_STATUS_NONE = "unknown".
Proof.
  split.
  - intros H.
    destruct (proj1 (sync_status_names_tell_statuses_apart
                       SYNC_STATUS_CATCHUP SYNC_STATUS_SYNCDONE) H)
      as [E | [Hunnamed _]].
    + discriminate E.
    + apply Hunnamed. simpl. tauto.
  - apply (proj2 (sync_status_names_tell_statuses_apart
                    SYNC_STATUS_NONE SYNC_STATUS_NONE)).
    simpl. intros H.
    repeat (destruct H as [H|H]; try discriminate H). exact H.
Defined.

Lemma show_subscription_table_witness :
  spock_alter_subscription_resynchronize_table "sub1" 100 false
                                               BackendSample.db
  = Ok true BackendSample.resynchronized
  /\ spock_show_subscription_table BackendSample.accepting "sub1" 100
       (set_catalog BackendSample.resynchronized BackendSample.backend)
     = Done (mkTableStatusRow "public" "t1" "sync_init")
            (set_catalog BackendSample.resynchronized BackendSample.backend).
Proof.
  split; [reflexivity|].
  apply (show_subscription_table_after_resynchronize
           BackendSample.accepting "sub1" 100 false BackendSample.backend
           true BackendSample.resynchronized Sample.t1);
    try reflexivity; try discriminate; apply Nat.leb_le; reflexivity.
Defined.

Lemma table_data_filtered_witness :
  spock_table_data_filtered Sample.eval_column (fun n : Z => Some n)
    (fun e : Z => e) (fun e : Z => e) BackendSample.rows BackendSample.filters
    true BackendSample.accepting (fun _ => true) (Some 100)
    (Some ["default"]) BackendSample.backend
  = Done [[2; 3; 4]] BackendSample.backend.
Proof.
  assert (Hprepared :
    Forall2 (fun filter_node exprstate : Z =>
               exists expr : Z, Some filter_node = Some expr
                                /\ exprstate = expr)
            (BackendSample.filters 1 Sample.t1 [BackendSample.default_set])
            [0; 1]).
  { repeat constructor; eexists; split; reflexivity. }
  destruct (table_data_filtered_returns_rows_passing_every_filter
              (list Z) Z Z Z Sample.eval_column (fun n : Z => Some n)
              (fun e : Z => e) (fun e : Z => e) BackendSample.rows
              BackendSample.filters BackendSample.accepting (fun _ => true)
              100 ["default"] BackendSample.backend Sample.subscriber
              Sample.t1 [BackendSample.default_set] [0; 1]
              eq_refl eq_refl eq_refl eq_refl eq_refl eq_refl eq_refl
              eq_refl Hprepared)
    as (Hrows & _).
  apply Hrows.
  intros htup H. simpl in H.
  repeat (destruct H as [<- | H]); try contradiction; discriminate.
Defined.

Lemma drop_statement_witness :
  spock_ProcessUtility 10 BackendSample.escape BackendSample.targets
    (T_DropStmt DROP_CASCADE)
    (spock_object_access 900 901 BackendSample.schema_of
       SESSION_REPLICATION_ROLE_ORIGIN None BackendSample.drop_table)
    BackendSample.backend
  = Done tt
      (note_effect (EffCheckDependency RelationRelationId 100 0 DROP_CASCADE)
         (set_spock_lastDropBehavior DROP_CASCADE
            (set_dropping_spock_obj false BackendSample.backend))).
Proof.
  apply (drop_statement_checks_dependencies_with_its_behavior
           10 BackendSample.escape BackendSample.targets 900 901
           BackendSample.schema_of SESSION_REPLICATION_ROLE_ORIGIN
           DROP_CASCADE BackendSample.drop_table BackendSample.backend
           Sample.subscriber); reflexivity.
Defined.

Lemma no_dependency_check_witness :
  bforeach [BackendSample.drop_extension; BackendSample.drop_table]
           (spock_object_access 900 901 BackendSample.schema_of
              SESSION_REPLICATION_ROLE_ORIGIN None)
           BackendSample.lone
  = Done tt (set_dropping_spock_obj true BackendSample.lone).
Proof.
  apply (no_dependency_check_after_spock_object
           900 901 BackendSample.schema_of SESSION_REPLICATION_ROLE_ORIGIN
           BackendSample.drop_extension [BackendSample.drop_table]
           BackendSample.lone); reflexivity.
Defined.

Lemma replicate_ddl_command_witness :
  in_spock_replicate_ddl_command
    (final (spock_replicate_ddl_command 10 BackendSample.escape "ddl_sql"
              BackendSample.role_name BackendSample.failing "create table t4 (id int)" None
              BackendSample.backend)) = false
  /\ spock_replicate_ddl_command 10 BackendSample.escape "ddl_sql"
       BackendSample.role_name BackendSample.failing "create table t4 (id int)" (Some ["other"])
       BackendSample.backend
     = Failed (ErrReplicationSetNotFound "other") BackendSample.backend.
Proof.
  split.
  - apply (proj1 (replicate_ddl_command_clears_its_flag
                    10 BackendSample.escape "ddl_sql" BackendSample.role_name
                    BackendSample.failing "create table t4 (id int)" None
                    BackendSample.backend)).
    reflexivity.
  - apply (proj1 (proj2 (replicate_ddl_command_clears_its_flag
                           10 BackendSample.escape "ddl_sql"
                           BackendSample.role_name BackendSample.failing
                           "create table t4 (id int)"
                           (Some ["other"]) BackendSample.backend))
                 Sample.subscriber "other"); reflexivity.
Defined.

Lemma alter_replication_set_witness :
  exists b',
    spock_alter_replication_set (Some "default") None (Some false) None None
                                BackendSample.backend = Done 40 b'
    /\ (forall x, In x (replication_set b') <->
          x = mkRepSet 40 1 "default" true false true true
          \/ (In x (replication_set BackendSample.backend) /\ rs_id x <> 40)).
Proof.
  destruct (alter_replication_set_changes_given_flags
              "default" None (Some false) None None BackendSample.backend
              Sample.subscriber BackendSample.default_set
              sample_replication_set_ids eq_refl eq_refl)
    as (b' & Hcall & _ & Hsets & _).
  exists b'. split; [exact Hcall | exact Hsets].
Defined.

Lemma drop_replication_set_witness :
  (exists b',
     spock_drop_replication_set "ddl_sql" false BackendSample.backend
     = Done true b'
     /\ catalog b' = catalog BackendSample.backend
     /\ forall x, In x (replication_set b') <->
                  In x (replication_set BackendSample.backend)
                  /\ rs_id x <> 41)
  /\ spock_drop_replication_set "other" true BackendSample.backend
     = Done false BackendSample.backend.
Proof.
  split.
  - exact (drop_replication_set_removes_only_the_named_set
             "ddl_sql" false BackendSample.backend Sample.subscriber
             eq_refl).
  - exact (drop_replication_set_removes_only_the_named_set
             "other" true BackendSample.backend Sample.subscriber eq_refl).
Defined.

Lemma create_then_drop_node_witness :
  exists b1 b2 local,
    spock_create_node Sample.gen_node_id Sample.gen_interface_id
      BackendSample.gen_repset_id "default" "default_insert_only" "ddl_sql"
      "subscriber2" "host=subscriber2" BackendSample.plain = Done 3 b1
    /\ local_node (catalog b1) = Some local
    /\ node local = mkNode 3 "subscriber2"
    /\ spock_drop_node (SpiResult SPI_OK_SELECT) "subscriber2" false b1
       = Done true b2
    /\ local_node (catalog b2) = None
    /\ nodes (catalog b2) = nodes (catalog BackendSample.plain)
    /\ node_interfaces (catalog b2)
       = node_interfaces (catalog BackendSample.plain)
    /\ replication_set b2 = replication_set BackendSample.plain
    /\ subscriptions (catalog b2)
       = subscriptions (catalog BackendSample.plain)
    /\ backend_effects b2 = [EffDropLocalSlots].
Proof.
  apply (create_then_drop_node
           Sample.gen_node_id Sample.gen_interface_id
           BackendSample.gen_repset_id "default" "default_insert_only"
           "ddl_sql" "subscriber2" "host=subscriber2" false
           BackendSample.plain); try reflexivity; each_row.
Defined.
